(** * Rss_v2.2 hero animations: a shallow embedding and its verification

    The development embeds three pieces of the site's hero section:

    - [FallingLetters]: the hook [useFallingLetters] (src/hooks/useFallingLetters.js):
      letter wrapping of the title, entrance tween, scroll-coupled fall;
    - [Hero]: the component [Hero] that draws on its own canvas (lines 1-258
      of src/components/react/Hero.jsx): the explosion pass of [animate] and
      the scroll handler;
    - [Network]: the component [InteractiveNetwork] (the rest of the same
      file; line numbers are those of the file): points, comets
      ([AnimatedLine]), explosions ([ExplosionEffect]), [spawnRandomLine],
      [updateNetwork], the effect and its cleanup.

    JavaScript numbers are idealised as rationals ([Q]); the one non-finite
    value the code produces itself, [Infinity] in [getDistance], is kept as a
    constructor of [number].  [Math.random] is a stream of rationals read
    through a cursor, so every function that draws random numbers threads the
    generator explicitly.  The tweening library (gsap) is external to the
    repository: its effect on the program is modelled by the list of in-flight
    tweens it owns and by the callbacks it fires on them.  The library keeps a
    tween in flight only if its duration is positive (a tween of duration 0
    is rendered to its end, callbacks included, inside the call that creates
    it), so the model of the scheduler is the model of the component for
    positive durations, and the theorems that follow a tween to its
    completion assume them.

    A [string] stands for the JavaScript string whose UTF-16 code units are
    the codes of its characters: the model speaks of the strings whose code
    units are all below 256. *)

From Stdlib Require Import QArith Qround Lqa ZArith Lia Ascii String.
From stdpp Require Import base option list strings.

Local Open Scope Q_scope.

(** ** JavaScript primitives *)

Module JS.

(** [Math.max] and [Math.min] on finite numbers. *)
Definition Math_max (a b : Q) : Q := if Qlt_le_dec a b then b else a.
Definition Math_min (a b : Q) : Q := if Qlt_le_dec b a then b else a.
Definition Math_abs (a : Q) : Q := if Qlt_le_dec a 0 then - a else a.

(** Boolean comparisons of finite numbers. *)
Definition ltb (a b : Q) : bool := if Qlt_le_dec a b then true else false.
Definition leb (a b : Q) : bool := if Qlt_le_dec b a then false else true.

(** A number that is finite or [Infinity]. *)
Inductive number : Type :=
| Fin (q : Q)
| Infinity.

(** [a > b] and [a <= b] for a possibly infinite [a] and a finite [b]. *)
Definition number_gtb (a : number) (b : Q) : bool :=
  match a with
  | Fin q => ltb b q
  | Infinity => true
  end.

Definition number_leb (a : number) (b : Q) : bool :=
  match a with
  | Fin q => leb q b
  | Infinity => false
  end.

(** The state of [Math.random]: the stream of its results and how many of
    them have been consumed. *)
Record RNG : Type := mkRNG { draws : nat -> Q; cursor : nat }.

Definition Math_random (g : RNG) : Q * RNG :=
  (draws g (cursor g), mkRNG (draws g) (S (cursor g))).

(** [Math.floor(Math.random() * n)]. *)
Definition randomIndex (n : nat) (g : RNG) : Z * RNG :=
  let '(r, g') := Math_random g in
  (Qfloor (r * inject_Z (Z.of_nat n)), g').

(** [a[i]] for an index that is a JavaScript number holding an integer:
    [undefined] (here [None]) outside [0 .. a.length - 1]. *)
Definition index {A : Type} (a : list A) (i : Z) : option A :=
  if (i <? 0)%Z then None else a !! Z.to_nat i.

(** Result of one run of a loop body. *)
Inductive control (S : Type) : Type :=
| Next (s : S)
| Break (s : S).
Arguments Next {S} s.
Arguments Break {S} s.

(** [while (cond) body], run for at most [fuel] evaluations of the
    condition; [None] when the fuel runs out before the loop exits. *)
Fixpoint while {S : Type} (fuel : nat) (cond : S -> bool)
    (body : S -> option (control S)) (s : S) : option S :=
  match fuel with
  | O => None
  | Datatypes.S fuel' =>
      if cond s then
        match body s with
        | Some (Next s') => while fuel' cond body s'
        | Some (Break s') => Some s'
        | None => None
        end
      else Some s
  end.

End JS.

(** ** Strings: [includes] and the three regular expressions of the code *)

Module JSString.

(** [String.prototype.includes] *)
Fixpoint includes (needle s : string) : bool :=
  String.prefix needle s
  || match s with
     | EmptyString => false
     | String _ s' => includes needle s'
     end.

(** The class [\d] and the value of a digit. *)
Definition is_digit (c : ascii) : bool :=
  (48 <=? nat_of_ascii c)%nat && (nat_of_ascii c <=? 57)%nat.

Definition digit_value (c : ascii) : Z := Z.of_nat (nat_of_ascii c) - 48.

(** The class [\s] among the code units below 256: tab, line feed, vertical
    tab, form feed, carriage return, space and no-break space. *)
Definition is_space (c : ascii) : bool :=
  let n := nat_of_ascii c in
  ((9 <=? n)%nat && (n <=? 13)%nat) || (n =? 32)%nat || (n =? 160)%nat.

(** A greedy [\d+] or [\s*] at the start of a string: the longest run and
    what follows it. In the three expressions what comes after a run cannot
    begin with a character of the class of the run, so that giving up a part
    of the run never lets the rest of the expression match. *)
Fixpoint span (p : ascii -> bool) (s : string) : list ascii * string :=
  match s with
  | EmptyString => ([], s)
  | String c s' =>
      if p c then let '(run, rest) := span p s' in (c :: run, rest)
      else ([], s)
  end.

(** [parseFloat] of a digit, a point and digits. *)
Definition digits_value (ds : list ascii) : Z :=
  fold_left (fun acc d => (10 * acc + digit_value d)%Z) ds 0%Z.

Definition decimal (d : ascii) (frac : list ascii) : Q :=
  inject_Z (digit_value d)
  + (digits_value frac # Pos.of_nat (10 ^ length frac)).

(** The first match of an expression: it is tried at every position from
    the left. The result is the text before the match and what the
    expression yields there. *)
Fixpoint firstMatch {A : Type} (here : string -> option A) (s : string)
    : option (string * A) :=
  match here s with
  | Some r => Some (EmptyString, r)
  | None =>
      match s with
      | EmptyString => None
      | String c s' =>
          match firstMatch here s' with
          | Some (before, r) => Some (String c before, r)
          | None => None
          end
      end
  end.

(** [/, (\d\.\d+)\)/] (lines 403-419) and, with [single],
    [/, (\d\.\d+|\d)\)/] (line 447), tried at the start of a string: the
    value [parseFloat] gives for the group and the text after the match. *)
Definition alpha_here (single : bool) (s : string) : option (Q * string) :=
  match s with
  | String c1 (String c2 (String d rest)) =>
      if Ascii.eqb c1 "," && Ascii.eqb c2 " " && is_digit d then
        match rest with
        | String c3 rest1 =>
            if Ascii.eqb c3 "." then
              match span is_digit rest1 with
              | ((_ :: _) as frac, String c4 rest2) =>
                  if Ascii.eqb c4 ")" then Some (decimal d frac, rest2)
                  else None
              | _ => None
              end
            else if single && Ascii.eqb c3 ")"
            then Some (inject_Z (digit_value d), rest1)
            else None
        | EmptyString => None
        end
      else None
  | _ => None
  end.

(** [\s*,\s*] at the start of a string: what follows it. *)
Definition comma_then (s : string) : option string :=
  match (span is_space s).2 with
  | String c rest =>
      if Ascii.eqb c "," then Some (span is_space rest).2 else None
  | EmptyString => None
  end.

(** [/(\d+)\s*,\s*(\d+)\s*,\s*(\d+)/] (line 336) tried at the start of a
    string: the three groups. *)
Definition rgb_here (s : string) : option (string * string * string) :=
  match span is_digit s with
  | ((_ :: _) as r, s1) =>
      match comma_then s1 with
      | Some s2 =>
          match span is_digit s2 with
          | ((_ :: _) as g, s3) =>
              match comma_then s3 with
              | Some s4 =>
                  match span is_digit s4 with
                  | ((_ :: _) as b, _) =>
                      Some (string_of_list_ascii r, string_of_list_ascii g,
                            string_of_list_ascii b)
                  | _ => None
                  end
              | None => None
              end
          | _ => None
          end
      | None => None
      end
  | _ => None
  end.

End JSString.

(** ** The title's DOM subtree *)

Module Dom.

(** A DOM node: character data, or an element with its class list and its
    children. *)
#[warnings="-register-all"]
Inductive node : Type :=
| Text (data : string)
| Element (classList : list string) (childNodes : list node).

(** An element of the subtree is referred to by the child indices leading
    to it from the root. *)
Definition path : Type := list nat.

Definition has_class (c : string) (classList : list string) : bool :=
  bool_decide (c ∈ classList).

(** The two selectors of the hook. *)
Definition sel_letter (classList : list string) : bool :=
  has_class "letter" classList.

Definition sel_letter_not_space (classList : list string) : bool :=
  has_class "letter" classList && negb (has_class "letter--space" classList).

Fixpoint concat_text (f : node -> string) (ns : list node) : string :=
  match ns with
  | [] => ""
  | n :: ns' => (f n +:+ concat_text f ns')%string
  end.

Fixpoint node_text (n : node) : string :=
  match n with
  | Text data => data
  | Element _ kids => concat_text node_text kids
  end.

(** [el.textContent] of an element with children [kids]. *)
Definition textContent (kids : list node) : string :=
  concat_text node_text kids.

Fixpoint select_from (f : node -> list path) (i : nat) (ns : list node)
    : list path :=
  match ns with
  | [] => []
  | n :: ns' => map (cons i) (f n) ++ select_from f (S i) ns'
  end.

(** Elements matching [sel] in the subtree of [n], [n] included, in
    document order. *)
Fixpoint select_node (sel : list string -> bool) (n : node) : list path :=
  match n with
  | Text _ => []
  | Element classList kids =>
      (if sel classList then [[]] else [])
      ++ select_from (select_node sel) 0 kids
  end.

(** [el.querySelectorAll(sel)] of an element with children [kids]: the
    matching descendants in document order. *)
Definition querySelectorAll (sel : list string -> bool) (kids : list node)
    : list path :=
  select_from (select_node sel) 0 kids.

(** The node a path leads to, from [n] and from the children [kids] of the
    root. *)
Fixpoint resolve_node (n : node) (q : path) : option node :=
  match q with
  | [] => Some n
  | i :: q' =>
      match n with
      | Text _ => None
      | Element _ kids =>
          match kids !! i with
          | Some k => resolve_node k q'
          | None => None
          end
      end
  end.

Definition resolve (kids : list node) (q : path) : option node :=
  match q with
  | [] => None
  | i :: q' =>
      match kids !! i with
      | Some k => resolve_node k q'
      | None => None
      end
  end.

(** [q] leads to an element whose class list satisfies [sel]. *)
Definition selects (sel : list string -> bool) (kids : list node) (q : path)
    : Prop :=
  exists classList children,
    resolve kids q = Some (Element classList children)
    /\ sel classList = true.

End Dom.

(** ** Calls to the tweening library *)

Module Gsap.
Import Dom.

(** The object literal handed to [gsap.set] and [gsap.to]; a property the
    call does not mention is [None]. *)
Record Vars : Type := {
  v_y : option Q;
  v_x : option Q;
  v_rotation : option Q;
  v_opacity : option Q;
  v_duration : option Q;
  v_stagger : option Q;
  v_delay : option Q;
  v_ease : option string;
  v_overwrite : bool
}.

(** The calls made to the tweening library. *)
Inductive GsapCall : Type :=
| gsap_set (targets : list path) (vars : Vars)
| gsap_to (targets : list path) (vars : Vars).

End Gsap.

(** ** The hook [useFallingLetters] *)

Module FallingLetters.
Import JS Dom Gsap.

(** The hook's options, with the defaults of its signature. *)
Record Options : Type := {
  entranceDelay : Q;
  staggerDelay : Q;
  fallDistance : Q;
  maxHorizontalDrift : Q;
  maxRotation : Q;
  scrub : Q
}.

Definition defaultOptions : Options := {|
  entranceDelay := 0.6;
  staggerDelay := 0.05;
  fallDistance := 300;
  maxHorizontalDrift := 150;
  maxRotation := 120;
  scrub := 0.5
|}.

(** One element of [letterParams]. *)
Record LetterParams : Type := {
  randomY : Q;
  randomX : Q;
  randomRotation : Q;
  randomDelayFactor : Q
}.

(** A [ScrollTrigger] instance: its configuration, the [letterParams] its
    callbacks close over, and whether [kill] has been called on it. *)
Record ScrollTriggerInstance : Type := {
  st_trigger : nat;
  st_start : string;
  st_end : string;
  st_scrub : Q;
  st_letterParams : list LetterParams;
  st_killed : bool
}.

(** Everything the effect of the hook reads and writes. [titleRef] holds the
    child nodes of the heading element, [containerRef] the handle of the
    section; [tweens] are the calls received by gsap, each with its killed
    flag; [triggers] is the registry of [ScrollTrigger] instances. *)
Record World : Type := {
  titleRef : option (list node);
  containerRef : option nat;
  lettersRef : list path;
  scrollTriggerRef : option nat;
  entranceTimelineRef : option nat;
  tweens : list (GsapCall * bool);
  triggers : list ScrollTriggerInstance;
  random : RNG
}.

Definition set_title (t : list node) (w : World) : World :=
  {| titleRef := Some t; containerRef := containerRef w;
     lettersRef := lettersRef w; scrollTriggerRef := scrollTriggerRef w;
     entranceTimelineRef := entranceTimelineRef w; tweens := tweens w;
     triggers := triggers w; random := random w |}.

Definition set_lettersRef (l : list path) (w : World) : World :=
  {| titleRef := titleRef w; containerRef := containerRef w;
     lettersRef := l; scrollTriggerRef := scrollTriggerRef w;
     entranceTimelineRef := entranceTimelineRef w; tweens := tweens w;
     triggers := triggers w; random := random w |}.

Definition set_scrollTriggerRef (r : option nat) (w : World) : World :=
  {| titleRef := titleRef w; containerRef := containerRef w;
     lettersRef := lettersRef w; scrollTriggerRef := r;
     entranceTimelineRef := entranceTimelineRef w; tweens := tweens w;
     triggers := triggers w; random := random w |}.

Definition set_entranceTimelineRef (r : option nat) (w : World) : World :=
  {| titleRef := titleRef w; containerRef := containerRef w;
     lettersRef := lettersRef w; scrollTriggerRef := scrollTriggerRef w;
     entranceTimelineRef := r; tweens := tweens w;
     triggers := triggers w; random := random w |}.

Definition set_tweens (t : list (GsapCall * bool)) (w : World) : World :=
  {| titleRef := titleRef w; containerRef := containerRef w;
     lettersRef := lettersRef w; scrollTriggerRef := scrollTriggerRef w;
     entranceTimelineRef := entranceTimelineRef w; tweens := t;
     triggers := triggers w; random := random w |}.

Definition set_triggers (t : list ScrollTriggerInstance) (w : World) : World :=
  {| titleRef := titleRef w; containerRef := containerRef w;
     lettersRef := lettersRef w; scrollTriggerRef := scrollTriggerRef w;
     entranceTimelineRef := entranceTimelineRef w; tweens := tweens w;
     triggers := t; random := random w |}.

Definition set_random (g : RNG) (w : World) : World :=
  {| titleRef := titleRef w; containerRef := containerRef w;
     lettersRef := lettersRef w; scrollTriggerRef := scrollTriggerRef w;
     entranceTimelineRef := entranceTimelineRef w; tweens := tweens w;
     triggers := triggers w; random := g |}.

(** [gsap.set(targets, vars)] and [gsap.to(targets, vars)]: the call joins
    the library's list; [gsap_to_handle] is the handle [gsap.to] returns. *)
Definition call_gsap (c : GsapCall) (w : World) : World :=
  set_tweens (tweens w ++ [(c, false)]) w.

Definition gsap_to_handle (w : World) : nat := length (tweens w).

(** *** Letter wrapping (lines 35-54) *)

(** What the HTML parser makes of a character that stands alone between
    the tags of a span: a carriage return becomes a line feed, U+0000 is
    dropped, any other character is the text of the span. *)
Definition parsedChar (char : ascii) : list node :=
  if Ascii.eqb char "000"%char then []
  else if Ascii.eqb char "013"%char
       then [Text (String "010"%char EmptyString)]
       else [Text (String char EmptyString)].

(** The markup built for one character of the title text: a space gets the
    extra class [letter--space]. Assigning the concatenated markup to
    [innerHTML] of the heading sends it through the HTML parser and makes
    the spans it yields the children of the title. *)
Definition wrapChar (char : ascii) : node :=
  if Ascii.eqb char " "%char
  then Element ["letter"; "letter--space"] [Text " "]
  else Element ["letter"] (parsedChar char).

Fixpoint wrapText (text : string) : list node :=
  match text with
  | EmptyString => []
  | String char text' => wrapChar char :: wrapText text'
  end.

(** Step 1 of the effect: the title after wrapping and the letters selected
    for animation. *)
Definition decompose (titleElement : list node) : list node * list path :=
  let letters := querySelectorAll sel_letter titleElement in
  if Nat.eqb (length letters) 0 then
    let text := textContent titleElement in
    let wrapped := wrapText text in
    (wrapped, querySelectorAll sel_letter_not_space wrapped)
  else
    (titleElement, querySelectorAll sel_letter_not_space titleElement).

(** *** Scroll handler (lines 84-100) *)

Definition letterFallProgress (progress : Q) (params : LetterParams) : Q :=
  let letterFallProgress :=
    Math_max 0 ((progress - randomDelayFactor params * 0.3) / 2.4) in
  Math_min 1 letterFallProgress.

(** The object passed to [gsap.to] for one letter. *)
Definition fallVars (progress : Q) (params : LetterParams) : Vars :=
  let f := letterFallProgress progress params in
  {| v_y := Some (f * randomY params);
     v_x := Some (f * randomX params);
     v_rotation := Some (f * randomRotation params);
     v_opacity := Some (1 - f);
     v_duration := Some 0.1;
     v_stagger := None;
     v_delay := None;
     v_ease := Some "power1.out"%string;
     v_overwrite := true |}.

(** [lettersRef.current.forEach((letter, i) => ...)] from index [i] on.
    [letterParams[i]] is [undefined] beyond the end of [letterParams], and
    reading a property of it throws: the handler stops with [None]. *)
Fixpoint onUpdate_from (letterParams : list LetterParams) (progress : Q)
    (i : nat) (letters : list path) (w : World) : option World :=
  match letters with
  | [] => Some w
  | letter :: letters' =>
      match letterParams !! i with
      | None => None
      | Some params =>
          onUpdate_from letterParams progress (S i) letters'
            (call_gsap (gsap_to [letter] (fallVars progress params)) w)
      end
  end.

Definition onUpdate (letterParams : list LetterParams) (progress : Q)
    (w : World) : option World :=
  onUpdate_from letterParams progress 0 (lettersRef w) w.

Definition onLeave (w : World) : World :=
  call_gsap (gsap_to (lettersRef w)
    {| v_y := None; v_x := None; v_rotation := None; v_opacity := Some 0;
       v_duration := Some 0.1; v_stagger := None; v_delay := None;
       v_ease := None; v_overwrite := false |}) w.

Definition onEnterBack (w : World) : World :=
  call_gsap (gsap_to (lettersRef w)
    {| v_y := Some 0; v_x := Some 0; v_rotation := Some 0;
       v_opacity := Some 1; v_duration := Some 0.1; v_stagger := None;
       v_delay := None; v_ease := None; v_overwrite := true |}) w.

(** *** Mount (lines 27-116) *)

(** [lettersRef.current.map(() => ({ randomY, randomX, randomRotation,
    randomDelayFactor }))]: four draws per letter, in property order. *)
Fixpoint makeLetterParams (o : Options) (letters : list path) (g : RNG)
    : list LetterParams * RNG :=
  match letters with
  | [] => ([], g)
  | _ :: letters' =>
      let '(r1, g1) := Math_random g in
      let '(r2, g2) := Math_random g1 in
      let '(r3, g3) := Math_random g2 in
      let '(r4, g4) := Math_random g3 in
      let params :=
        {| randomY := fallDistance o + r1 * 200;
           randomX := (r2 - 0.5) * maxHorizontalDrift o;
           randomRotation := (r3 - 0.5) * maxRotation o;
           randomDelayFactor := r4 * 0.6 |} in
      let '(rest, g') := makeLetterParams o letters' g4 in
      (params :: rest, g')
  end.

(** The body of the effect. The test on [typeof gsap] and
    [typeof ScrollTrigger] holds for the imported modules. *)
Definition effect (o : Options) (w : World) : World :=
  match titleRef w, containerRef w with
  | Some titleElement, Some container =>
      let '(titleElement', letters) := decompose titleElement in
      let w := set_lettersRef letters (set_title titleElement' w) in
      if Nat.eqb (length letters) 0 then w else
      let w := call_gsap (gsap_set letters
        {| v_y := Some 100; v_x := None; v_rotation := None;
           v_opacity := Some 0; v_duration := None; v_stagger := None;
           v_delay := None; v_ease := None; v_overwrite := false |}) w in
      let handle := gsap_to_handle w in
      let w := call_gsap (gsap_to letters
        {| v_y := Some 0; v_x := None; v_rotation := None;
           v_opacity := Some 1; v_duration := Some 1.2;
           v_stagger := Some (staggerDelay o);
           v_delay := Some (entranceDelay o);
           v_ease := Some "power3.out"%string; v_overwrite := false |}) w in
      let w := set_entranceTimelineRef (Some handle) w in
      let '(letterParams, g) := makeLetterParams o (lettersRef w) (random w) in
      let w := set_random g w in
      let instance :=
        {| st_trigger := container; st_start := "top top"; st_end := "+=100px";
           st_scrub := scrub o; st_letterParams := letterParams;
           st_killed := false |} in
      let w := set_scrollTriggerRef (Some (length (triggers w))) w in
      set_triggers (triggers w ++ [instance]) w
  | _, _ => w
  end.

(** The cleanup returned by the effect (lines 119-127): [kill] on the
    [ScrollTrigger] instance and on the entrance tween, then
    [lettersRef.current = []]. *)
Definition kill_trigger (inst : ScrollTriggerInstance) : ScrollTriggerInstance :=
  {| st_trigger := st_trigger inst; st_start := st_start inst;
     st_end := st_end inst; st_scrub := st_scrub inst;
     st_letterParams := st_letterParams inst; st_killed := true |}.

Definition cleanup (w : World) : World :=
  let w :=
    match scrollTriggerRef w with
    | Some k => set_triggers (alter kill_trigger k (triggers w)) w
    | None => w
    end in
  let w :=
    match entranceTimelineRef w with
    | Some h => set_tweens (alter (fun c => (c.1, true)) h (tweens w)) w
    | None => w
    end in
  set_lettersRef [] w.

(** A scroll event delivered by [ScrollTrigger] to the instance [k]: a killed
    instance receives nothing. *)
Inductive ScrollEvent : Type :=
| Update (progress : Q)
| Leave
| EnterBack.

Definition deliver (k : nat) (e : ScrollEvent) (w : World) : option World :=
  match triggers w !! k with
  | None => Some w
  | Some inst =>
      if st_killed inst then Some w else
      match e with
      | Update progress => onUpdate (st_letterParams inst) progress w
      | Leave => Some (onLeave w)
      | EnterBack => Some (onEnterBack w)
      end
  end.

(** The calls [gsap.to] received after the first [n] calls: what one run of a
    handler applied. *)
Definition applied (n : nat) (w : World) : list GsapCall :=
  map fst (drop n (tweens w)).

(** *** Reference definitions, in the words of the specification *)

(** [clamp(v, lo, hi)] *)
Definition clamp (v lo hi : Q) : Q :=
  if Qlt_le_dec v lo then lo else if Qlt_le_dec hi v then hi else v.

(** The state the specification says a scroll update applies to a letter
    whose fall progress is [f]. *)
Definition fallState (f : Q) (params : LetterParams)
    : option Q * option Q * option Q * option Q :=
  (Some (f * randomY params), Some (f * randomX params),
   Some (f * randomRotation params), Some (1 - f)).

(** The units of a title text: one per character that is not a space, named
    by the position of the character, counting from [i]. *)
Fixpoint letterUnits (i : nat) (text : string) : list path :=
  match text with
  | EmptyString => []
  | String char text' =>
      (if Ascii.eqb char " "%char then [] else [[i]])
      ++ letterUnits (S i) text'
  end.

End FallingLetters.

(** ** The component [Hero] *)

Module Hero.
Import JS Dom Gsap.

(** *** Scroll handler (lines 194-211) *)

Record ScrollWorld : Type := {
  innerHeight : Q;
  letters : list path;
  tweens : list GsapCall;
  random : RNG
}.

(** [(i * 100) % 300] and [(i % 2 === 0 ? 1 : -1)] for an array index. *)
Definition yOffset (i : nat) : Q := inject_Z (Z.of_nat ((i * 100) mod 300)).
Definition rotSign (i : nat) : Q := if Nat.eqb (i mod 2) 0 then 1 else -1.

(** The body of the [letters.forEach] callback for letter [l] at index [i]:
    one draw of [Math.random] and one call of [gsap.to]. *)
Definition updateLetter (prog : Q) (l : path) (i : nat) (w : ScrollWorld)
    : ScrollWorld :=
  let yDist := innerHeight w * 1.5 + yOffset i in
  let '(r, g) := Math_random (random w) in
  let xDist := (r - 0.5) * 300 * prog in
  let rot := rotSign i * 45 * prog in
  {| innerHeight := innerHeight w;
     letters := letters w;
     tweens := tweens w ++ [gsap_to [l]
       {| v_y := Some (prog * yDist); v_x := Some xDist;
          v_rotation := Some rot; v_opacity := Some (1 - prog);
          v_duration := Some 0.1; v_stagger := None; v_delay := None;
          v_ease := None; v_overwrite := true |}];
     random := g |}.

Fixpoint onUpdate_from (prog : Q) (i : nat) (ls : list path) (w : ScrollWorld)
    : ScrollWorld :=
  match ls with
  | [] => w
  | l :: ls' => onUpdate_from prog (S i) ls' (updateLetter prog l i w)
  end.

Definition onUpdate (prog : Q) (w : ScrollWorld) : ScrollWorld :=
  onUpdate_from prog 0 (letters w) w.

(** *** Explosions (lines 94-116) and their pass in [animate] (171-174) *)

(** A particle of an explosion. The constructor never sets [x] and [y], so
    they are [undefined], and [NaN] once [update] has added a velocity:
    [None] stands for both. *)
Record Particle : Type := {
  p_x : option Q;
  p_y : option Q;
  vx : Q;
  vy : Q;
  life : Q;
  size : Q
}.

Record Explosion : Type := {
  e_x : Q;
  e_y : Q;
  e_color : string;
  particles : list Particle
}.

Inductive DrawCall : Type :=
| fillRect (color : string) (alpha : Q) (x y : option Q) (w h : Q).

(** [p.x += p.vx] on a coordinate that may not be a number. *)
Definition add_to (c : option Q) (v : Q) : option Q :=
  match c with
  | Some q => Some (q + v)
  | None => None
  end.

Definition moveParticle (p : Particle) : Particle :=
  {| p_x := add_to (p_x p) (vx p);
     p_y := add_to (p_y p) (vy p);
     vx := vx p; vy := vy p;
     life := life p - 0.04;
     size := size p |}.

(** [Explosion.update] *)
Definition update (e : Explosion) : Explosion :=
  {| e_x := e_x e; e_y := e_y e; e_color := e_color e;
     particles :=
       List.filter (fun p => ltb 0 (life p)) (map moveParticle (particles e)) |}.

(** [Explosion.draw] *)
Definition draw (e : Explosion) : list DrawCall :=
  map (fun p => fillRect (e_color e) (life p) (p_x p) (p_y p) (size p) (size p))
      (particles e).

(** The eight particles of [new Explosion(x, y, color)]: three draws each. *)
Fixpoint newParticles (n : nat) (g : RNG) : list Particle * RNG :=
  match n with
  | O => ([], g)
  | S n' =>
      let '(r1, g1) := Math_random g in
      let '(r2, g2) := Math_random g1 in
      let '(r3, g3) := Math_random g2 in
      let p := {| p_x := None; p_y := None;
                  vx := (r1 - 0.5) * 4; vy := (r2 - 0.5) * 4;
                  life := 1; size := r3 * 2 + 1 |} in
      let '(ps, g') := newParticles n' g3 in
      (p :: ps, g')
  end.

Definition new_Explosion (x y : Q) (color : string) (g : RNG)
    : Explosion * RNG :=
  let '(ps, g') := newParticles 8 g in
  ({| e_x := x; e_y := y; e_color := color; particles := ps |}, g').

(** The part of a frame that concerns explosions: the array and what has been
    drawn on the canvas. *)
Record Frame : Type := {
  explosions : list Explosion;
  canvas : list DrawCall
}.

(** The callback of [explosions.forEach((e, i) => ...)]: [e] is the object at
    index [i], updated in place, drawn, and spliced out of the array that is
    being traversed when it has no particle left. *)
Definition visit (e : Explosion) (i : nat) (f : Frame) : Frame :=
  let e' := update e in
  let arr := <[i := e']> (explosions f) in
  let cv := canvas f ++ draw e' in
  if Nat.eqb (length (particles e')) 0
  then {| explosions := delete i arr; canvas := cv |}
  else {| explosions := arr; canvas := cv |}.

(** [Array.prototype.forEach]: the length is read once, before the first
    call; index [k] is visited only if the array still has an element
    there. [n] counts the indices left to visit. *)
Fixpoint forEach_from (n k : nat) (f : Frame) : Frame :=
  match n with
  | O => f
  | S n' =>
      let f' :=
        match explosions f !! k with
        | Some e => visit e k f
        | None => f
        end in
      forEach_from n' (S k) f'
  end.

Definition animate_explosions (f : Frame) : Frame :=
  forEach_from (length (explosions f)) 0 f.

(** *** Reference definition, in the words of the specification *)

(** A pass that updates and draws every explosion exactly once and removes
    the finished ones by filtering into a new collection. *)
Definition filtering_pass (f : Frame) : Frame :=
  let updated := map update (explosions f) in
  {| explosions :=
       List.filter (fun e => negb (Nat.eqb (length (particles e)) 0)) updated;
     canvas := canvas f ++ concat (map draw updated) |}.

End Hero.

(** ** The component [InteractiveNetwork] *)

Module Network.
Import JS JSString.

(** Two functions of the host have no rational closed form and are taken as
    given: [Math.sqrt] and gsap's ease ['expo.out']. *)
Record Host : Type := {
  Math_sqrt : Q -> Q;
  expo_out : Q -> Q
}.

(** Colours are strings. What the code hands to the 2d context is such a
    string, or a string into which a template literal has printed a number:
    [AlphaIn before a after] stands for [before], a comma, a space, the
    number [a], a closing parenthesis and [after], and [Rgba rgbColor a] for
    [rgba(rgbColor, a)]. The number is kept as it is, so that nothing has to
    be said of the way JavaScript prints numbers. The colours of the props
    are taken to be colours the 2d context accepts. *)
Inductive Paint : Type :=
| Plain (s : string)
| AlphaIn (before : string) (a : Q) (after : string)
| Rgba (rgbColor : string) (a : Q).

(** [networkSettings]: the props of the component. *)
Record Settings : Type := {
  numPoints : nat;
  pointRadius : Q;
  pointColor : string;
  connectDistance : Q;
  lineColors : list string;
  lineWidthStart : Q;
  cometTailLength : Q;
  lineAnimationDuration : Q;
  explosionMaxRadiusFactor : Q;
  explosionDuration : Q;
  maxActiveLines : nat
}.

Definition defaultSettings : Settings := {|
  numPoints := 800;
  pointRadius := 1.5;
  pointColor := "rgba(133, 141, 148, 0)";
  connectDistance := 500;
  lineColors :=
    [ "rgba(255, 127, 80, 0.8)";
      "rgba(66, 181, 239, 0.7)";
      "rgba(219, 35, 239, 0.7)";
      "rgba(234, 234, 234, 0.6)" ];
  lineWidthStart := 2.5;
  cometTailLength := 7.35;
  lineAnimationDuration := 2.8;
  explosionMaxRadiusFactor := 20;
  explosionDuration := 0.9;
  maxActiveLines := 20
|}.

Record Point : Type := {
  pt_x : Q;
  pt_y : Q;
  pt_radius : Q;
  pt_id : nat
}.

(** An instance of [AnimatedLine]. [color] is [None] when the palette lookup
    gave [undefined]. *)
Record AnimatedLine : Type := {
  p1 : Point;
  p2 : Point;
  headProgress : Q;
  tailStartProgress : Q;
  isVisible : bool;
  color : option string
}.

(** An instance of [ExplosionEffect]. *)
Record ExplosionEffect : Type := {
  ex_x : Q;
  ex_y : Q;
  ex_color : option string;
  ex_radius : Q;
  ex_opacity : Q
}.

(** A tween in flight inside gsap: the object it animates, the time it has
    run, and its duration. *)
Inductive Target : Type :=
| HeadOf (line : nat)
| BurstOf (explosion : nat).

Record Tween : Type := {
  target : Target;
  elapsed : Q;
  duration : Q
}.

(** The canvas element: its pixel size and the layout size of its parent, if
    it has one. *)
Record Canvas : Type := {
  width : Q;
  height : Q;
  parentElement : option (Q * Q)
}.

(** What reaches the 2d context: the cleared rectangle, a static point with
    its fill style, the tail of a comet (end points, the three stops of its
    gradient, line width), its head with its fill style, and the radial
    burst of an explosion with the three stops of its gradient. *)
Inductive DrawCall : Type :=
| clearRect (w h : Q)
| fillPoint (x y r : Q) (fillStyle : string)
| strokeTail (x1 y1 x2 y2 : Q) (stops : Paint * Paint * Paint) (lineWidth : Q)
| fillHead (x y r : Q) (fillStyle : Paint)
| fillBurst (x y r : Q) (stops : Paint * Paint * Paint).

(** The component instance together with the parts of its environment it
    acts on. Objects have identity: [lineObjects] and [explosionObjects] hold
    every instance ever constructed, an instance being named by its position;
    [activeLinesRef] and [activeExplosionsRef] hold references.
    [resizeListener], [ticker] and [spawnInterval] tell whether
    [handleResize] is registered on the window, whether [updateNetwork] is
    in [gsap.ticker], and whether the spawn timer is alive; [tweens] are the
    tweens gsap is running; [drawn] is what the 2d context has received. *)
Record World : Type := {
  settings : Settings;
  canvasRef : option Canvas;
  ctxRef : bool;
  pointsRef : list Point;
  lineObjects : list AnimatedLine;
  explosionObjects : list ExplosionEffect;
  activeLinesRef : list nat;
  activeExplosionsRef : list nat;
  isInitialized : bool;
  resizeListener : bool;
  ticker : bool;
  spawnInterval : bool;
  tweens : list Tween;
  drawn : list DrawCall;
  random : RNG
}.

Definition set_canvasRef (v : option Canvas) (w : World) : World :=
  {| settings := settings w; canvasRef := v; ctxRef := ctxRef w;
     pointsRef := pointsRef w; lineObjects := lineObjects w;
     explosionObjects := explosionObjects w;
     activeLinesRef := activeLinesRef w;
     activeExplosionsRef := activeExplosionsRef w;
     isInitialized := isInitialized w; resizeListener := resizeListener w;
     ticker := ticker w; spawnInterval := spawnInterval w;
     tweens := tweens w; drawn := drawn w; random := random w |}.

Definition set_ctxRef (v : bool) (w : World) : World :=
  {| settings := settings w; canvasRef := canvasRef w; ctxRef := v;
     pointsRef := pointsRef w; lineObjects := lineObjects w;
     explosionObjects := explosionObjects w;
     activeLinesRef := activeLinesRef w;
     activeExplosionsRef := activeExplosionsRef w;
     isInitialized := isInitialized w; resizeListener := resizeListener w;
     ticker := ticker w; spawnInterval := spawnInterval w;
     tweens := tweens w; drawn := drawn w; random := random w |}.

Definition set_pointsRef (v : list Point) (w : World) : World :=
  {| settings := settings w; canvasRef := canvasRef w; ctxRef := ctxRef w;
     pointsRef := v; lineObjects := lineObjects w;
     explosionObjects := explosionObjects w;
     activeLinesRef := activeLinesRef w;
     activeExplosionsRef := activeExplosionsRef w;
     isInitialized := isInitialized w; resizeListener := resizeListener w;
     ticker := ticker w; spawnInterval := spawnInterval w;
     tweens := tweens w; drawn := drawn w; random := random w |}.

Definition set_lineObjects (v : list AnimatedLine) (w : World) : World :=
  {| settings := settings w; canvasRef := canvasRef w; ctxRef := ctxRef w;
     pointsRef := pointsRef w; lineObjects := v;
     explosionObjects := explosionObjects w;
     activeLinesRef := activeLinesRef w;
     activeExplosionsRef := activeExplosionsRef w;
     isInitialized := isInitialized w; resizeListener := resizeListener w;
     ticker := ticker w; spawnInterval := spawnInterval w;
     tweens := tweens w; drawn := drawn w; random := random w |}.

Definition set_explosionObjects (v : list ExplosionEffect) (w : World) : World :=
  {| settings := settings w; canvasRef := canvasRef w; ctxRef := ctxRef w;
     pointsRef := pointsRef w; lineObjects := lineObjects w;
     explosionObjects := v; activeLinesRef := activeLinesRef w;
     activeExplosionsRef := activeExplosionsRef w;
     isInitialized := isInitialized w; resizeListener := resizeListener w;
     ticker := ticker w; spawnInterval := spawnInterval w;
     tweens := tweens w; drawn := drawn w; random := random w |}.

Definition set_activeLinesRef (v : list nat) (w : World) : World :=
  {| settings := settings w; canvasRef := canvasRef w; ctxRef := ctxRef w;
     pointsRef := pointsRef w; lineObjects := lineObjects w;
     explosionObjects := explosionObjects w; activeLinesRef := v;
     activeExplosionsRef := activeExplosionsRef w;
     isInitialized := isInitialized w; resizeListener := resizeListener w;
     ticker := ticker w; spawnInterval := spawnInterval w;
     tweens := tweens w; drawn := drawn w; random := random w |}.

Definition set_activeExplosionsRef (v : list nat) (w : World) : World :=
  {| settings := settings w; canvasRef := canvasRef w; ctxRef := ctxRef w;
     pointsRef := pointsRef w; lineObjects := lineObjects w;
     explosionObjects := explosionObjects w;
     activeLinesRef := activeLinesRef w; activeExplosionsRef := v;
     isInitialized := isInitialized w; resizeListener := resizeListener w;
     ticker := ticker w; spawnInterval := spawnInterval w;
     tweens := tweens w; drawn := drawn w; random := random w |}.

Definition set_isInitialized (v : bool) (w : World) : World :=
  {| settings := settings w; canvasRef := canvasRef w; ctxRef := ctxRef w;
     pointsRef := pointsRef w; lineObjects := lineObjects w;
     explosionObjects := explosionObjects w;
     activeLinesRef := activeLinesRef w;
     activeExplosionsRef := activeExplosionsRef w; isInitialized := v;
     resizeListener := resizeListener w; ticker := ticker w;
     spawnInterval := spawnInterval w; tweens := tweens w; drawn := drawn w;
     random := random w |}.

Definition set_resizeListener (v : bool) (w : World) : World :=
  {| settings := settings w; canvasRef := canvasRef w; ctxRef := ctxRef w;
     pointsRef := pointsRef w; lineObjects := lineObjects w;
     explosionObjects := explosionObjects w;
     activeLinesRef := activeLinesRef w;
     activeExplosionsRef := activeExplosionsRef w;
     isInitialized := isInitialized w; resizeListener := v;
     ticker := ticker w; spawnInterval := spawnInterval w;
     tweens := tweens w; drawn := drawn w; random := random w |}.

Definition set_ticker (v : bool) (w : World) : World :=
  {| settings := settings w; canvasRef := canvasRef w; ctxRef := ctxRef w;
     pointsRef := pointsRef w; lineObjects := lineObjects w;
     explosionObjects := explosionObjects w;
     activeLinesRef := activeLinesRef w;
     activeExplosionsRef := activeExplosionsRef w;
     isInitialized := isInitialized w; resizeListener := resizeListener w;
     ticker := v; spawnInterval := spawnInterval w; tweens := tweens w;
     drawn := drawn w; random := random w |}.

Definition set_spawnInterval (v : bool) (w : World) : World :=
  {| settings := settings w; canvasRef := canvasRef w; ctxRef := ctxRef w;
     pointsRef := pointsRef w; lineObjects := lineObjects w;
     explosionObjects := explosionObjects w;
     activeLinesRef := activeLinesRef w;
     activeExplosionsRef := activeExplosionsRef w;
     isInitialized := isInitialized w; resizeListener := resizeListener w;
     ticker := ticker w; spawnInterval := v; tweens := tweens w;
     drawn := drawn w; random := random w |}.

Definition set_tweens (v : list Tween) (w : World) : World :=
  {| settings := settings w; canvasRef := canvasRef w; ctxRef := ctxRef w;
     pointsRef := pointsRef w; lineObjects := lineObjects w;
     explosionObjects := explosionObjects w;
     activeLinesRef := activeLinesRef w;
     activeExplosionsRef := activeExplosionsRef w;
     isInitialized := isInitialized w; resizeListener := resizeListener w;
     ticker := ticker w; spawnInterval := spawnInterval w; tweens := v;
     drawn := drawn w; random := random w |}.

Definition set_drawn (v : list DrawCall) (w : World) : World :=
  {| settings := settings w; canvasRef := canvasRef w; ctxRef := ctxRef w;
     pointsRef := pointsRef w; lineObjects := lineObjects w;
     explosionObjects := explosionObjects w;
     activeLinesRef := activeLinesRef w;
     activeExplosionsRef := activeExplosionsRef w;
     isInitialized := isInitialized w; resizeListener := resizeListener w;
     ticker := ticker w; spawnInterval := spawnInterval w;
     tweens := tweens w; drawn := v; random := random w |}.

Definition set_random (v : RNG) (w : World) : World :=
  {| settings := settings w; canvasRef := canvasRef w; ctxRef := ctxRef w;
     pointsRef := pointsRef w; lineObjects := lineObjects w;
     explosionObjects := explosionObjects w;
     activeLinesRef := activeLinesRef w;
     activeExplosionsRef := activeExplosionsRef w;
     isInitialized := isInitialized w; resizeListener := resizeListener w;
     ticker := ticker w; spawnInterval := spawnInterval w;
     tweens := tweens w; drawn := drawn w; random := v |}.

Section WithHost.
Context (host : Host).

(** *** Helpers (lines 425-469) *)

Definition resizeCanvas (w : World) : World :=
  match canvasRef w with
  | Some canvas =>
      match parentElement canvas with
      | Some (offsetWidth, offsetHeight) =>
          set_canvasRef
            (Some {| width := inject_Z (Qfloor offsetWidth);
                     height := inject_Z (Qfloor offsetHeight);
                     parentElement := parentElement canvas |}) w
      | None => w
      end
  | None => w
  end.

(** The loop of [createPoints], for [i] from [i] up to [i + n - 1]. *)
Fixpoint pushPoints (canvas : Canvas) (n i : nat) (w : World) : World :=
  match n with
  | O => w
  | S n' =>
      let '(r1, g1) := Math_random (random w) in
      let '(r2, g2) := Math_random g1 in
      let point :=
        {| pt_x := r1 * width canvas; pt_y := r2 * height canvas;
           pt_radius := pointRadius (settings w); pt_id := i |} in
      pushPoints canvas n' (S i)
        (set_random g2 (set_pointsRef (pointsRef w ++ [point]) w))
  end.

Definition createPoints (w : World) : World :=
  match canvasRef w with
  | Some canvas =>
      pushPoints canvas (numPoints (settings w)) 0 (set_pointsRef [] w)
  | None => w
  end.

Definition getDistance (p1 p2 : option Point) : number :=
  match p1, p2 with
  | Some p1, Some p2 =>
      let dx := pt_x p1 - pt_x p2 in
      let dy := pt_y p1 - pt_y p2 in
      Fin (Math_sqrt host (dx * dx + dy * dy))
  | _, _ => Infinity
  end.

(** *** Constructors (lines 311-328 and 353-379) *)

(** [new ExplosionEffect(x, y, color)]: the instance, and the tween started
    on it by the constructor, which joins the tweens in flight as a tween of
    positive duration does. The result is the reference to the instance. *)
Definition new_ExplosionEffect (x y : Q) (c : option string) (w : World)
    : nat * World :=
  let this := length (explosionObjects w) in
  let obj :=
    {| ex_x := x; ex_y := y; ex_color := c;
       ex_radius := pointRadius (settings w); ex_opacity := 0.8 |} in
  let tw :=
    {| target := BurstOf this; elapsed := 0;
       duration := explosionDuration (settings w) |} in
  (this,
   set_tweens (tweens w ++ [tw])
     (set_explosionObjects (explosionObjects w ++ [obj]) w)).

(** [new AnimatedLine(p1, p2)]: one draw for the colour, the instance, and
    the head-progress tween started by the constructor, which joins the
    tweens in flight as a tween of positive duration does. *)
Definition new_AnimatedLine (p1 p2 : Point) (w : World) : nat * World :=
  let this := length (lineObjects w) in
  let '(i, g) := randomIndex (length (lineColors (settings w))) (random w) in
  let obj :=
    {| p1 := p1; p2 := p2; headProgress := 0; tailStartProgress := 0;
       isVisible := true; color := index (lineColors (settings w)) i |} in
  let tw :=
    {| target := HeadOf this; elapsed := 0;
       duration := lineAnimationDuration (settings w) |} in
  (this,
   set_tweens (tweens w ++ [tw])
     (set_lineObjects (lineObjects w ++ [obj]) (set_random g w))).

(** *** [spawnRandomLine] (lines 471-510) *)

Definition maxAttempts : nat := 50.
#[global] Arguments maxAttempts : simpl never.

(** The local variables of [spawnRandomLine] and the generator. [pairsDrawn]
    is not a variable of the code: it counts the times both indices have been
    drawn afresh (lines 479-480 and 492-493), for the statement of the
    attempt bound. *)
Record SearchState : Type := {
  p1Index : Z;
  p2Index : Z;
  attempts : nat;
  innerAttempts : nat;
  gen : RNG;
  pairsDrawn : nat
}.

(** The loop of lines 484-487. *)
Definition distinct1_cond (s : SearchState) : bool :=
  (p1Index s =? p2Index s)%Z && (attempts s <? maxAttempts)%nat.

Definition distinct1_body (n : nat) (s : SearchState) : option (control SearchState) :=
  let '(i, g) := randomIndex n (gen s) in
  Some (Next {| p1Index := p1Index s; p2Index := i;
                attempts := S (attempts s);
                innerAttempts := innerAttempts s;
                gen := g; pairsDrawn := pairsDrawn s |}).

(** The loop of lines 495-498. *)
Definition distinct2_cond (s : SearchState) : bool :=
  (p1Index s =? p2Index s)%Z && (innerAttempts s <? maxAttempts)%nat.

Definition distinct2_body (n : nat) (s : SearchState) : option (control SearchState) :=
  let '(i, g) := randomIndex n (gen s) in
  Some (Next {| p1Index := p1Index s; p2Index := i;
                attempts := attempts s;
                innerAttempts := S (innerAttempts s);
                gen := g; pairsDrawn := pairsDrawn s |}).

(** The loop of lines 491-504. *)
Definition retry_cond (connectDistance : Q) (points : list Point) (s : SearchState)
    : bool :=
  number_gtb
    (getDistance (index points (p1Index s)) (index points (p2Index s)))
    connectDistance
  && (attempts s <? maxAttempts)%nat.

Definition retry_body (points : list Point) (s : SearchState)
    : option (control SearchState) :=
  let n := length points in
  let '(i1, g1) := randomIndex n (gen s) in
  let '(i2, g2) := randomIndex n g1 in
  let s1 := {| p1Index := i1; p2Index := i2; attempts := attempts s;
               innerAttempts := 0; gen := g2;
               pairsDrawn := S (pairsDrawn s) |} in
  match while (S maxAttempts) distinct2_cond (distinct2_body n) s1 with
  | None => None
  | Some s2 =>
      if (p1Index s2 =? p2Index s2)%Z then
        Some (Break {| p1Index := p1Index s2; p2Index := p2Index s2;
                       attempts := maxAttempts;
                       innerAttempts := innerAttempts s2;
                       gen := gen s2; pairsDrawn := pairsDrawn s2 |})
      else
        Some (Next {| p1Index := p1Index s2; p2Index := p2Index s2;
                      attempts := S (attempts s2);
                      innerAttempts := innerAttempts s2;
                      gen := gen s2; pairsDrawn := pairsDrawn s2 |})
  end.

(** Lines 479-504: the search for a pair. The boolean tells whether the
    search ran to line 504 ([true]) or returned at line 488 ([false]); the
    outer [None] is a loop that ran out of fuel. *)
Definition search (connectDistance : Q) (points : list Point) (g : RNG)
    : option (SearchState * bool) :=
  let n := length points in
  let '(i1, g1) := randomIndex n g in
  let '(i2, g2) := randomIndex n g1 in
  let s0 := {| p1Index := i1; p2Index := i2; attempts := 0;
               innerAttempts := 0; gen := g2; pairsDrawn := 1 |} in
  match while (S maxAttempts) distinct1_cond (distinct1_body n) s0 with
  | None => None
  | Some s1 =>
      if (p1Index s1 =? p2Index s1)%Z then Some (s1, false) else
      let s1' := {| p1Index := p1Index s1; p2Index := p2Index s1;
                    attempts := 0; innerAttempts := innerAttempts s1;
                    gen := gen s1; pairsDrawn := pairsDrawn s1 |} in
      match while (S maxAttempts) (retry_cond connectDistance points)
              (retry_body points) s1' with
      | None => None
      | Some s2 => Some (s2, true)
      end
  end.

(** The test of line 506. *)
Definition qualifies (connectDistance : Q) (points : list Point) (s : SearchState)
    : bool :=
  negb (p1Index s =? p2Index s)%Z
  && number_leb
       (getDistance (index points (p1Index s)) (index points (p2Index s)))
       connectDistance.

(** Lines 507-508. The constructor receives [points[p1Index]] and
    [points[p2Index]]; when [qualifies] holds neither is [undefined]
    (lemma [qualifies_defined]), so the last branch is never taken. *)
Definition createLine (points : list Point) (s : SearchState) (w : World) : World :=
  match index points (p1Index s), index points (p2Index s) with
  | Some a, Some b =>
      let '(newLine, w') := new_AnimatedLine a b w in
      set_activeLinesRef (activeLinesRef w' ++ [newLine]) w'
  | _, _ => w
  end.

Definition spawnRandomLine (w : World) : option World :=
  let points := pointsRef w in
  let activeLines := activeLinesRef w in
  match canvasRef w with
  | None => Some w
  | Some canvas =>
      if (length points <? 2)%nat
         || (maxActiveLines (settings w) <=? length activeLines)%nat
      then Some w else
      match search (connectDistance (settings w)) points (random w) with
      | None => None
      | Some (s, false) => Some (set_random (gen s) w)
      | Some (s, true) =>
          let w1 := set_random (gen s) w in
          if qualifies (connectDistance (settings w)) points s
          then Some (createLine points s w1)
          else Some w1
      end
  end.

(** *** Drawing (lines 330-349, 381-421, 446-462, 512-523) *)

(** [this.color.replace(/, \d\.\d+\)/, text)] for a fixed text, and for the
    text [`, ${a})`] that has the number [a] in it: the first match is
    replaced, and a colour without a match is left as it is. *)
Definition replaceAlpha (color text : string) : string :=
  match firstMatch (alpha_here false) color with
  | Some (before, (_, after)) => (before +:+ text +:+ after)%string
  | None => color
  end.

Definition withAlpha (color : string) (a : Q) : Paint :=
  match firstMatch (alpha_here false) color with
  | Some (before, (_, after)) => AlphaIn before a after
  | None => Plain color
  end.

(** [AnimatedLine.draw]: the calls that paint, or [None] when reading
    [this.color] throws because the colour is [undefined]. *)
Definition drawLine (st : Settings) (l : AnimatedLine)
    : option (list DrawCall) :=
  if negb (isVisible l) then Some [] else
  if leb 1 (headProgress l) && leb (headProgress l) (tailStartProgress l)
  then Some [] else
  let dx := pt_x (p2 l) - pt_x (p1 l) in
  let dy := pt_y (p2 l) - pt_y (p1 l) in
  let headX := pt_x (p1 l) + dx * headProgress l in
  let headY := pt_y (p1 l) + dy * headProgress l in
  let tailStartX := pt_x (p1 l) + dx * tailStartProgress l in
  let tailStartY := pt_y (p1 l) + dy * tailStartProgress l in
  if ltb (Math_abs (headX - tailStartX)) 0.1
     && ltb (Math_abs (headY - tailStartY)) 0.1
     && ltb (headProgress l) 0.05
  then Some [] else
  match color l with
  | None => None
  | Some c =>
      let baseColorAlphaMatch := firstMatch (alpha_here false) c in
      let baseColorAlpha :=
        match baseColorAlphaMatch with
        | Some (_, (a, _)) => a
        | None => 0.7
        end in
      let headRadius :=
        if ltb 1 (lineWidthStart st) then lineWidthStart st / 1.5 else 1 in
      Some [ strokeTail tailStartX tailStartY headX headY
               (Plain (replaceAlpha c ", 0)"),
                withAlpha c (baseColorAlpha * 0.3),
                withAlpha c baseColorAlpha)
               (lineWidthStart st);
             fillHead headX headY headRadius
               (withAlpha c (Math_min 1 (baseColorAlpha + 0.2))) ]
  end.

(** [ExplosionEffect.draw]: the three numbers of the colour, or those of
    the fallback where the colour has no three numbers. *)
Definition drawExplosion (e : ExplosionEffect) : option (list DrawCall) :=
  if leb (ex_opacity e) 0.01 || leb (ex_radius e) 0.1 then Some [] else
  match ex_color e with
  | None => None
  | Some c =>
      let rgbColor :=
        match firstMatch rgb_here c with
        | Some (_, (r, g, b)) => (r +:+ "," +:+ g +:+ "," +:+ b)%string
        | None => "255,127,80"%string
        end in
      Some [ fillBurst (ex_x e) (ex_y e) (ex_radius e)
               (Rgba rgbColor (ex_opacity e * 0.9),
                Rgba rgbColor (ex_opacity e * 0.5),
                Plain ("rgba(" +:+ rgbColor +:+ ", 0)")%string) ]
  end.

(** The alpha [drawStaticPoints] reads out of [pointColor] (lines 447-453):
    the number of the first match; without a match, 1 for a colour that is
    not empty and has no [rgba] in it, and 0 for any other. *)
Definition pointColorAlpha (pointColor : string) : Q :=
  match firstMatch (alpha_here true) pointColor with
  | Some (_, (a, _)) => a
  | None =>
      let nonEmpty :=
        match pointColor with
        | EmptyString => false
        | String _ _ => true
        end in
      if nonEmpty && negb (includes "rgba" pointColor) then 1 else 0
  end.

Definition drawStaticPoints (st : Settings) (points : list Point)
    : list DrawCall :=
  if Qeq_bool (pointColorAlpha (pointColor st)) 0 then [] else
  map (fun point =>
         fillPoint (pt_x point) (pt_y point) (pt_radius point) (pointColor st))
      points.

(** [refs.forEach(o => o.draw(ctx))] over references into [objects]: the
    calls painted so far, and whether the traversal ran to its end rather
    than being cut short by an exception. *)
Fixpoint drawEach {A : Type} (d : A -> option (list DrawCall))
    (objects : list A) (refs : list nat) (acc : list DrawCall)
    : list DrawCall * bool :=
  match refs with
  | [] => (acc, true)
  | r :: refs' =>
      match objects !! r with
      | None => drawEach d objects refs' acc
      | Some o =>
          match d o with
          | Some calls => drawEach d objects refs' (acc ++ calls)
          | None => (acc, false)
          end
      end
  end.

Definition updateNetwork (w : World) : World :=
  match canvasRef w with
  | Some canvas =>
      if ctxRef w then
        let acc := drawn w ++ [clearRect (width canvas) (height canvas)] in
        let acc := acc ++ drawStaticPoints (settings w) (pointsRef w) in
        let '(acc, ok) :=
          drawEach (drawLine (settings w)) (lineObjects w)
            (activeLinesRef w) acc in
        if ok then
          set_drawn
            (fst (drawEach drawExplosion (explosionObjects w)
                    (activeExplosionsRef w) acc)) w
        else set_drawn acc w
      else w
  | None => w
  end.

(** *** The tweens' callbacks (lines 319-327 and 365-378) *)

(** [onUpdate] of the head-progress tween of the line [this]. *)
Definition line_onUpdate (this : nat) (w : World) : World :=
  match lineObjects w !! this with
  | Some l =>
      set_lineObjects
        (<[this :=
            {| p1 := p1 l; p2 := p2 l; headProgress := headProgress l;
               tailStartProgress :=
                 Math_max 0 (headProgress l - cometTailLength (settings w));
               isVisible := isVisible l; color := color l |}]>
           (lineObjects w)) w
  | None => w
  end.

(** [onComplete] of the head-progress tween of the line [this]. *)
Definition line_onComplete (this : nat) (w : World) : World :=
  match lineObjects w !! this with
  | Some l =>
      let l' := {| p1 := p1 l; p2 := p2 l; headProgress := headProgress l;
                   tailStartProgress := tailStartProgress l;
                   isVisible := false; color := color l |} in
      let w1 := set_lineObjects (<[this := l']> (lineObjects w)) w in
      let '(explosion, w2) :=
        new_ExplosionEffect (pt_x (p2 l')) (pt_y (p2 l')) (color l') w1 in
      let w3 :=
        set_activeExplosionsRef (activeExplosionsRef w2 ++ [explosion]) w2 in
      set_activeLinesRef
        (List.filter (fun line => negb (Nat.eqb line this))
           (activeLinesRef w3)) w3
  | None => w
  end.

(** [onComplete] of the tween of the explosion [this]. *)
Definition explosion_onComplete (this : nat) (w : World) : World :=
  set_activeExplosionsRef
    (List.filter (fun exp => negb (Nat.eqb exp this))
       (activeExplosionsRef w)) w.

(** *** The tween scheduler

    gsap advances every tween in flight by the time [dt] that has passed. A
    tween whose time reaches its duration gets its end values and its
    [onUpdate] and [onComplete] callbacks and leaves the scheduler; any other
    tween gets the eased intermediate values and its [onUpdate]. *)

Definition renderTween (dt : Q) (t : Tween) (w : World)
    : World * option Tween :=
  let time := elapsed t + dt in
  let finished := leb (duration t) time in
  let ratio := if finished then 1 else time / duration t in
  let t' := {| target := target t; elapsed := time;
               duration := duration t |} in
  match target t with
  | HeadOf this =>
      match lineObjects w !! this with
      | Some l =>
          let l' := {| p1 := p1 l; p2 := p2 l; headProgress := ratio;
                       tailStartProgress := tailStartProgress l;
                       isVisible := isVisible l; color := color l |} in
          let w1 := set_lineObjects (<[this := l']> (lineObjects w)) w in
          let w2 := line_onUpdate this w1 in
          if finished then (line_onComplete this w2, None)
          else (w2, Some t')
      | None => (w, None)
      end
  | BurstOf this =>
      match explosionObjects w !! this with
      | Some e =>
          let st := settings w in
          let k := if finished then 1 else expo_out host ratio in
          let r0 := pointRadius st in
          let r1 := pointRadius st * explosionMaxRadiusFactor st in
          let e' := {| ex_x := ex_x e; ex_y := ex_y e;
                       ex_color := ex_color e;
                       ex_radius := r0 + (r1 - r0) * k;
                       ex_opacity := 0.8 + (0 - 0.8) * k |} in
          let w1 :=
            set_explosionObjects (<[this := e']> (explosionObjects w)) w in
          if finished then (explosion_onComplete this w1, None)
          else (w1, Some t')
      | None => (w, None)
      end
  end.

(** One pass over the tweens that were in flight when the pass began; the
    tweens started by callbacks during the pass wait in [tweens w] and join
    the survivors [kept] at its end. *)
Fixpoint advance_from (dt : Q) (ts kept : list Tween) (w : World) : World :=
  match ts with
  | [] => set_tweens (kept ++ tweens w) w
  | t :: ts' =>
      let '(w', r) := renderTween dt t w in
      advance_from dt ts' (kept ++ option_list r) w'
  end.

Definition advance (dt : Q) (w : World) : World :=
  advance_from dt (tweens w) [] (set_tweens [] w).

(** *** The effect and its cleanup (lines 526-566) *)

Definition handleResize (w : World) : World :=
  createPoints
    (set_activeExplosionsRef [] (set_activeLinesRef [] (resizeCanvas w))).

Definition mount (w : World) : World :=
  if isInitialized w then w else
  match canvasRef w with
  | None => w
  | Some canvas =>
      let w := set_isInitialized true (set_ctxRef true w) in
      let w := createPoints (resizeCanvas w) in
      let w := set_resizeListener true w in
      let w := set_ticker true w in
      set_spawnInterval true w
  end.

Definition cleanup (w : World) : World :=
  let w := set_resizeListener false w in
  let w := set_ticker false w in
  let w := set_spawnInterval false w in
  let w := set_activeLinesRef [] w in
  let w := set_activeExplosionsRef [] w in
  set_isInitialized false w.

(** *** What can happen to the component

    React mounts and unmounts it; the window is resized; gsap's ticker calls
    its listeners once per frame ([Tick]), its spawn timer repeats
    ([SpawnRepeat]) and its tweens advance ([Advance]). A callback runs only
    while it is registered. [None] is a loop of [spawnRandomLine] out of
    fuel. *)
Inductive Event : Type :=
| Mount
| Unmount
| WindowResize
| Tick
| SpawnRepeat
| Advance (dt : Q).

Definition handle (e : Event) (w : World) : option World :=
  match e with
  | Mount => Some (mount w)
  | Unmount => Some (if isInitialized w then cleanup w else w)
  | WindowResize => Some (if resizeListener w then handleResize w else w)
  | Tick => Some (if ticker w then updateNetwork w else w)
  | SpawnRepeat => if spawnInterval w then spawnRandomLine w else Some w
  | Advance dt => Some (advance dt w)
  end.

Fixpoint run (es : list Event) (w : World) : option World :=
  match es with
  | [] => Some w
  | e :: es' =>
      match handle e w with
      | Some w' => run es' w'
      | None => None
      end
  end.

(** *** Bounds

    No more than [maxActiveLines] lines are active, and every line ever
    constructed joins two points whose [getDistance] is at most
    [connectDistance]. *)
Definition within_bounds (w : World) : Prop :=
  (length (activeLinesRef w) <= maxActiveLines (settings w))%nat
  /\ Forall (fun l =>
               number_leb (getDistance (Some (p1 l)) (Some (p2 l)))
                 (connectDistance (settings w)) = true)
       (lineObjects w).

End WithHost.
End Network.

(** ** Concrete inputs *)

Module Examples.
Import JS Dom Gsap.

(** A generator that returns [r] for ever. *)
Definition constant (r : Q) : RNG := mkRNG (fun _ => r) 0.

(** A title of two letters mounted by the hook, with their parameters. *)
Definition twoLetters : FallingLetters.World := {|
  FallingLetters.titleRef :=
    Some [Element ["letter"] [Text "A"]; Element ["letter"] [Text "B"]];
  FallingLetters.containerRef := Some 0%nat;
  FallingLetters.lettersRef := [[0%nat]; [1%nat]];
  FallingLetters.scrollTriggerRef := None;
  FallingLetters.entranceTimelineRef := None;
  FallingLetters.tweens := [];
  FallingLetters.triggers := [];
  FallingLetters.random := constant 0.5
|}.

Definition twoParams : list FallingLetters.LetterParams :=
  [ {| FallingLetters.randomY := 300; FallingLetters.randomX := 75;
       FallingLetters.randomRotation := 60;
       FallingLetters.randomDelayFactor := 0 |};
    {| FallingLetters.randomY := 500; FallingLetters.randomX := -75;
       FallingLetters.randomRotation := -60;
       FallingLetters.randomDelayFactor := 0.6 |} ].

(** A heading whose text is a single space, before the hook has run. *)
Definition blankTitle : FallingLetters.World := {|
  FallingLetters.titleRef := Some [Text " "];
  FallingLetters.containerRef := Some 0%nat;
  FallingLetters.lettersRef := [];
  FallingLetters.scrollTriggerRef := None;
  FallingLetters.entranceTimelineRef := None;
  FallingLetters.tweens := [];
  FallingLetters.triggers := [];
  FallingLetters.random := constant 0.5
|}.

(** The scroll handler of the component [Hero] with one letter; the
    generator returns 0.25 first and 0.75 from then on. *)
Definition oneLetterScroll : Hero.ScrollWorld := {|
  Hero.innerHeight := 800;
  Hero.letters := [[0%nat]];
  Hero.tweens := [];
  Hero.random := mkRNG (fun k => if Nat.eqb k 0 then 0.25 else 0.75) 0
|}.

(** Two explosions of the component [Hero]: the first was constructed
    twenty-four frames ago, so that its particles are on their last frame;
    the second has just been constructed. *)
Definition dying : Hero.Explosion :=
  Nat.iter 24 Hero.update
    (Hero.new_Explosion 10 700 "255, 109, 90" (constant 0.75)).1.

Definition fresh : Hero.Explosion :=
  (Hero.new_Explosion 20 700 "66, 181, 239" (constant 0.25)).1.

Definition twoExplosions : Hero.Frame := {|
  Hero.explosions := [dying; fresh];
  Hero.canvas := []
|}.

(** A host for the examples: a square root that is exact on perfect squares
    and rounds down to an integer elsewhere, and a quadratic ease-out. *)
Definition exampleHost : Network.Host := {|
  Network.Math_sqrt := fun q => inject_Z (Z.sqrt (Qfloor q));
  Network.expo_out := fun t => t * (2 - t)
|}.

(** The default settings with [numPoints] set to [n]. *)
Definition withPoints (n : nat) : Network.Settings := {|
  Network.numPoints := n;
  Network.pointRadius := Network.pointRadius Network.defaultSettings;
  Network.pointColor := Network.pointColor Network.defaultSettings;
  Network.connectDistance := Network.connectDistance Network.defaultSettings;
  Network.lineColors := Network.lineColors Network.defaultSettings;
  Network.lineWidthStart := Network.lineWidthStart Network.defaultSettings;
  Network.cometTailLength := Network.cometTailLength Network.defaultSettings;
  Network.lineAnimationDuration :=
    Network.lineAnimationDuration Network.defaultSettings;
  Network.explosionMaxRadiusFactor :=
    Network.explosionMaxRadiusFactor Network.defaultSettings;
  Network.explosionDuration := Network.explosionDuration Network.defaultSettings;
  Network.maxActiveLines := Network.maxActiveLines Network.defaultSettings
|}.

Definition pointAt (x y : Q) (i : nat) : Network.Point :=
  {| Network.pt_x := x; Network.pt_y := y; Network.pt_radius := 1.5;
     Network.pt_id := i |}.

(** A running network of three points: the first is 1000 pixels away from
    the other two, which are 3 pixels apart. The generator picks the first
    and the second point fifty times, then the second and the third. *)
Definition lateDraws (k : nat) : Q :=
  if (k <? 100)%nat then (if Nat.even k then 0 else 1 # 3)
  else if (k =? 100)%nat then 1 # 3 else 2 # 3.

Definition lateWorld : Network.World := {|
  Network.settings := withPoints 3;
  Network.canvasRef :=
    Some {| Network.width := 1000; Network.height := 600;
            Network.parentElement := Some (1000, 600) |};
  Network.ctxRef := true;
  Network.pointsRef := [pointAt 0 0 0; pointAt 1000 0 1; pointAt 1000 3 2];
  Network.lineObjects := [];
  Network.explosionObjects := [];
  Network.activeLinesRef := [];
  Network.activeExplosionsRef := [];
  Network.isInitialized := true;
  Network.resizeListener := true;
  Network.ticker := true;
  Network.spawnInterval := true;
  Network.tweens := [];
  Network.drawn := [];
  Network.random := mkRNG lateDraws 0
|}.

(** A network of two points before its effect has run. The generator places
    the points at (0, 0) and (300, 240), then picks them in this order, then
    picks the third colour of the palette. *)
Definition mountDraws (k : nat) : Q :=
  match k with
  | 2%nat => 0.3
  | 3%nat => 0.4
  | 5%nat => 0.5
  | 6%nat => 0.5
  | _ => 0
  end.

Definition unmounted : Network.World := {|
  Network.settings := withPoints 2;
  Network.canvasRef :=
    Some {| Network.width := 300; Network.height := 150;
            Network.parentElement := Some (1000, 600) |};
  Network.ctxRef := false;
  Network.pointsRef := [];
  Network.lineObjects := [];
  Network.explosionObjects := [];
  Network.activeLinesRef := [];
  Network.activeExplosionsRef := [];
  Network.isInitialized := false;
  Network.resizeListener := false;
  Network.ticker := false;
  Network.spawnInterval := false;
  Network.tweens := [];
  Network.drawn := [];
  Network.random := mkRNG mountDraws 0
|}.

(** A running network of two points with one comet on its way from the
    first to the second. *)
Definition flyingLine : Network.AnimatedLine := {|
  Network.p1 := pointAt 0 0 0;
  Network.p2 := pointAt 300 240 1;
  Network.headProgress := 0;
  Network.tailStartProgress := 0;
  Network.isVisible := true;
  Network.color := Some "rgba(219, 35, 239, 0.7)"%string
|}.

Definition flyingTween : Network.Tween :=
  {| Network.target := Network.HeadOf 0; Network.elapsed := 0;
     Network.duration := 2.8 |}.

Definition flying : Network.World := {|
  Network.settings := withPoints 2;
  Network.canvasRef :=
    Some {| Network.width := 1000; Network.height := 600;
            Network.parentElement := Some (1000, 600) |};
  Network.ctxRef := true;
  Network.pointsRef := [pointAt 0 0 0; pointAt 300 240 1];
  Network.lineObjects := [flyingLine];
  Network.explosionObjects := [];
  Network.activeLinesRef := [0%nat];
  Network.activeExplosionsRef := [];
  Network.isInitialized := true;
  Network.resizeListener := true;
  Network.ticker := true;
  Network.spawnInterval := true;
  Network.tweens := [flyingTween];
  Network.drawn := [];
  Network.random := constant 0
|}.

End Examples.

(** ** Properties of worlds, for the statements below *)

Module Props.
Import JS.

(** [Math.random] returns numbers of the interval [0, 1). *)
Definition unit_interval (g : RNG) : Prop :=
  forall k : nat, 0 <= draws g k /\ draws g k < 1.

Section NetworkProps.
Import Network.

(** The kinds of calls [updateNetwork] makes. *)
Definition is_point (c : DrawCall) : bool :=
  match c with
  | fillPoint _ _ _ _ => true
  | _ => false
  end.

Definition is_comet (c : DrawCall) : bool :=
  match c with
  | strokeTail _ _ _ _ _ _ => true
  | fillHead _ _ _ _ => true
  | _ => false
  end.


(** The cleanup has run and the effect has not run since. *)
Definition unmounted (w : World) : Prop :=
  isInitialized w = false /\ resizeListener w = false
  /\ ticker w = false /\ spawnInterval w = false.

(** A network that has never had two points to join. *)
Definition barren (w : World) : Prop :=
  (numPoints (settings w) < 2)%nat /\ (length (pointsRef w) < 2)%nat
  /\ lineObjects w = [] /\ explosionObjects w = []
  /\ activeLinesRef w = [] /\ activeExplosionsRef w = []
  /\ tweens w = [].

(** The head of a line is between 0 and 1 and its tail start is where
    [onUpdate] puts it. *)
Definition in_step (tailLength : Q) (l : AnimatedLine) : Prop :=
  0 <= headProgress l /\ headProgress l <= 1
  /\ tailStartProgress l = Math_max 0 (headProgress l - tailLength).

(** Every line is in step and no tween has run for a negative time. *)
Definition steady (w : World) : Prop :=
  Forall (in_step (cometTailLength (settings w))) (lineObjects w)
  /\ Forall (fun t => 0 <= elapsed t) (tweens w).

(** Time does not run backwards. *)
Definition forward (e : Event) : Prop :=
  match e with
  | Advance dt => 0 <= dt
  | _ => True
  end.


(** The generator of a search state is the generator [g0] further on in its
    stream, and both indices denote points if [g0] is a proper generator and
    there are [n > 0] points. *)
Definition search_valid (n : nat) (g0 : RNG) (t : SearchState) : Prop :=
  draws (gen t) = draws g0
  /\ (unit_interval g0 -> (0 < n)%nat ->
      (0 <= p1Index t < Z.of_nat n)%Z /\ (0 <= p2Index t < Z.of_nat n)%Z).

End NetworkProps.

End Props.

(** ** What [updateNetwork] paints when nothing throws *)

Module Painting.
Import Network.


End Painting.

(** ** Ranges of the hook's letter parameters *)

Module LetterProps.
Import JS Dom FallingLetters.

(** The parameters of a letter lie where the options of the hook put
    them. *)
Definition within_options (o : Options) (p : LetterParams) : Prop :=
  (fallDistance o <= randomY p /\ randomY p < fallDistance o + 200)
  /\ (- (maxHorizontalDrift o * 0.5) <= randomX p
      /\ randomX p <= maxHorizontalDrift o * 0.5)
  /\ (- (maxRotation o * 0.5) <= randomRotation p
      /\ randomRotation p <= maxRotation o * 0.5)
  /\ (0 <= randomDelayFactor p /\ randomDelayFactor p < 0.6).

(** The text of a title that has been wrapped: what the HTML parser has
    made of the characters of the text, each in its span. Carriage returns
    have become line feeds and U+0000 is gone. *)
Fixpoint parsedText (text : string) : string :=
  match text with
  | EmptyString => EmptyString
  | String char text' =>
      if Ascii.eqb char "000"%char then parsedText text'
      else String (if Ascii.eqb char "013"%char then "010"%char else char)
             (parsedText text')
  end.

(** A character the parser does not pass on as it is. *)
Definition rewritten (char : ascii) : Prop :=
  char = "000"%char \/ char = "013"%char.

End LetterProps.

(** ** The stars and comets of the component [Hero] (lines 72-158) *)

Module HeroCanvas.
Import JS.

(** [Math.cos], [Math.sin] and [Math.PI] of the host. *)
Record Trig : Type := {
  Math_cos : Q -> Q;
  Math_sin : Q -> Q;
  Math_PI : Q
}.

(** *** Stars (lines 73-92) *)

Record Star : Type := {
  s_x : Q;
  s_y : Q;
  s_size : Q;
  alpha : Q;
  fade : Q
}.

(** [Star.reset], which is all the constructor does: five draws, in the
    order of the assignments. [width] and [height] are the variables set by
    [resize]. *)
Definition Star_reset (width height : Q) (g : RNG) : Star * RNG :=
  let '(r1, g1) := Math_random g in
  let '(r2, g2) := Math_random g1 in
  let '(r3, g3) := Math_random g2 in
  let '(r4, g4) := Math_random g3 in
  let '(r5, g5) := Math_random g4 in
  ({| s_x := r1 * width; s_y := r2 * height; s_size := r3 * 1.5;
      alpha := r4 * 0.5 + 0.1; fade := r5 * 0.01 + 0.005 |}, g5).

(** [Star.update] *)
Definition Star_update (s : Star) : Star :=
  let alpha' := alpha s + fade s in
  {| s_x := s_x s; s_y := s_y s; s_size := s_size s;
     alpha := alpha';
     fade := if leb 1 alpha' || leb alpha' 0.1 then - fade s else fade s |}.

(** What [Star.draw] puts on the canvas: a filled disc; the colour depends
    on the theme read from the document. *)
Inductive StarCall : Type :=
| fillDisc (color : string) (alpha : Q) (x y radius : Q).

Definition Star_draw (isDarkTheme : bool) (s : Star) : StarCall :=
  let color := if isDarkTheme then "255, 255, 255"%string
               else "15, 23, 42"%string in
  fillDisc color (alpha s) (s_x s) (s_y s) (s_size s).

(** *** Comets (lines 117-158) *)

Inductive CometState : Type :=
| state_in
| state_fly.

Record Comet : Type := {
  c_x : Q;
  c_y : Q;
  angle : Q;
  speed : Q;
  c_length : Q;
  colorVal : option string;
  opacity : Q;
  state : CometState
}.

(** [settings.colors] *)
Definition colors : list string :=
  ["255, 109, 90"; "66, 181, 239"; "219, 35, 239"; "255, 255, 255"]%string.

(** A value that is a string or [undefined], as a template literal prints
    it: the colour of a comet is only ever used inside [rgba(...)]
    literals. *)
Definition printed (c : option string) : string :=
  default "undefined"%string c.

(** The stroke of [Comet.draw]: a line from the head to the tail with a
    gradient from [rgba(color, opacity)] to [rgba(color, 0)]. *)
Inductive CometCall : Type :=
| strokeComet (color : string) (headAlpha : Q) (x y tailX tailY : Q).

Section WithTrig.
Context (trig : Trig).

(** [Comet.reset], which is all the constructor does: six draws. *)
Definition Comet_reset (width height : Q) (g : RNG) : Comet * RNG :=
  let '(r1, g1) := Math_random g in
  let '(r2, g2) := Math_random g1 in
  let '(r3, g3) := Math_random g2 in
  let '(r4, g4) := Math_random g3 in
  let '(r5, g5) := Math_random g4 in
  let '(i, g6) := randomIndex (length colors) g5 in
  ({| c_x := r1 * width;
      c_y := r2 * - height;
      angle := Math_PI trig / 4 + (r3 - 0.5) * 1.0;
      speed := r4 * 3 + 2;
      c_length := r5 * 80 + 40;
      colorVal := index colors i;
      opacity := 0;
      state := state_in |}, g6).

(** [Comet.update]: the comet after the call, the explosions pushed onto
    [explosions] by it, and the generator. *)
Definition Comet_update (width height : Q) (c : Comet) (g : RNG)
    : Comet * list Hero.Explosion * RNG :=
  let x := c_x c + Math_cos trig (angle c) * speed c in
  let y := c_y c + Math_sin trig (angle c) * speed c in
  let '(opacity', state') :=
    match state c with
    | state_in =>
        let opacity' := opacity c + 0.05 in
        (opacity', if leb 1 opacity' then state_fly else state_in)
    | state_fly => (opacity c, state_fly)
    end in
  if ltb height y || ltb width x || ltb x 0 then
    let '(pushed, g1) :=
      if ltb (height - 100) y && ltb y (height + 10) then
        let '(e, g') := Hero.new_Explosion x y (printed (colorVal c)) g in
        ([e], g')
      else ([], g) in
    let '(c', g2) := Comet_reset width height g1 in
    (c', pushed, g2)
  else
    ({| c_x := x; c_y := y; angle := angle c; speed := speed c;
        c_length := c_length c; colorVal := colorVal c;
        opacity := opacity'; state := state' |}, [], g).

(** [Comet.draw] *)
Definition Comet_draw (c : Comet) : CometCall :=
  let tailX := c_x c - Math_cos trig (angle c) * c_length c in
  let tailY := c_y c - Math_sin trig (angle c) * c_length c in
  strokeComet (printed (colorVal c)) (opacity c) (c_x c) (c_y c) tailX tailY.

End WithTrig.

(** The opacity of a comet is that of its state: it rises below 1 while the
    comet fades in, and it stays where it first reached 1 afterwards. *)
Definition faded_in (c : Comet) : Prop :=
  match state c with
  | state_in => 0 <= opacity c /\ opacity c < 1
  | state_fly => 1 <= opacity c /\ opacity c < 1.05
  end.

(** The position is off the canvas: below its bottom edge, or beyond its
    right or its left edge. *)
Definition off_canvas (width height x y : Q) : Prop :=
  height < y \/ width < x \/ x < 0.

(** An explosion pushed by a comet lies in the band at the bottom edge:
    less than 100 pixels above [height] and less than 10 below. *)
Definition in_band (height : Q) (e : Hero.Explosion) : Prop :=
  height - 100 < Hero.e_y e /\ Hero.e_y e < height + 10.

(** The [life] of a particle of an explosion after [n] updates. *)
Definition life_after (n : nat) : Q := 1 - 0.04 * inject_Z (Z.of_nat n).

End HeroCanvas.

(** ** Further examples *)

Module MoreExamples.
Import JS Dom Gsap Examples.

(** A running network with a single point. *)
Definition lonely : Network.World := {|
  Network.settings := withPoints 1;
  Network.canvasRef :=
    Some {| Network.width := 1000; Network.height := 600;
            Network.parentElement := Some (1000, 600) |};
  Network.ctxRef := true;
  Network.pointsRef := [pointAt 5 5 0];
  Network.lineObjects := [];
  Network.explosionObjects := [];
  Network.activeLinesRef := [];
  Network.activeExplosionsRef := [];
  Network.isInitialized := true;
  Network.resizeListener := true;
  Network.ticker := true;
  Network.spawnInterval := true;
  Network.tweens := [];
  Network.drawn := [];
  Network.random := constant 0.5
|}.

(** A running network of two points, 384 pixels apart, that has no line
    yet. The generator picks the first point, then the second, then the
    third colour of the palette. *)
Definition ready : Network.World := {|
  Network.settings := withPoints 2;
  Network.canvasRef :=
    Some {| Network.width := 1000; Network.height := 600;
            Network.parentElement := Some (1000, 600) |};
  Network.ctxRef := true;
  Network.pointsRef := [pointAt 0 0 0; pointAt 300 240 1];
  Network.lineObjects := [];
  Network.explosionObjects := [];
  Network.activeLinesRef := [];
  Network.activeExplosionsRef := [];
  Network.isInitialized := true;
  Network.resizeListener := true;
  Network.ticker := true;
  Network.spawnInterval := true;
  Network.tweens := [];
  Network.drawn := [];
  Network.random := mkRNG mountDraws 4
|}.

(** What happens to [flying] in the examples: a frame, a tick of the spawn
    timer, a resize, three seconds of the scheduler, another frame. *)
Definition busy : list Network.Event :=
  [Network.Tick; Network.SpawnRepeat; Network.WindowResize;
   Network.Advance 3; Network.Tick].

(** The default settings with two points and with a point colour whose
    alpha is 0.5, so that the static points are painted. *)
Definition paintedPoints : Network.Settings := {|
  Network.numPoints := 2;
  Network.pointRadius := Network.pointRadius Network.defaultSettings;
  Network.pointColor := "rgba(133, 141, 148, 0.5)";
  Network.connectDistance := Network.connectDistance Network.defaultSettings;
  Network.lineColors := Network.lineColors Network.defaultSettings;
  Network.lineWidthStart := Network.lineWidthStart Network.defaultSettings;
  Network.cometTailLength := Network.cometTailLength Network.defaultSettings;
  Network.lineAnimationDuration :=
    Network.lineAnimationDuration Network.defaultSettings;
  Network.explosionMaxRadiusFactor :=
    Network.explosionMaxRadiusFactor Network.defaultSettings;
  Network.explosionDuration := Network.explosionDuration Network.defaultSettings;
  Network.maxActiveLines := Network.maxActiveLines Network.defaultSettings
|}.

(** A running network with these settings on a canvas that has not yet the
    size of its parent. After a resize the generator places the points at
    (100, 120) and (300, 240), then picks them in this order, then picks the
    third colour of the palette. *)
Definition stageDraws (k : nat) : Q :=
  match k with
  | 0%nat => 0.1
  | 1%nat => 0.2
  | 2%nat => 0.3
  | 3%nat => 0.4
  | 5%nat => 0.5
  | 6%nat => 0.5
  | _ => 0
  end.

Definition stage : Network.World := {|
  Network.settings := paintedPoints;
  Network.canvasRef :=
    Some {| Network.width := 300; Network.height := 150;
            Network.parentElement := Some (1000, 600) |};
  Network.ctxRef := true;
  Network.pointsRef := [];
  Network.lineObjects := [];
  Network.explosionObjects := [];
  Network.activeLinesRef := [];
  Network.activeExplosionsRef := [];
  Network.isInitialized := true;
  Network.resizeListener := true;
  Network.ticker := true;
  Network.spawnInterval := true;
  Network.tweens := [];
  Network.drawn := [];
  Network.random := mkRNG stageDraws 0
|}.

(** What happens to [stage]: a resize of the window, a tick of the spawn
    timer, a second of flight and a frame; the world [stage] has become by
    then; and what the next frame paints. *)
Definition staging : list Network.Event :=
  [Network.WindowResize; Network.SpawnRepeat; Network.Advance 1;
   Network.Tick].

Definition staged : Network.World :=
  Eval vm_compute in
    match Network.run exampleHost staging stage with
    | Some w => w
    | None => stage
    end.

Definition stagedFrame : list Network.DrawCall :=
  Eval vm_compute in
    drop (length (Network.drawn staged))
      (Network.drawn (Network.updateNetwork staged)).

(** The parameters of a letter that starts to fall late. *)
Definition lateLetter : FallingLetters.LetterParams :=
  {| FallingLetters.randomY := 500; FallingLetters.randomX := -75;
     FallingLetters.randomRotation := -60;
     FallingLetters.randomDelayFactor := 0.6 |}.

(** Rational stand-ins for the trigonometry of the host: the first terms of
    the series of cosine and sine, and 355/113. *)
Definition exampleTrig : HeroCanvas.Trig := {|
  HeroCanvas.Math_cos := fun a => 1 - a * a / 2;
  HeroCanvas.Math_sin := fun a => a - a * a * a / 6;
  HeroCanvas.Math_PI := 355 # 113
|}.

(** A comet in full flight, two pixels above the bottom edge of a canvas
    800 pixels wide and 600 high. *)
Definition landing : HeroCanvas.Comet := {|
  HeroCanvas.c_x := 100;
  HeroCanvas.c_y := 598;
  HeroCanvas.angle := 355 # 452;
  HeroCanvas.speed := 5;
  HeroCanvas.c_length := 60;
  HeroCanvas.colorVal := Some "66, 181, 239"%string;
  HeroCanvas.opacity := 1;
  HeroCanvas.state := HeroCanvas.state_fly
|}.

End MoreExamples.

(** ** What is painted where *)

Module Framing.
Import JS Network Props.

(** The position lies on the canvas. *)
Definition on_canvas (canvas : Canvas) (x y : Q) : Prop :=
  (0 <= x /\ x <= width canvas) /\ (0 <= y /\ y <= height canvas).

(** A static point, and both ends of the tail and the head of a comet, are
    painted on the canvas. Nothing is said of the other calls. *)
Definition call_on_canvas (canvas : Canvas) (c : DrawCall) : Prop :=
  match c with
  | fillPoint x y _ _ => on_canvas canvas x y
  | strokeTail x1 y1 x2 y2 _ _ =>
      on_canvas canvas x1 y1 /\ on_canvas canvas x2 y2
  | fillHead x y _ _ => on_canvas canvas x y
  | _ => True
  end.

(** Both points of the line lie on the canvas. *)
Definition line_on_canvas (canvas : Canvas) (l : AnimatedLine) : Prop :=
  on_canvas canvas (pt_x (p1 l)) (pt_y (p1 l))
  /\ on_canvas canvas (pt_x (p2 l)) (pt_y (p2 l)).

(** The generator is a proper one; a component that is not set up has no
    active line, no resize listener and no spawn timer; the canvas and its
    parent have sizes that are not negative, and the points of the cloud and
    of every active line lie on the canvas. *)
Definition framed (w : World) : Prop :=
  unit_interval (random w)
  /\ (isInitialized w = false ->
      activeLinesRef w = [] /\ resizeListener w = false
      /\ spawnInterval w = false)
  /\ match canvasRef w with
     | None => True
     | Some canvas =>
         (0 <= width canvas /\ 0 <= height canvas)
         /\ match parentElement canvas with
            | Some (offsetWidth, offsetHeight) =>
                0 <= offsetWidth /\ 0 <= offsetHeight
            | None => True
            end
         /\ Forall (fun p => on_canvas canvas (pt_x p) (pt_y p)) (pointsRef w)
         /\ Forall (fun r => forall l, lineObjects w !! r = Some l ->
                                       line_on_canvas canvas l)
              (activeLinesRef w)
     end.

End Framing.

(** * Verification *)

(** ** JavaScript primitives *)

Section JSFacts.
Import JS.

Lemma Math_max_spec (a b : Q) :
  (a < b /\ Math_max a b = b) \/ (b <= a /\ Math_max a b = a).
Proof. unfold Math_max. destruct (Qlt_le_dec a b); auto. Qed.

Lemma Math_min_spec (a b : Q) :
  (b < a /\ Math_min a b = b) \/ (a <= b /\ Math_min a b = a).
Proof. unfold Math_min. destruct (Qlt_le_dec b a); auto. Qed.

Lemma ltb_true (a b : Q) : ltb a b = true <-> a < b.
Proof.
  unfold ltb. destruct (Qlt_le_dec a b); split; try done.
  intros H. lra.
Qed.

Lemma leb_true (a b : Q) : leb a b = true <-> a <= b.
Proof.
  unfold leb. destruct (Qlt_le_dec b a); split; try done.
  intros H. lra.
Qed.

(** A loop whose body lowers a measure ends before fuel larger than the
    measure is used up. *)
Lemma while_terminates {S : Type} (m : S -> nat) (cond : S -> bool)
    (body : S -> option (control S)) :
  (forall s, cond s = true ->
     exists c, body s = Some c /\ forall s', c = Next s' -> (m s' < m s)%nat) ->
  forall fuel s, (m s < fuel)%nat -> exists s', while fuel cond body s = Some s'.
Proof.
  intros Hbody fuel. induction fuel as [|fuel IH]; intros s Hm; [lia|].
  simpl. destruct (cond s) eqn:Hc; [|eauto].
  destruct (Hbody s Hc) as (c & -> & Hdec).
  destruct c as [s'|s']; [|eauto].
  apply IH. specialize (Hdec s' eq_refl). lia.
Qed.

(** An invariant kept by the body holds when the loop exits, where the
    condition has failed unless the body broke out. *)
Lemma while_invariant {S : Type} (I : S -> Prop) (cond : S -> bool)
    (body : S -> option (control S)) :
  (forall s c, I s -> cond s = true -> body s = Some c ->
     match c with Next s' => I s' | Break s' => I s' end) ->
  forall fuel s s', I s -> while fuel cond body s = Some s' -> I s'.
Proof.
  intros Hbody fuel. induction fuel as [|fuel IH]; intros s s' HI; [done|].
  simpl. destruct (cond s) eqn:Hc; [|congruence].
  destruct (body s) as [[s1|s1]|] eqn:Hb; [| |done].
  - intros H. eapply IH; [|exact H]. exact (Hbody s _ HI Hc Hb).
  - intros [= <-]. exact (Hbody s _ HI Hc Hb).
Qed.

End JSFacts.

(** ** The hook [useFallingLetters] *)

Section FallingLettersFacts.
Import JS Dom Gsap FallingLetters.

Lemma letterFallProgress_range (p : Q) (params : LetterParams) :
  0 <= letterFallProgress p params <= 1.
Proof.
  unfold letterFallProgress.
  set (v := (p - randomDelayFactor params * 0.3) / 2.4).
  destruct (Math_max_spec 0 v) as [[? ->]|[? ->]];
    [destruct (Math_min_spec 1 v) as [[? ->]|[? ->]]
    |destruct (Math_min_spec 1 0) as [[? ->]|[? ->]]]; lra.
Qed.

Lemma letterFallProgress_clamp (p : Q) (params : LetterParams) :
  letterFallProgress p params
  == clamp ((p - randomDelayFactor params * 0.3) / 2.4) 0 1.
Proof.
  unfold letterFallProgress, clamp.
  set (v := (p - randomDelayFactor params * 0.3) / 2.4).
  destruct (Qlt_le_dec v 0) as [Hlo|Hlo].
  - destruct (Math_max_spec 0 v) as [[? ->]|[? ->]]; [lra|].
    destruct (Math_min_spec 1 0) as [[? ->]|[? ->]]; lra.
  - destruct (Math_max_spec 0 v) as [[? ->]|[? ->]].
    + destruct (Qlt_le_dec 1 v);
        destruct (Math_min_spec 1 v) as [[? ->]|[? ->]]; lra.
    + assert (v == 0) as Hv by lra.
      destruct (Qlt_le_dec 1 v); [lra|].
      destruct (Math_min_spec 1 0) as [[? ->]|[? ->]]; lra.
Qed.

(** What [fallVars] sends is the state of the specification. *)
Lemma fallVars_state (p : Q) (params : LetterParams) :
  let vars := fallVars p params in
  (v_y vars, v_x vars, v_rotation vars, v_opacity vars)
  = fallState (letterFallProgress p params) params.
Proof. reflexivity. Qed.

Lemma onUpdate_from_spec (letterParams : list LetterParams) (p : Q)
    (letters : list path) :
  forall (i : nat) (w : World),
    (i + length letters <= length letterParams)%nat ->
    onUpdate_from letterParams p i letters w
    = Some (set_tweens
              (tweens w
               ++ zip_with (fun letter params =>
                              (gsap_to [letter] (fallVars p params), false))
                    letters (drop i letterParams)) w).
Proof.
  induction letters as [|letter letters IH]; intros i w Hlen; simpl.
  - rewrite app_nil_r. by destruct w.
  - simpl in Hlen.
    destruct (letterParams !! i) as [params|] eqn:Hi;
      [|apply lookup_ge_None in Hi; lia].
    rewrite IH by lia. f_equal.
    rewrite (drop_S _ _ _ Hi). simpl.
    unfold call_gsap, set_tweens; simpl.
    by rewrite <- app_assoc.
Qed.

Lemma applied_set_tweens (w : World) (new : list (GsapCall * bool)) :
  applied (length (tweens w)) (set_tweens (tweens w ++ new) w) = map fst new.
Proof. unfold applied; simpl. by rewrite drop_app_length. Qed.

Lemma onUpdate_spec (letterParams : list LetterParams) (p : Q) (w : World) :
  length letterParams = length (lettersRef w) ->
  exists w', onUpdate letterParams p w = Some w'
    /\ lettersRef w' = lettersRef w
    /\ random w' = random w
    /\ triggers w' = triggers w
    /\ applied (length (tweens w)) w'
       = zip_with (fun letter params => gsap_to [letter] (fallVars p params))
           (lettersRef w) letterParams.
Proof.
  intros Hlen. unfold onUpdate.
  rewrite onUpdate_from_spec by (simpl; lia).
  eexists; split; [reflexivity|]. repeat split.
  rewrite applied_set_tweens. rewrite drop_0.
  generalize (lettersRef w). clear.
  intros letters. revert letterParams.
  induction letters as [|l ls IH]; intros [|q qs]; simpl; try done.
  by rewrite IH.
Qed.

(** C5. For every scroll progress [p], below 0 and above 1 included, a
    scroll update succeeds and sends each letter [i] the call
    [gsap.to(letter_i, fallVars p params_i)]; for every letter parameters the
    fall progress [f] equals [clamp((p - delayFactor * 0.3) / 2.4, 0, 1)],
    lies in [0, 1], and the state sent is
    [{y: f * randomY, x: f * randomX, rotation: f * randomRotation,
    opacity: 1 - f}]. *)
Theorem scroll_update_applies_clamped_fall
    (letterParams : list LetterParams) (p : Q) (w : World) :
  length letterParams = length (lettersRef w) ->
  (exists w', onUpdate letterParams p w = Some w'
     /\ applied (length (tweens w)) w'
        = zip_with (fun letter params => gsap_to [letter] (fallVars p params))
            (lettersRef w) letterParams)
  /\ forall params : LetterParams,
       let f := letterFallProgress p params in
       let vars := fallVars p params in
       f == clamp ((p - randomDelayFactor params * 0.3) / 2.4) 0 1
       /\ 0 <= f <= 1
       /\ (v_y vars, v_x vars, v_rotation vars, v_opacity vars)
          = fallState f params.
Proof.
  intros Hlen. split.
  - destruct (onUpdate_spec letterParams p w Hlen) as (w' & H & _ & _ & _ & Ha).
    eauto.
  - intros params f vars. split; [apply letterFallProgress_clamp|].
    split; [apply letterFallProgress_range|reflexivity].
Qed.

(** The handlers of a [ScrollTrigger] instance draw no random number and
    leave the instance's [letterParams] and the letters alone. *)
Lemma deliver_keeps_parameters (k : nat) (e : ScrollEvent) (w w' : World) :
  deliver k e w = Some w' ->
  triggers w' = triggers w /\ random w' = random w
  /\ lettersRef w' = lettersRef w.
Proof.
  unfold deliver. destruct (triggers w !! k) as [inst|]; [|by intros [= <-]].
  destruct (st_killed inst); [by intros [= <-]|].
  destruct e as [p| |]; [|by intros [= <-]..].
  unfold onUpdate.
  assert (forall letters i w0,
    onUpdate_from (st_letterParams inst) p i letters w0 = Some w' ->
    triggers w' = triggers w0 /\ random w' = random w0
    /\ lettersRef w' = lettersRef w0) as Hgen.
  { induction letters as [|l ls IH]; intros i w0; simpl.
    - by intros [= <-].
    - destruct (st_letterParams inst !! i); [|done].
      intros H. apply IH in H. exact H. }
  apply Hgen.
Qed.

(** In the hook, two scroll updates that see the same progress send the
    same calls, whatever happened to the generator and to gsap between
    them. *)
Lemma hook_update_deterministic (letterParams : list LetterParams) (p : Q)
    (w1 w2 : World) :
  lettersRef w1 = lettersRef w2 ->
  length letterParams = length (lettersRef w1) ->
  exists w1' w2',
    onUpdate letterParams p w1 = Some w1'
    /\ onUpdate letterParams p w2 = Some w2'
    /\ applied (length (tweens w1)) w1' = applied (length (tweens w2)) w2'.
Proof.
  intros Hl Hlen.
  destruct (onUpdate_spec letterParams p w1 Hlen) as (w1' & H1 & _ & _ & _ & A1).
  rewrite Hl in Hlen.
  destruct (onUpdate_spec letterParams p w2 Hlen) as (w2' & H2 & _ & _ & _ & A2).
  exists w1', w2'. rewrite A1, A2, Hl. done.
Qed.

(** The effect draws the parameters of every letter, once. *)
Lemma makeLetterParams_length (o : Options) (letters : list path) :
  forall g : RNG,
    length (makeLetterParams o letters g).1 = length letters
    /\ cursor (makeLetterParams o letters g).2
       = (cursor g + 4 * length letters)%nat.
Proof.
  induction letters as [|l ls IH]; intros g; simpl; [split; [done|lia]|].
  specialize (IH (mkRNG (draws g) (S (S (S (S (cursor g))))))).
  destruct (makeLetterParams o ls _) as [rest g']. simpl in *.
  destruct IH as [-> ->]. split; [done|lia].
Qed.

(** After the effect has run on a title with letters, every scroll update
    delivered to the instance it created succeeds, and two updates with the
    same progress send the same calls, whatever was delivered between
    them. *)
Lemma mounted_updates_repeat (o : Options) (w : World) (p : Q)
    (between : list ScrollEvent) :
  let w1 := effect o w in
  forall k : nat,
    scrollTriggerRef w1 = Some k ->
    scrollTriggerRef w = None ->
    exists w2 w3 w4,
      deliver k (Update p) w1 = Some w2
      /\ foldr (fun e r => r ≫= deliver k e) (Some w2) between = Some w3
      /\ deliver k (Update p) w3 = Some w4
      /\ applied (length (tweens w1)) w2 = applied (length (tweens w3)) w4.
Proof.
  intros w1 k Hk Hnone. subst w1. revert Hk. unfold effect.
  destruct (titleRef w) as [title|] eqn:Ht; [|by rewrite Hnone].
  destruct (containerRef w) as [container|] eqn:Hc; [|by rewrite Hnone].
  destruct (decompose title) as [title1 letters] eqn:Hd.
  destruct (Nat.eqb (length letters) 0) eqn:Hz; [simpl; by rewrite Hnone|].
  cbn [lettersRef set_lettersRef set_title call_gsap set_tweens
       set_entranceTimelineRef random tweens].
  pose proof (makeLetterParams_length o letters (random w)) as [Hlen _].
  destruct (makeLetterParams o letters (random w)) as [params g] eqn:Hm.
  simpl in Hlen. cbn. intros [= <-].
  match goal with |- context [deliver _ _ ?w0] => set (w1 := w0) end.
  assert (forall p0 w', lettersRef w' = letters -> triggers w' = triggers w1 ->
            exists w'', deliver (length (triggers w)) (Update p0) w' = Some w''
              /\ lettersRef w'' = letters /\ triggers w'' = triggers w1
              /\ applied (length (tweens w')) w''
                 = zip_with (fun letter params0 =>
                               gsap_to [letter] (fallVars p0 params0))
                     letters params) as Hupd.
  { intros p0 w' Hl Htr. unfold deliver. rewrite Htr. subst w1. cbn.
    rewrite list_lookup_middle by done. cbn.
    destruct (onUpdate_spec params p0 w') as (w'' & Hu & Hl' & _ & Htr' & Ha);
      [by rewrite Hl|].
    exists w''. rewrite Hu, Hl', Htr', Ha, Hl, Htr. done. }
  destruct (Hupd p w1 eq_refl eq_refl) as (w2 & H2 & Hl2 & Ht2 & Ha2).
  assert (exists w3,
            foldr (fun e r => r ≫= deliver (length (triggers w)) e)
              (Some w2) between = Some w3
            /\ lettersRef w3 = letters /\ triggers w3 = triggers w1)
    as (w3 & H3 & Hl3 & Ht3).
  { induction between as [|e es IH]; simpl; [by exists w2|].
    destruct IH as (w3 & -> & Hl3 & Ht3). simpl.
    destruct e as [p'| |].
    - destruct (Hupd p' w3 Hl3 Ht3) as (w4 & H4 & Hl4 & Ht4 & _).
      exists w4. by rewrite H4.
    - unfold deliver. rewrite Ht3. subst w1. cbn.
      rewrite list_lookup_middle by done. cbn. eexists. by split.
    - unfold deliver. rewrite Ht3. subst w1. cbn.
      rewrite list_lookup_middle by done. cbn. eexists. by split. }
  destruct (Hupd p w3 Hl3 Ht3) as (w4 & H4 & _ & _ & Ha4).
  exists w2, w3, w4.
  split; [exact H2|]. split; [exact H3|]. split; [exact H4|].
  etrans; [exact Ha2|symmetry; exact Ha4].
Qed.

End FallingLettersFacts.

(** ** Letter wrapping *)

Section DecomposeFacts.
Import JS Dom Gsap FallingLetters.

(** Every span made by [wrapText] is a [.letter]. *)
Lemma select_letter_wrapText (text : string) :
  forall i : nat,
    select_from (select_node sel_letter) i (wrapText text)
    = map (fun k => [k]) (seq i (String.length text)).
Proof.
  induction text as [|c text IH]; intros i; simpl; [done|].
  rewrite IH. f_equal.
  unfold wrapChar, parsedChar.
  destruct (Ascii.eqb c " "); [done|].
  destruct (Ascii.eqb c "000"); [done|]. by destruct (Ascii.eqb c "013").
Qed.

(** The spans selected for animation are those of the characters that are
    not spaces. *)
Lemma select_not_space_wrapText (text : string) :
  forall i : nat,
    select_from (select_node sel_letter_not_space) i (wrapText text)
    = letterUnits i text.
Proof.
  induction text as [|c text IH]; intros i; simpl; [done|].
  rewrite IH. f_equal.
  unfold wrapChar, parsedChar.
  destruct (Ascii.eqb c " "); [done|].
  destruct (Ascii.eqb c "000"); [done|]. by destruct (Ascii.eqb c "013").
Qed.

Lemma decompose_fresh (title : list node) :
  querySelectorAll sel_letter title = [] ->
  decompose title
  = (wrapText (textContent title), letterUnits 0 (textContent title)).
Proof.
  intros H. unfold decompose. rewrite H. simpl.
  unfold querySelectorAll. by rewrite select_not_space_wrapText.
Qed.

Lemma decompose_wrapped (title : list node) :
  querySelectorAll sel_letter title <> [] ->
  decompose title = (title, querySelectorAll sel_letter_not_space title).
Proof.
  intros H. unfold decompose.
  destruct (querySelectorAll sel_letter title); [done|reflexivity].
Qed.

Lemma decompose_idempotent (title : list node) :
  decompose (fst (decompose title)) = decompose title.
Proof.
  destruct (querySelectorAll sel_letter title) as [|l ls] eqn:Hq.
  - rewrite (decompose_fresh title Hq). simpl.
    destruct (textContent title) as [|c text] eqn:Ht.
    + reflexivity.
    + rewrite decompose_wrapped.
      * unfold querySelectorAll. by rewrite select_not_space_wrapText.
      * unfold querySelectorAll. rewrite select_letter_wrapText. done.
  - assert (querySelectorAll sel_letter title <> []) as Hne by (by rewrite Hq).
    rewrite (decompose_wrapped title Hne). simpl.
    by rewrite (decompose_wrapped title Hne).
Qed.

(** Induction on a node with the hypothesis available for every child. *)
Lemma node_induction (P : node -> Prop) :
  (forall data, P (Text data)) ->
  (forall classList kids, Forall P kids -> P (Element classList kids)) ->
  forall n, P n.
Proof.
  intros HT HE. fix IH 1. intros [data|classList kids]; [apply HT|].
  apply HE. induction kids as [|k kids IHk]; constructor; [apply IH|exact IHk].
Qed.

Lemma select_from_heads (f : node -> list path) (ns : list node) :
  forall (i : nat) (q : path),
    q ∈ select_from f i ns ->
    exists (k : nat) (q' : path), q = k :: q' /\ (i <= k)%nat.
Proof.
  induction ns as [|n ns IH]; intros i q; simpl; [by intros ?%elem_of_nil|].
  rewrite elem_of_app. intros [H|H].
  - apply list_elem_of_In, in_map_iff in H. destruct H as (q' & <- & _).
    exists i, q'. split; [done|lia].
  - destruct (IH _ _ H) as (k & q' & -> & Hk). exists k, q'. split; [done|lia].
Qed.

Lemma NoDup_select_from (f : node -> list path) (ns : list node) :
  Forall (fun n => NoDup (f n)) ns ->
  forall i : nat, NoDup (select_from f i ns).
Proof.
  induction 1 as [|n ns Hn _ IH]; intros i; simpl; [constructor|].
  apply NoDup_app. split; [|split; [|apply IH]].
  - change (NoDup (cons i <$> f n)). apply NoDup_fmap_2; [|done].
    intros a b [=]. done.
  - intros q Hq Hq'.
    apply list_elem_of_In, in_map_iff in Hq. destruct Hq as (q0 & <- & _).
    apply select_from_heads in Hq'. destruct Hq' as (k & q' & [= <- _] & Hk).
    lia.
Qed.

Lemma NoDup_select_node (sel : list string -> bool) (n : node) :
  NoDup (select_node sel n).
Proof.
  induction n as [data|classList kids IH] using node_induction; simpl.
  - constructor.
  - apply NoDup_app. split; [|split].
    + destruct (sel classList); [apply NoDup_singleton|constructor].
    + intros q Hq Hq'. apply select_from_heads in Hq'.
      destruct Hq' as (k & q' & -> & _).
      destruct (sel classList); [|by apply elem_of_nil in Hq].
      by apply list_elem_of_singleton in Hq.
    + by apply NoDup_select_from.
Qed.

Lemma NoDup_querySelectorAll (sel : list string -> bool) (kids : list node) :
  NoDup (querySelectorAll sel kids).
Proof.
  apply NoDup_select_from, Forall_forall. intros n _. apply NoDup_select_node.
Qed.

Lemma select_from_elem (f : node -> list path) (ns : list node) :
  forall (i : nat) (q : path),
    q ∈ select_from f i ns ->
    exists (j : nat) (n : node) (q' : path),
      q = (i + j)%nat :: q' /\ ns !! j = Some n /\ q' ∈ f n.
Proof.
  induction ns as [|n ns IH]; intros i q; simpl; [by intros ?%elem_of_nil|].
  rewrite elem_of_app. intros [H|H].
  - apply list_elem_of_In, in_map_iff in H. destruct H as (q' & <- & Hq').
    exists 0%nat, n, q'. rewrite Nat.add_0_r. split; [done|].
    split; [done|]. by apply list_elem_of_In.
  - destruct (IH _ _ H) as (j & n' & q' & -> & Hj & Hq').
    exists (S j), n', q'. split; [f_equal; lia|done].
Qed.

(** Every path returned by a selection leads to an element that matches. *)
Lemma select_node_sound (sel : list string -> bool) (n : node) :
  forall q : path,
    q ∈ select_node sel n ->
    exists classList children,
      resolve_node n q = Some (Element classList children)
      /\ sel classList = true.
Proof.
  induction n as [data|classList kids IH] using node_induction; intros q; simpl.
  - by intros ?%elem_of_nil.
  - rewrite elem_of_app. intros [H|H].
    + destruct (sel classList) eqn:Hs; [|by apply elem_of_nil in H].
      apply list_elem_of_singleton in H as ->. simpl. eauto.
    + apply select_from_elem in H. destruct H as (j & k & q' & -> & Hj & Hq').
      simpl. rewrite Hj.
      rewrite Forall_forall in IH. apply IH; [|done].
      eapply list_elem_of_lookup_2; eassumption.
Qed.

Lemma querySelectorAll_sound (sel : list string -> bool) (kids : list node) :
  Forall (selects sel kids) (querySelectorAll sel kids).
Proof.
  apply Forall_forall. intros q Hq.
  apply select_from_elem in Hq. destruct Hq as (j & k & q' & -> & Hj & Hq').
  unfold selects. simpl. rewrite Hj. by apply select_node_sound.
Qed.

(** C7. [decompose] is idempotent: run on a title it has already wrapped, it
    returns the same title and the same letters. No reference occurs twice
    among the letters, and each leads to an element of the decomposed title
    that has the class [letter] and not the class [letter--space]. Where
    [decompose] wraps, the title becomes one span per character and the
    letters are the spans of the characters that are not spaces; where
    [.letter] elements exist already, the title is kept. *)
Theorem decompose_idempotent_no_duplicates (title : list node) :
  decompose (fst (decompose title)) = decompose title
  /\ NoDup (snd (decompose title))
  /\ Forall (selects sel_letter_not_space (fst (decompose title)))
       (snd (decompose title))
  /\ decompose title
     = if Nat.eqb (length (querySelectorAll sel_letter title)) 0
       then (wrapText (textContent title), letterUnits 0 (textContent title))
       else (title, querySelectorAll sel_letter_not_space title).
Proof.
  split; [apply decompose_idempotent|]. split; [|split].
  - unfold decompose.
    destruct (Nat.eqb _ 0); simpl; apply NoDup_querySelectorAll.
  - unfold decompose.
    destruct (Nat.eqb _ 0); simpl; apply querySelectorAll_sound.
  - destruct (querySelectorAll sel_letter title) as [|l ls] eqn:Hq; simpl.
    + by apply decompose_fresh.
    + apply decompose_wrapped. by rewrite Hq.
Qed.

(** The title "AB CD" yields four letters, in order, and keeps its space. *)
Example decompose_AB_CD :
  decompose [Text "AB CD"]
  = ([Element ["letter"] [Text "A"]; Element ["letter"] [Text "B"];
      Element ["letter"; "letter--space"] [Text " "];
      Element ["letter"] [Text "C"]; Element ["letter"] [Text "D"]],
     [[0%nat]; [1%nat]; [3%nat]; [4%nat]])
  /\ textContent (fst (decompose [Text "AB CD"])) = "AB CD"%string.
Proof. split; reflexivity. Qed.

(** C10. When a handle is missing the effect changes nothing. When the
    decomposed title has no letter to animate, the effect stops after the
    decomposition, which is all it has done: the title is the decomposed
    title and the letter list is empty, gsap has received no call, no
    [ScrollTrigger] exists that did not exist before, and no random number
    has been drawn. *)
Theorem effect_without_letters_only_decomposes (o : Options) (w : World) :
  titleRef w = None \/ containerRef w = None
  \/ (exists title, titleRef w = Some title /\ snd (decompose title) = []) ->
  tweens (effect o w) = tweens w
  /\ triggers (effect o w) = triggers w
  /\ scrollTriggerRef (effect o w) = scrollTriggerRef w
  /\ entranceTimelineRef (effect o w) = entranceTimelineRef w
  /\ random (effect o w) = random w
  /\ effect o w
     = match titleRef w, containerRef w with
       | Some title, Some _ =>
           set_lettersRef [] (set_title (fst (decompose title)) w)
       | _, _ => w
       end.
Proof.
  intros H. unfold effect.
  destruct (titleRef w) as [title|] eqn:Ht; [|done].
  destruct (containerRef w) as [container|] eqn:Hc; [|done].
  destruct H as [H|[H|(title' & [= <-] & H)]]; [done..|].
  destruct (decompose title) as [title1 letters]. simpl in H. subst letters.
  done.
Qed.

(** C10, counterexample to "no action at all". The heading holds a single
    space, so that it has no letter to animate; the effect starts nothing,
    yet it has replaced the text of the heading by a span: the title is not
    what it was. *)
Lemma effect_without_letters_rewrites_title :
  titleRef Examples.blankTitle = Some [Text " "]
  /\ containerRef Examples.blankTitle = Some 0%nat
  /\ (decompose [Text " "]).2 = []
  /\ titleRef (effect defaultOptions Examples.blankTitle)
     = Some [Element ["letter"; "letter--space"] [Text " "]]
  /\ tweens (effect defaultOptions Examples.blankTitle) = []
  /\ effect defaultOptions Examples.blankTitle <> Examples.blankTitle.
Proof.
  do 5 (split; [reflexivity|]). intros H.
  apply (f_equal titleRef) in H. discriminate H.
Qed.

End DecomposeFacts.

(** ** The component [Hero] *)

Section HeroFacts.
Import JS Dom Gsap Hero Examples.

(** C2, at the scroll handler of the component [Hero]. Two updates with
    the same progress 0.5 send the one letter the same [y], [rotation] and
    [opacity] but different [x]: the handler draws the horizontal drift anew
    on every update. *)
Theorem hero_update_redraws_drift :
  exists (v1 v2 : Vars) (x1 x2 : Q),
    tweens (onUpdate 0.5 (onUpdate 0.5 oneLetterScroll))
    = [gsap_to [[0%nat]] v1; gsap_to [[0%nat]] v2]
    /\ v_x v1 = Some x1 /\ v_x v2 = Some x2
    /\ x1 == -37.5 /\ x2 == 37.5 /\ ~ x1 == x2
    /\ v_y v1 = v_y v2 /\ v_rotation v1 = v_rotation v2
    /\ v_opacity v1 = v_opacity v2.
Proof.
  do 4 eexists. split; [vm_compute; reflexivity|].
  repeat split; try reflexivity. vm_compute. discriminate.
Qed.

(** As long as no explosion finishes in the frame, the pass of [animate]
    is the filtering pass. *)
Lemma forEach_from_without_removal (todo : list Explosion) :
  Forall (fun e => particles (update e) <> []) todo ->
  forall (visited : list Explosion) (cv : list DrawCall),
    forEach_from (length todo) (length visited)
      {| explosions := visited ++ todo; canvas := cv |}
    = {| explosions := visited ++ map update todo;
         canvas := cv ++ concat (map draw (map update todo)) |}.
Proof.
  induction 1 as [|e todo He _ IH]; intros visited cv; simpl.
  - by rewrite !app_nil_r.
  - rewrite list_lookup_middle by done. unfold visit. cbn [explosions canvas].
    assert (<[length visited:=update e]> (visited ++ e :: todo)
            = visited ++ update e :: todo) as ->.
    { rewrite insert_app_r_alt by lia. by rewrite Nat.sub_diag. }
    assert (Nat.eqb (length (particles (update e))) 0 = false) as ->
      by (destruct (particles (update e)); done).
    specialize (IH (visited ++ [update e]) (cv ++ draw (update e))).
    rewrite length_app in IH. simpl in IH.
    rewrite Nat.add_1_r, <- !app_assoc in IH. simpl in IH.
    exact IH.
Qed.

Lemma animate_explosions_without_removal (f : Frame) :
  Forall (fun e => particles (update e) <> []) (explosions f) ->
  animate_explosions f = filtering_pass f.
Proof.
  intros H. unfold animate_explosions, filtering_pass.
  pose proof (forEach_from_without_removal (explosions f) H [] (canvas f)) as E.
  destruct f as [es cv]. cbn [explosions canvas app length] in *.
  rewrite E. f_equal. clear E.
  induction H as [|e es He _ IH]; [done|]. cbn [map List.filter].
  assert (negb (Nat.eqb (length (particles (update e))) 0) = true) as ->
    by (destruct (particles (update e)); done).
  by f_equal.
Qed.

(** C8, at the explosion pass of [animate]. The pass visits [dying] at index
    0, finds it empty after its update and splices it out of the array it is
    traversing; [fresh] moves to index 0, and index 1, visited next, holds
    nothing. So [fresh], which is alive, is neither updated nor drawn in this
    frame, where a pass that filters into a new collection updates it and
    paints its eight particles. *)
Theorem splice_skips_live_explosion :
  animate_explosions twoExplosions = {| explosions := [fresh]; canvas := [] |}
  /\ filtering_pass twoExplosions
     = {| explosions := [update fresh]; canvas := draw (update fresh) |}
  /\ update fresh <> fresh
  /\ length (draw (update fresh)) = 8%nat.
Proof.
  split; [vm_compute; reflexivity|]. split; [vm_compute; reflexivity|].
  split; [vm_compute; discriminate|reflexivity].
Qed.

End HeroFacts.

(** ** The component [InteractiveNetwork] *)

Section NetworkFacts.
Import JS Network.
Context (host : Host).

Local Arguments while : simpl never.

(** *** [getDistance] *)

Lemma getDistance_missing (a b : option Point) :
  a = None \/ b = None -> getDistance host a b = Infinity.
Proof. intros [-> | ->]; [|destruct a]; reflexivity. Qed.

Lemma qualifies_defined (cd : Q) (points : list Point) (s : SearchState) :
  qualifies host cd points s = true ->
  exists a b : Point,
    index points (p1Index s) = Some a /\ index points (p2Index s) = Some b
    /\ p1Index s <> p2Index s
    /\ number_leb (getDistance host (Some a) (Some b)) cd = true.
Proof.
  unfold qualifies. intros [Hne Hd]%andb_true_iff.
  apply negb_true_iff, Z.eqb_neq in Hne.
  destruct (index points (p1Index s)) as [a|]; [|done].
  destruct (index points (p2Index s)) as [b|]; [|done].
  by exists a, b.
Qed.

Lemma index_elem_of {A : Type} (l : list A) (i : Z) (a : A) :
  index l i = Some a -> a ∈ l.
Proof.
  unfold index. destruct (i <? 0)%Z; [done|]. apply list_elem_of_lookup_2.
Qed.

(** *** The loops of [spawnRandomLine] *)

(** Arithmetic on the loop counters, with the budget unfolded. *)
Local Ltac budget :=
  repeat match goal with H : context [while] |- _ => clear H end;
  cbn [attempts innerAttempts pairsDrawn gen cursor p1Index p2Index
       randomIndex Math_random fst snd] in *;
  unfold maxAttempts in *; lia.

Lemma distinct1_terminates (n : nat) (s : SearchState) :
  exists s', while (S maxAttempts) distinct1_cond (distinct1_body n) s = Some s'.
Proof.
  apply (while_terminates (fun s => maxAttempts - attempts s)%nat); [|budget].
  intros s0 [_ Hlt%Nat.ltb_lt]%andb_true_iff.
  eexists. split; [reflexivity|]. intros s' [= <-]. budget.
Qed.

Lemma distinct2_terminates (n : nat) (s : SearchState) :
  exists s', while (S maxAttempts) distinct2_cond (distinct2_body n) s = Some s'.
Proof.
  apply (while_terminates (fun s => maxAttempts - innerAttempts s)%nat);
    [|budget].
  intros s0 [_ Hlt%Nat.ltb_lt]%andb_true_iff.
  eexists. split; [reflexivity|]. intros s' [= <-]. budget.
Qed.

(** The first loop draws once per iteration, at most [maxAttempts] times,
    and touches neither [p1Index] nor the pair count. *)
Lemma distinct1_effect (n : nat) (s s' : SearchState) :
  (attempts s <= maxAttempts)%nat ->
  while (S maxAttempts) distinct1_cond (distinct1_body n) s = Some s' ->
  pairsDrawn s' = pairsDrawn s
  /\ (attempts s <= attempts s' <= maxAttempts)%nat
  /\ (cursor (gen s') + attempts s = cursor (gen s) + attempts s')%nat.
Proof.
  intros Ha H.
  apply (while_invariant
           (fun t => pairsDrawn t = pairsDrawn s
                     /\ (attempts s <= attempts t <= maxAttempts)%nat
                     /\ (cursor (gen t) + attempts s
                         = cursor (gen s) + attempts t)%nat)) in H;
    [done| |repeat split; lia].
  intros t c (Hp & Hle & Hc) [_ Hlt%Nat.ltb_lt]%andb_true_iff [= <-].
  simpl. repeat split; [done|budget|budget|budget].
Qed.

Lemma distinct2_effect (n : nat) (s s' : SearchState) :
  (innerAttempts s <= maxAttempts)%nat ->
  while (S maxAttempts) distinct2_cond (distinct2_body n) s = Some s' ->
  pairsDrawn s' = pairsDrawn s
  /\ attempts s' = attempts s
  /\ (innerAttempts s <= innerAttempts s' <= maxAttempts)%nat
  /\ (cursor (gen s') + innerAttempts s
      = cursor (gen s) + innerAttempts s')%nat.
Proof.
  intros Ha H.
  apply (while_invariant
           (fun t => pairsDrawn t = pairsDrawn s
                     /\ attempts t = attempts s
                     /\ (innerAttempts s <= innerAttempts t <= maxAttempts)%nat
                     /\ (cursor (gen t) + innerAttempts s
                         = cursor (gen s) + innerAttempts t)%nat)) in H;
    [done| |repeat split; lia].
  intros t c (Hp & He & Hle & Hc) [_ Hlt%Nat.ltb_lt]%andb_true_iff [= <-].
  simpl. repeat split; [done|done|budget|budget|budget].
Qed.

(** One run of the body of the retry loop: a fresh pair, between 2 and
    [2 + maxAttempts] draws, and either the counter goes up by one or the
    loop is left with the counter at [maxAttempts]. *)
Lemma retry_body_effect (points : list Point) (s : SearchState) :
  exists c : control SearchState,
    retry_body points s = Some c
    /\ match c with
       | Next s' =>
           attempts s' = S (attempts s)
           /\ pairsDrawn s' = S (pairsDrawn s)
           /\ (cursor (gen s) + 2 <= cursor (gen s')
               <= cursor (gen s) + 2 + maxAttempts)%nat
       | Break s' =>
           attempts s' = maxAttempts
           /\ pairsDrawn s' = S (pairsDrawn s)
           /\ (cursor (gen s) + 2 <= cursor (gen s')
               <= cursor (gen s) + 2 + maxAttempts)%nat
       end.
Proof.
  unfold retry_body. simpl.
  match goal with
  | |- context [while _ _ ?b ?s1] =>
      destruct (distinct2_terminates (length points) s1) as [s2 H2];
      pose proof (distinct2_effect (length points) s1 s2) as He
  end.
  specialize (He ltac:(budget) H2).
  destruct He as (Hp & Ha & Hi & Hc).
  rewrite H2.
  destruct (p1Index s2 =? p2Index s2)%Z; eexists; (split; [reflexivity|]);
    simpl; repeat split; try done; budget.
Qed.

Lemma retry_terminates (cd : Q) (points : list Point) (s : SearchState) :
  exists s',
    while (S maxAttempts) (retry_cond host cd points) (retry_body points) s
    = Some s'.
Proof.
  apply (while_terminates (fun s => maxAttempts - attempts s)%nat); [|budget].
  intros s0 [_ Hlt%Nat.ltb_lt]%andb_true_iff.
  destruct (retry_body_effect points s0) as (c & Hc & Hs).
  exists c. split; [done|]. intros s' ->. destruct Hs as (-> & _). budget.
Qed.

Lemma retry_effect (cd : Q) (points : list Point) (s s' : SearchState) :
  attempts s = 0%nat ->
  while (S maxAttempts) (retry_cond host cd points) (retry_body points) s
  = Some s' ->
  (attempts s' <= maxAttempts)%nat
  /\ (pairsDrawn s <= pairsDrawn s' <= pairsDrawn s + attempts s')%nat
  /\ (cursor (gen s) + 2 * (pairsDrawn s' - pairsDrawn s) <= cursor (gen s')
      <= cursor (gen s) + attempts s' * (2 + maxAttempts))%nat.
Proof.
  intros Ha H.
  apply (while_invariant
           (fun t => (attempts t <= maxAttempts)%nat
                     /\ (pairsDrawn s <= pairsDrawn t
                         <= pairsDrawn s + attempts t)%nat
                     /\ (cursor (gen s) + 2 * (pairsDrawn t - pairsDrawn s)
                         <= cursor (gen t)
                         <= cursor (gen s) + attempts t * (2 + maxAttempts))%nat))
    in H; [done| |budget].
  intros t c (Hle & Hp & Hc) [_ Hlt%Nat.ltb_lt]%andb_true_iff Hb.
  destruct (retry_body_effect points t) as (c' & Hc' & Hs).
  rewrite Hb in Hc'. injection Hc' as <-.
  destruct c as [t'|t']; destruct Hs as (Ha' & Hp' & Hcur);
    rewrite Ha', Hp'; repeat split; budget.
Qed.

(** The search always ends, after at most [maxAttempts + 1] pairs and at
    most [2 + maxAttempts + maxAttempts * (2 + maxAttempts)] draws, two of
    them at least for every pair counted. *)
Lemma search_bounded (cd : Q) (points : list Point) (g : RNG) :
  exists (s : SearchState) (reached : bool),
    search host cd points g = Some (s, reached)
    /\ (attempts s <= maxAttempts)%nat
    /\ (1 <= pairsDrawn s <= maxAttempts + 1)%nat
    /\ (cursor g + 2 * pairsDrawn s <= cursor (gen s)
        <= cursor g + (2 + maxAttempts + maxAttempts * (2 + maxAttempts)))%nat.
Proof.
  unfold search. simpl.
  match goal with
  | |- context [while _ distinct1_cond ?b ?s0] =>
      destruct (distinct1_terminates (length points) s0) as [s1 H1];
      pose proof (distinct1_effect (length points) s0 s1) as He
  end.
  specialize (He ltac:(budget) H1). destruct He as (Hp & Ha & Hc).
  rewrite H1.
  destruct (p1Index s1 =? p2Index s1)%Z.
  - exists s1, false. split; [done|]. repeat split; budget.
  - match goal with
    | |- context [while _ (retry_cond _ _ _) _ ?s1'] =>
        destruct (retry_terminates cd points s1') as [s2 H2];
        pose proof (retry_effect cd points s1' s2 eq_refl H2) as He
    end.
    simpl in He. destruct He as (Ha2 & Hp2 & Hc2).
    rewrite H2. exists s2, true. split; [done|].
    repeat split; budget.
Qed.

(** *** [spawnRandomLine] *)

(** The world after line 508 when the pair found qualifies. *)
Lemma createLine_spec (cd : Q) (points : list Point) (s : SearchState) (w : World) :
  qualifies host cd points s = true ->
  exists (a b : Point) (l : AnimatedLine),
    index points (p1Index s) = Some a /\ index points (p2Index s) = Some b
    /\ p1 l = a /\ p2 l = b
    /\ headProgress l = 0 /\ tailStartProgress l = 0 /\ isVisible l = true
    /\ number_leb (getDistance host (Some a) (Some b)) cd = true
    /\ lineObjects (createLine points s w) = lineObjects w ++ [l]
    /\ activeLinesRef (createLine points s w)
       = activeLinesRef w ++ [length (lineObjects w)]
    /\ tweens (createLine points s w)
       = tweens w
         ++ [{| target := HeadOf (length (lineObjects w)); elapsed := 0;
                duration := lineAnimationDuration (settings w) |}]
    /\ activeExplosionsRef (createLine points s w) = activeExplosionsRef w
    /\ explosionObjects (createLine points s w) = explosionObjects w
    /\ drawn (createLine points s w) = drawn w.
Proof.
  intros (a & b & Ha & Hb & _ & Hd)%qualifies_defined.
  unfold createLine. rewrite Ha, Hb.
  exists a, b. eexists. split; [done|]. split; [done|].
  unfold new_AnimatedLine. simpl.
  repeat split; try reflexivity. exact Hd.
Qed.

(** The three ways [spawnRandomLine] ends: at the guard of line 475, without
    a pair that qualifies, or with a new line. It always ends. *)
Lemma spawnRandomLine_cases (w : World) :
  exists w', spawnRandomLine host w = Some w'
    /\ ((w' = w
         /\ (canvasRef w = None \/ (length (pointsRef w) < 2)%nat
             \/ (maxActiveLines (settings w) <= length (activeLinesRef w))%nat))
        \/ ((length (activeLinesRef w) < maxActiveLines (settings w))%nat
            /\ exists (s : SearchState) (reached : bool),
                 search host (connectDistance (settings w)) (pointsRef w)
                   (random w) = Some (s, reached)
                 /\ (attempts s <= maxAttempts)%nat
                 /\ (1 <= pairsDrawn s <= maxAttempts + 1)%nat
                 /\ (cursor (random w) + 2 * pairsDrawn s <= cursor (gen s)
                     <= cursor (random w)
                        + (2 + maxAttempts + maxAttempts * (2 + maxAttempts)))%nat
                 /\ w' = if reached
                            && qualifies host (connectDistance (settings w))
                                 (pointsRef w) s
                         then createLine (pointsRef w) s (set_random (gen s) w)
                         else set_random (gen s) w)).
Proof.
  unfold spawnRandomLine.
  destruct (canvasRef w) as [canvas|]; [|exists w; split; [done|left; auto]].
  destruct (length (pointsRef w) <? 2)%nat eqn:Hp;
    [apply Nat.ltb_lt in Hp; exists w; split; [done|left; auto]|].
  destruct (maxActiveLines (settings w) <=? length (activeLinesRef w))%nat
    eqn:Hm; simpl;
    [apply Nat.leb_le in Hm; exists w; split; [done|left; auto]|].
  apply Nat.leb_gt in Hm.
  destruct (search_bounded (connectDistance (settings w)) (pointsRef w)
              (random w)) as (s & reached & Hs & Ha & Hpd & Hc).
  rewrite Hs. destruct reached; simpl.
  - destruct (qualifies host _ _ s) eqn:Hq; eexists; (split; [reflexivity|]);
      right; (split; [done|]); exists s, true; rewrite Hq; done.
  - eexists. split; [reflexivity|]. right. split; [done|]. by exists s, false.
Qed.

(** C3. For every state of the engine a call of [spawnRandomLine] ends, and
    either creates no line and leaves the active lines as they were, or
    creates exactly one line, between two points of the cloud whose
    [getDistance] is at most [connectDistance], and does so only when fewer
    than [maxActiveLines] lines were active. So the number of active lines
    never goes above the larger of its old value and [maxActiveLines], and a
    call made when it has reached [maxActiveLines] changes nothing at all. *)
Theorem spawn_respects_distance_and_cap (w : World) :
  exists w', spawnRandomLine host w = Some w'
    /\ ((lineObjects w' = lineObjects w /\ activeLinesRef w' = activeLinesRef w)
        \/ (exists l : AnimatedLine,
              lineObjects w' = lineObjects w ++ [l]
              /\ activeLinesRef w'
                 = activeLinesRef w ++ [length (lineObjects w)]
              /\ p1 l ∈ pointsRef w /\ p2 l ∈ pointsRef w
              /\ number_leb (getDistance host (Some (p1 l)) (Some (p2 l)))
                   (connectDistance (settings w)) = true
              /\ (length (activeLinesRef w) < maxActiveLines (settings w))%nat))
    /\ (length (activeLinesRef w')
        <= Nat.max (length (activeLinesRef w)) (maxActiveLines (settings w)))%nat
    /\ ((length (activeLinesRef w) < maxActiveLines (settings w))%nat
        \/ w' = w).
Proof.
  destruct (spawnRandomLine_cases w) as (w' & Hw & [[-> Hg]|[Hlt Hs]]).
  - exists w. split; [done|]. split; [by left|]. split; [lia|by right].
  - exists w'. split; [done|].
    destruct Hs as (s & reached & _ & _ & _ & _ & ->).
    destruct (reached && qualifies host _ _ s) eqn:Hq.
    + apply andb_true_iff in Hq as [_ Hq].
      destruct (createLine_spec _ _ _ (set_random (gen s) w) Hq)
        as (a & b & l & Ha & Hb & H1 & H2 & _ & _ & _ & Hd & Hl & Hal & _).
      split; [|split; [|by left]].
      * right. exists l. rewrite Hl, Hal, H1, H2. simpl.
        repeat split; try done; eapply index_elem_of; eassumption.
      * rewrite Hal. simpl. rewrite length_app. simpl. lia.
    + split; [by left|]. split; [simpl; lia|by left].
Qed.

(** C6, as the code has it. A call of [spawnRandomLine] always ends. Past the
    guard of line 475 its search draws the two indices afresh at most
    [maxAttempts + 1] times, the first pair and at most [maxAttempts] further
    ones, with two calls of [Math.random] at least for each, and calls
    [Math.random] at most [2 + maxAttempts + maxAttempts * (2 + maxAttempts)]
    times. When the pair it ends with does not qualify, the call only moves
    the generator: no line is created and nothing else changes. *)
Theorem spawn_search_ends_within_budget (w : World) :
  exists w', spawnRandomLine host w = Some w'
    /\ (w' = w
        \/ exists (s : SearchState) (reached : bool),
             search host (connectDistance (settings w)) (pointsRef w)
               (random w) = Some (s, reached)
             /\ (attempts s <= maxAttempts)%nat
             /\ (1 <= pairsDrawn s <= maxAttempts + 1)%nat
             /\ (cursor (random w) + 2 * pairsDrawn s <= cursor (gen s)
                 <= cursor (random w)
                    + (2 + maxAttempts + maxAttempts * (2 + maxAttempts)))%nat
             /\ w' = if reached
                        && qualifies host (connectDistance (settings w))
                             (pointsRef w) s
                     then createLine (pointsRef w) s (set_random (gen s) w)
                     else set_random (gen s) w).
Proof.
  destruct (spawnRandomLine_cases w) as (w' & Hw & [[-> _]|[_ Hs]]).
  - exists w. split; [done|by left].
  - exists w'. split; [done|by right].
Qed.

(** C9. [getDistance] has a value for every pair of arguments. When one of
    its arguments is missing the value is [Infinity], and then, for every
    [connectDistance], the retry loop sees the pair as too far apart and the
    test of line 506 rejects it. *)
Theorem getDistance_total_and_infinite_when_missing
    (cd : Q) (a b : option Point) :
  a = None \/ b = None ->
  (forall a' b' : option Point, exists d : number, getDistance host a' b' = d)
  /\ getDistance host a b = Infinity
  /\ number_gtb (getDistance host a b) cd = true
  /\ number_leb (getDistance host a b) cd = false
  /\ forall (points : list Point) (s : SearchState),
       index points (p1Index s) = a -> index points (p2Index s) = b ->
       qualifies host cd points s = false.
Proof.
  intros H. split; [eauto|].
  rewrite (getDistance_missing a b H). repeat split.
  intros points s Ha Hb. unfold qualifies.
  rewrite Ha, Hb, (getDistance_missing a b H). simpl. apply andb_false_r.
Qed.

(** *** Tweens *)


(** A tween that has not reached its duration removes and creates nothing. *)
Lemma renderTween_in_flight (dt : Q) (t : Tween) (w : World) :
  elapsed t + dt < duration t ->
  let w' := (renderTween host dt t w).1 in
  activeLinesRef w' = activeLinesRef w
  /\ activeExplosionsRef w' = activeExplosionsRef w
  /\ tweens w' = tweens w.
Proof.
  intros Hd. cbv zeta. unfold renderTween.
  assert (leb (duration t) (elapsed t + dt) = false) as ->.
  { destruct (leb _ _) eqn:E; [apply leb_true in E; lra|done]. }
  destruct (target t) as [this|this].
  - destruct (lineObjects w !! this) as [l|] eqn:Hl; [|by repeat split].
    unfold line_onUpdate. cbn [lineObjects set_lineObjects].
    destruct (<[this:=_]> _ !! this); by repeat split.
  - destruct (explosionObjects w !! this); by repeat split.
Qed.

(** *** The cap and the distance bound are invariants of the component *)

Lemma length_filter_le {A : Type} (f : A -> bool) (l : list A) :
  (length (List.filter f l) <= length l)%nat.
Proof.
  induction l as [|a l IH]; simpl; [done|]. destruct (f a); simpl; lia.
Qed.

Lemma renderTween_keeps_lines (dt : Q) (t : Tween) (w : World)
    (P : Point -> Point -> Prop) :
  let w' := (renderTween host dt t w).1 in
  settings w' = settings w
  /\ (length (activeLinesRef w') <= length (activeLinesRef w))%nat
  /\ (Forall (fun l => P (p1 l) (p2 l)) (lineObjects w) ->
      Forall (fun l => P (p1 l) (p2 l)) (lineObjects w')).
Proof.
  cbv zeta. unfold renderTween. destruct (target t) as [this|this].
  - destruct (lineObjects w !! this) as [l|] eqn:Hl; [|by repeat split].
    assert (this < length (lineObjects w))%nat as Hlt
      by (eapply lookup_lt_Some; eassumption).
    unfold line_onUpdate. cbn [lineObjects set_lineObjects settings].
    rewrite list_lookup_insert_eq by done.
    cbn [headProgress p1 p2 isVisible color]. rewrite list_insert_insert_eq.
    destruct (leb _ _).
    + unfold line_onComplete. cbn [lineObjects set_lineObjects settings].
      rewrite list_lookup_insert_eq by done. rewrite list_insert_insert_eq.
      cbn. split; [done|]. split; [apply length_filter_le|].
      intros HF. apply Forall_insert; [done|].
      rewrite Forall_forall in HF. apply (HF l).
      eapply list_elem_of_lookup_2; eassumption.
    + cbn. split; [done|]. split; [done|].
      intros HF. apply Forall_insert; [done|].
      rewrite Forall_forall in HF. apply (HF l).
      eapply list_elem_of_lookup_2; eassumption.
  - destruct (explosionObjects w !! this); [|by repeat split].
    destruct (leb _ _); by repeat split.
Qed.

Lemma advance_from_keeps_lines (dt : Q) (P : Point -> Point -> Prop)
    (ts : list Tween) :
  forall (kept : list Tween) (w : World),
    let w' := advance_from host dt ts kept w in
    settings w' = settings w
    /\ (length (activeLinesRef w') <= length (activeLinesRef w))%nat
    /\ (Forall (fun l => P (p1 l) (p2 l)) (lineObjects w) ->
        Forall (fun l => P (p1 l) (p2 l)) (lineObjects w')).
Proof.
  induction ts as [|t ts IH]; intros kept w; simpl; [by repeat split|].
  pose proof (renderTween_keeps_lines dt t w P) as (Hs & Hl & HF).
  destruct (renderTween host dt t w) as [w1 r]. simpl in Hs, Hl, HF.
  destruct (IH (kept ++ option_list r) w1) as (Hs' & Hl' & HF').
  split; [congruence|]. split; [lia|auto].
Qed.

Lemma pushPoints_keeps_lines (canvas : Canvas) (n : nat) :
  forall (i : nat) (w : World),
    settings (pushPoints canvas n i w) = settings w
    /\ activeLinesRef (pushPoints canvas n i w) = activeLinesRef w
    /\ lineObjects (pushPoints canvas n i w) = lineObjects w.
Proof.
  induction n as [|n IH]; intros i w; simpl; [done|].
  match goal with |- context [pushPoints canvas n (S i) ?w1] =>
    destruct (IH (S i) w1) as (-> & -> & ->) end.
  done.
Qed.

Lemma createPoints_keeps_lines (w : World) :
  settings (createPoints w) = settings w
  /\ activeLinesRef (createPoints w) = activeLinesRef w
  /\ lineObjects (createPoints w) = lineObjects w.
Proof.
  unfold createPoints. destruct (canvasRef w) as [canvas|]; [|done].
  apply (pushPoints_keeps_lines canvas _ 0 (set_pointsRef [] w)).
Qed.

Lemma resizeCanvas_keeps_lines (w : World) :
  settings (resizeCanvas w) = settings w
  /\ activeLinesRef (resizeCanvas w) = activeLinesRef w
  /\ lineObjects (resizeCanvas w) = lineObjects w.
Proof.
  unfold resizeCanvas. destruct (canvasRef w) as [canvas|]; [|done].
  destruct (parentElement canvas) as [[ow oh]|]; done.
Qed.

Lemma updateNetwork_keeps_lines (w : World) :
  settings (updateNetwork w) = settings w
  /\ activeLinesRef (updateNetwork w) = activeLinesRef w
  /\ lineObjects (updateNetwork w) = lineObjects w.
Proof.
  unfold updateNetwork. destruct (canvasRef w) as [canvas|]; [|done].
  destruct (ctxRef w); [|done].
  destruct (drawEach (drawLine _) _ _ _) as [acc ok]. destruct ok; done.
Qed.

(** Whatever happens to the component keeps it within bounds. *)
Lemma handle_keeps_bounds (e : Event) (w w' : World) :
  within_bounds host w -> handle host e w = Some w' ->
  within_bounds host w'.
Proof.
  intros [Hcap Hdist]. unfold within_bounds. destruct e; simpl.
  - intros [= <-]. unfold mount. destruct (isInitialized w); [done|].
    destruct (canvasRef w) as [canvas|]; [|done]. cbn.
    match goal with |- context [createPoints ?w1] =>
      destruct (createPoints_keeps_lines w1) as (-> & -> & ->);
      destruct (resizeCanvas_keeps_lines (set_isInitialized true (set_ctxRef true w)))
        as (-> & -> & ->) end.
    done.
  - intros [= <-]. destruct (isInitialized w); [|done]. cbn.
    split; [lia|done].
  - intros [= <-]. destruct (resizeListener w); [|done]. unfold handleResize.
    match goal with |- context [createPoints ?w1] =>
      destruct (createPoints_keeps_lines w1) as (-> & -> & ->) end.
    cbn. destruct (resizeCanvas_keeps_lines w) as (-> & _ & ->).
    split; [lia|done].
  - intros [= <-]. destruct (ticker w); [|done].
    destruct (updateNetwork_keeps_lines w) as (-> & -> & ->). done.
  - destruct (spawnInterval w); [|by intros [= <-]].
    intros Hs.
    destruct (spawnRandomLine_cases w) as (w1 & Hw1 & Hc).
    rewrite Hs in Hw1. injection Hw1 as <-.
    destruct Hc as [[-> _]|[Hlt (s & reached & _ & _ & _ & _ & ->)]]; [done|].
    destruct (reached && qualifies host _ _ s) eqn:Hq; [|done].
    apply andb_true_iff in Hq as [_ Hq].
    destruct (createLine_spec _ _ _ (set_random (gen s) w) Hq)
      as (a & b & l & _ & _ & H1 & H2 & _ & _ & _ & Hd & Hl & Hal & _).
    rewrite Hl, Hal.
    assert (settings (createLine (pointsRef w) s (set_random (gen s) w))
            = settings w) as ->.
    { unfold createLine.
      destruct (index _ (p1Index s)); [|done].
      destruct (index _ (p2Index s)); done. }
    cbn. split; [rewrite length_app; simpl; lia|].
    apply Forall_app. split; [done|]. constructor; [|done].
    by rewrite H1, H2.
  - intros [= <-]. unfold advance.
    pose proof (advance_from_keeps_lines dt
                  (fun a b => number_leb (getDistance host (Some a) (Some b))
                                (connectDistance (settings w)) = true)
                  (tweens w) [] (set_tweens [] w)) as (Hs & Hl & HF).
    cbn in Hs, Hl, HF. rewrite Hs. split; [lia|auto].
Qed.

(** Every event is handled: no loop runs out of fuel. *)
Lemma handle_total (e : Event) (w : World) :
  exists w', handle host e w = Some w'.
Proof.
  destruct e; simpl; eauto.
  destruct (spawnInterval w); [|eauto].
  destruct (spawnRandomLine_cases w) as (w' & H & _). eauto.
Qed.

Lemma run_keeps_bounds (es : list Event) :
  forall w w' : World,
    within_bounds host w -> run host es w = Some w' -> within_bounds host w'.
Proof.
  induction es as [|e es IH]; intros w w' Hw; simpl; [by intros [= <-]|].
  destruct (handle host e w) as [w1|] eqn:He; [|done].
  apply IH. by apply (handle_keeps_bounds e w).
Qed.

(** *** The canvas is painted by [updateNetwork] only *)

Lemma renderTween_keeps_canvas (dt : Q) (t : Tween) (w : World) :
  drawn (renderTween host dt t w).1 = drawn w.
Proof.
  unfold renderTween. destruct (target t) as [this|this].
  - destruct (lineObjects w !! this) as [l|]; [|done].
    unfold line_onUpdate. cbn [lineObjects set_lineObjects].
    destruct (<[this:=_]> _ !! this) as [l1|]; destruct (leb _ _); try done;
      unfold line_onComplete; cbn [lineObjects set_lineObjects];
      destruct (<[this:=_]> _ !! this); done.
  - destruct (explosionObjects w !! this); [|done].
    destruct (leb _ _); done.
Qed.

Lemma advance_from_keeps_canvas (dt : Q) (ts : list Tween) :
  forall (kept : list Tween) (w : World),
    drawn (advance_from host dt ts kept w) = drawn w.
Proof.
  induction ts as [|t ts IH]; intros kept w; simpl; [done|].
  pose proof (renderTween_keeps_canvas dt t w) as H.
  destruct (renderTween host dt t w) as [w' r]. simpl in H.
  by rewrite IH.
Qed.

Lemma advance_keeps_canvas (dt : Q) (w : World) :
  drawn (advance host dt w) = drawn w.
Proof. unfold advance. by rewrite advance_from_keeps_canvas. Qed.

(** *** After the cleanup *)

(** The frame clock, the spawn timer and the window find nothing to call. *)
Lemma callbacks_unregistered_by_cleanup (w : World) (e : Event) :
  e = Tick \/ e = SpawnRepeat \/ e = WindowResize \/ e = Unmount ->
  handle host e (cleanup w) = Some (cleanup w).
Proof. intros [->|[->|[->| ->]]]; reflexivity. Qed.

(** The tweens are still in the scheduler. *)
Lemma cleanup_keeps_tweens (w : World) : tweens (cleanup w) = tweens w.
Proof. reflexivity. Qed.

End NetworkFacts.

(** ** The network, run *)

Section NetworkScenarios.
Import JS Network Examples.

(** C1, at the cleanup of [InteractiveNetwork]. The component is mounted,
    its spawn timer fires once and creates a comet, and the component is
    unmounted: the cleanup has emptied both collections and removed the
    ticker listener and the spawn timer, but the comet's tween is still in
    the scheduler. When the scheduler then advances by the 2.8 seconds of the
    animation, the tween's [onComplete] runs: it constructs an explosion,
    appends it to the active explosions and starts a further tween. The
    frame clock, the spawn timer and the window find nothing left to call,
    and the canvas is not touched. *)
Theorem tween_callback_fires_after_cleanup :
  exists w3 w4 : World,
    run exampleHost [Mount; SpawnRepeat; Unmount] unmounted = Some w3
    /\ isInitialized w3 = false
    /\ ticker w3 = false /\ spawnInterval w3 = false
    /\ activeLinesRef w3 = [] /\ activeExplosionsRef w3 = []
    /\ explosionObjects w3 = []
    /\ map target (tweens w3) = [HeadOf 0]
    /\ run exampleHost [Tick; SpawnRepeat; WindowResize] w3 = Some w3
    /\ handle exampleHost (Advance 2.8) w3 = Some w4
    /\ activeExplosionsRef w4 = [0%nat]
    /\ length (explosionObjects w4) = 1%nat
    /\ map target (tweens w4) = [BurstOf 0]
    /\ drawn w4 = drawn w3.
Proof.
  do 2 eexists. split; [vm_compute; reflexivity|].
  repeat split.
Qed.

(** C6, counterexample to the bound of [maxAttempts] pairs. The pair that
    qualifies may be the pair number [maxAttempts + 1]: here fifty pairs are
    too far apart, the search draws a fifty-first, with the calls number 101
    and 102 of [Math.random], and the line is created from it. *)
Lemma spawn_search_tries_fifty_one_pairs :
  exists (s : SearchState) (w' : World),
    search exampleHost (connectDistance (settings lateWorld))
      (pointsRef lateWorld) (random lateWorld) = Some (s, true)
    /\ pairsDrawn s = 51%nat
    /\ (pairsDrawn s > maxAttempts)%nat
    /\ cursor (gen s) = 102%nat
    /\ (p1Index s, p2Index s) = (1, 2)%Z
    /\ spawnRandomLine exampleHost lateWorld = Some w'
    /\ activeLinesRef w' = [0%nat]
    /\ (p1 <$> (lineObjects w' !! 0%nat)) = Some (pointAt 1000 0 1)
    /\ (p2 <$> (lineObjects w' !! 0%nat)) = Some (pointAt 1000 3 2).
Proof.
  do 2 eexists. split; [vm_compute; reflexivity|].
  split; [reflexivity|]. split; [vm_compute; lia|].
  split; [reflexivity|]. split; [reflexivity|].
  split; [vm_compute; reflexivity|]. repeat split.
Qed.

End NetworkScenarios.

(** ** The theorems with hypotheses, at concrete inputs *)

Section Witnesses.
Import JS Dom Gsap Examples.

(** The scroll update at progress 0.5 of a title of two letters. *)
Lemma scroll_update_witness :
  length twoParams = length (FallingLetters.lettersRef twoLetters)
  /\ exists w',
       FallingLetters.onUpdate twoParams 0.5 twoLetters = Some w'
       /\ FallingLetters.applied 0 w'
          = zip_with
              (fun letter params =>
                 gsap_to [letter] (FallingLetters.fallVars 0.5 params))
              [[0%nat]; [1%nat]] twoParams.
Proof.
  split; [reflexivity|].
  exact (proj1 (scroll_update_applies_clamped_fall twoParams 0.5 twoLetters
                  eq_refl)).
Defined.

(** The effect on a heading whose text is a single space. *)
Lemma effect_without_letters_witness :
  (exists title,
     FallingLetters.titleRef blankTitle = Some title
     /\ (FallingLetters.decompose title).2 = [])
  /\ FallingLetters.tweens
       (FallingLetters.effect FallingLetters.defaultOptions blankTitle) = []
  /\ FallingLetters.triggers
       (FallingLetters.effect FallingLetters.defaultOptions blankTitle) = [].
Proof.
  assert (exists title,
            FallingLetters.titleRef blankTitle = Some title
            /\ (FallingLetters.decompose title).2 = []) as H
    by (exists [Text " "]; split; reflexivity).
  split; [exact H|].
  destruct (effect_without_letters_only_decomposes
              FallingLetters.defaultOptions blankTitle
              (or_intror (or_intror H))) as (Ht & Hs & _).
  split; [exact Ht|exact Hs].
Defined.

(** The distance from a missing point to the point (3, 4). *)
Lemma getDistance_missing_witness :
  (@None Network.Point = None \/ Some (pointAt 3 4 0) = None)
  /\ Network.getDistance exampleHost None (Some (pointAt 3 4 0)) = Infinity
  /\ number_leb
       (Network.getDistance exampleHost None (Some (pointAt 3 4 0))) 500
     = false.
Proof.
  split; [left; reflexivity|].
  destruct (getDistance_total_and_infinite_when_missing exampleHost 500
              None (Some (pointAt 3 4 0)) (or_introl eq_refl))
    as (_ & Hd & _ & Hl & _).
  split; [exact Hd|exact Hl].
Defined.


End Witnesses.

(** * Further properties of the code *)

(** ** Random indices *)

Section RandomFacts.
Import JS Props.

Lemma Math_random_stream (g : RNG) :
  draws (Math_random g).2 = draws g
  /\ cursor (Math_random g).2 = S (cursor g).
Proof. done. Qed.

Lemma unit_interval_next (g : RNG) :
  unit_interval g -> unit_interval (Math_random g).2.
Proof. intros H k. apply H. Qed.

(** [Math.floor(Math.random() * n)] is an index of an array of [n]
    elements. *)
Lemma randomIndex_range (n : nat) (g : RNG) :
  unit_interval g -> (0 < n)%nat ->
  (0 <= (randomIndex n g).1 < Z.of_nat n)%Z.
Proof.
  intros Hg Hn. cbv [randomIndex Math_random]. cbn [fst].
  destruct (Hg (cursor g)) as [H0 H1].
  set (r := draws g (cursor g)) in *.
  assert (0 < inject_Z (Z.of_nat n)) as Hpos.
  { change 0 with (inject_Z 0). rewrite <- Zlt_Qlt. lia. }
  split.
  - apply Qfloor_resp_le in H0 as H0'.
    assert (0 <= r * inject_Z (Z.of_nat n)) as Hm by nra.
    apply Qfloor_resp_le in Hm. exact Hm.
  - assert (r * inject_Z (Z.of_nat n) < inject_Z (Z.of_nat n)) as Hm by nra.
    pose proof (Qfloor_le (r * inject_Z (Z.of_nat n))) as Hf.
    rewrite Zlt_Qlt. lra.
Qed.

Lemma index_in_range {A : Type} (l : list A) (i : Z) :
  (0 <= i < Z.of_nat (length l))%Z -> is_Some (index l i).
Proof.
  intros [H0 H1]. unfold index.
  destruct (i <? 0)%Z eqn:E; [apply Z.ltb_lt in E; lia|].
  apply lookup_lt_is_Some. lia.
Qed.

End RandomFacts.

(** ** [InteractiveNetwork]: points, mounting, unmounting *)

Section NetworkLifeFacts.
Import JS Network Props.
Context (host : Host).

Local Arguments while : simpl never.

(** [createPoints] touches the points and the generator only. *)
Lemma pushPoints_spec (canvas : Canvas) (n : nat) :
  forall (i : nat) (w : World),
    exists (new : list Point) (g : RNG),
      pushPoints canvas n i w
      = set_random g (set_pointsRef (pointsRef w ++ new) w)
      /\ length new = n
      /\ map pt_id new = seq i n
      /\ Forall (fun p => pt_radius p = pointRadius (settings w)) new
      /\ draws g = draws (random w)
      /\ cursor g = (cursor (random w) + 2 * n)%nat
      /\ (unit_interval (random w) ->
          0 <= width canvas -> 0 <= height canvas ->
          Forall (fun p => 0 <= pt_x p /\ pt_x p <= width canvas
                           /\ 0 <= pt_y p /\ pt_y p <= height canvas) new).
Proof.
  induction n as [|n IH]; intros i w.
  - exists [], (random w). simpl. rewrite app_nil_r.
    split; [by destruct w as [? ? ? ? ? ? ? ? ? ? ? ? ? ? []]|].
    repeat split; try done; lia.
  - cbn [pushPoints]. cbv [Math_random].
    match goal with |- context [pushPoints canvas n (S i) ?w1] =>
      destruct (IH (S i) w1) as (new & g & -> & Hl & Hid & Hr & Hd & Hc & Hin)
    end.
    cbn in Hr, Hd, Hc, Hin |- *.
    eexists (_ :: new), g. rewrite <- app_assoc. cbn.
    split; [reflexivity|]. split; [by rewrite Hl|]. split; [by rewrite Hid|].
    split; [by constructor|]. split; [done|]. split; [lia|].
    intros Hg Hw Hh. constructor; [|by apply Hin].
    cbn. destruct (Hg (cursor (random w))) as [? ?].
    destruct (Hg (S (cursor (random w)))) as [? ?]. repeat split; nra.
Qed.

Lemma createPoints_shell (w : World) :
  exists (pts : list Point) (g : RNG),
    createPoints w = set_random g (set_pointsRef pts w)
    /\ draws g = draws (random w)
    /\ (length pts = numPoints (settings w) \/ pts = pointsRef w).
Proof.
  unfold createPoints. destruct (canvasRef w) as [canvas|] eqn:Hc.
  - destruct (pushPoints_spec canvas (numPoints (settings w)) 0
                (set_pointsRef [] w)) as (new & g & -> & Hl & _ & _ & Hd & _).
    exists new, g. cbn in *. repeat split; auto.
  - exists (pointsRef w), (random w).
    split; [by destruct w as [? ? ? ? ? ? ? ? ? ? ? ? ? ? []]|].
    split; [done|by right].
Qed.

Lemma resizeCanvas_shell (w : World) :
  exists c : option Canvas,
    resizeCanvas w = set_canvasRef c w
    /\ (canvasRef w = None <-> c = None).
Proof.
  unfold resizeCanvas. destruct (canvasRef w) as [canvas|] eqn:Hc.
  - destruct (parentElement canvas) as [[ow oh]|].
    + eexists. split; [reflexivity|]. split; done.
    + exists (Some canvas). split; [|done].
      destruct w; cbn in *; by rewrite Hc.
  - exists None. split; [|done]. destruct w; cbn in *; by rewrite Hc.
Qed.

(** X1. On a canvas of non-negative size and with [Math.random] in [0, 1),
    [createPoints] replaces the cloud by exactly [numPoints] points that lie
    within the canvas, carry the ids 0, 1, ... in order and the configured
    radius; it calls [Math.random] twice per point and changes nothing
    else. *)
Theorem createPoints_fills_canvas (w : World) (canvas : Canvas) :
  canvasRef w = Some canvas ->
  unit_interval (random w) ->
  0 <= width canvas -> 0 <= height canvas ->
  let pts := pointsRef (createPoints w) in
  length pts = numPoints (settings w)
  /\ map pt_id pts = seq 0 (numPoints (settings w))
  /\ Forall (fun p => 0 <= pt_x p /\ pt_x p <= width canvas
                      /\ 0 <= pt_y p /\ pt_y p <= height canvas
                      /\ pt_radius p = pointRadius (settings w)) pts
  /\ cursor (random (createPoints w))
     = (cursor (random w) + 2 * numPoints (settings w))%nat
  /\ createPoints w = set_random (random (createPoints w)) (set_pointsRef pts w).
Proof.
  intros Hc Hg Hw Hh. cbv zeta. unfold createPoints. rewrite Hc.
  destruct (pushPoints_spec canvas (numPoints (settings w)) 0
              (set_pointsRef [] w)) as (new & g & -> & Hl & Hid & Hr & _ & Hcur & Hin).
  cbn in *. specialize (Hin Hg Hw Hh).
  repeat split; try done.
  rewrite Forall_forall in Hin, Hr |- *. intros p Hp.
  destruct (Hin p Hp) as (? & ? & ? & ?). repeat split; auto.
Qed.


(** The tweens leave everything alone but the objects they animate, the two
    collections and the scheduler itself. *)
Lemma renderTween_shell (dt : Q) (t : Tween) (w : World) :
  let w' := (renderTween host dt t w).1 in
  settings w' = settings w /\ canvasRef w' = canvasRef w
  /\ ctxRef w' = ctxRef w /\ pointsRef w' = pointsRef w
  /\ isInitialized w' = isInitialized w
  /\ resizeListener w' = resizeListener w
  /\ ticker w' = ticker w /\ spawnInterval w' = spawnInterval w
  /\ drawn w' = drawn w /\ random w' = random w
  /\ length (lineObjects w') = length (lineObjects w).
Proof.
  cbv zeta. unfold renderTween. destruct (target t) as [this|this].
  - destruct (lineObjects w !! this) as [l|] eqn:Hl; [|by repeat split].
    assert (this < length (lineObjects w))%nat as Hlt
      by (eapply lookup_lt_Some; eassumption).
    unfold line_onUpdate. cbn [lineObjects set_lineObjects settings].
    rewrite list_lookup_insert_eq by done.
    cbn [headProgress p1 p2 isVisible color]. rewrite list_insert_insert_eq.
    destruct (leb _ _).
    + unfold line_onComplete. cbn [lineObjects set_lineObjects settings].
      rewrite list_lookup_insert_eq by done. rewrite list_insert_insert_eq.
      cbn. rewrite length_insert. by repeat split.
    + cbn. rewrite length_insert. by repeat split.
  - destruct (explosionObjects w !! this); [|by repeat split].
    destruct (leb _ _); by repeat split.
Qed.

Lemma advance_from_shell (dt : Q) (ts : list Tween) :
  forall (kept : list Tween) (w : World),
    let w' := advance_from host dt ts kept w in
    settings w' = settings w /\ canvasRef w' = canvasRef w
    /\ ctxRef w' = ctxRef w /\ pointsRef w' = pointsRef w
    /\ isInitialized w' = isInitialized w
    /\ resizeListener w' = resizeListener w
    /\ ticker w' = ticker w /\ spawnInterval w' = spawnInterval w
    /\ drawn w' = drawn w /\ random w' = random w
    /\ length (lineObjects w') = length (lineObjects w).
Proof.
  induction ts as [|t ts IH]; intros kept w; simpl; [by repeat split|].
  pose proof (renderTween_shell dt t w) as H.
  destruct (renderTween host dt t w) as [w1 r]. cbv zeta in H. simpl in H.
  pose proof (IH (kept ++ option_list r) w1) as H'. cbv zeta in H'.
  destruct H as (? & ? & ? & ? & ? & ? & ? & ? & ? & ? & ?).
  destruct H' as (? & ? & ? & ? & ? & ? & ? & ? & ? & ? & ?).
  repeat split; congruence.
Qed.

(** X3. Once the cleanup has run, nothing but a new run of the effect makes
    the component draw, spawn or regenerate its points: whatever the frame
    clock, the spawn timer, the window and the tween scheduler do, the canvas,
    the points and the generator stay as they were and no line is
    constructed. *)
Theorem quiet_after_cleanup (w : World) (es : list Event) :
  Forall (fun e => e <> Mount) es ->
  exists w',
    run host es (cleanup w) = Some w'
    /\ unmounted w'
    /\ drawn w' = drawn w /\ pointsRef w' = pointsRef w
    /\ random w' = random w
    /\ length (lineObjects w') = length (lineObjects w).
Proof.
  intros Hes.
  assert (forall w0, unmounted w0 ->
            exists w', run host es w0 = Some w' /\ unmounted w'
              /\ drawn w' = drawn w0 /\ pointsRef w' = pointsRef w0
              /\ random w' = random w0
              /\ length (lineObjects w') = length (lineObjects w0)) as Hgen.
  { induction Hes as [|e es He _ IH]; intros w0 Hu; simpl.
    - exists w0. split; [done|]. split; [exact Hu|]. by repeat split.
    - destruct Hu as (Hi & Hr & Ht & Hs).
      destruct e; simpl; try done; rewrite ?Hi, ?Hr, ?Ht, ?Hs;
        try (apply IH; by repeat split).
      pose proof (advance_from_shell dt (tweens w0) [] (set_tweens [] w0))
        as (_ & _ & _ & Hp & Hi' & Hr' & Ht' & Hs' & Hd & Hg & Hl).
      cbn in Hp, Hi', Hr', Ht', Hs', Hd, Hg, Hl.
      destruct (IH (advance host dt w0)) as (w' & Hrun & Hu' & E1 & E2 & E3 & E4).
      { unfold unmounted, advance. by rewrite Hi', Hr', Ht', Hs'. }
      exists w'. split; [done|]. split; [done|]. unfold advance in *.
      rewrite E1, E2, E3, E4, Hd, Hp, Hg, Hl. done. }
  apply (Hgen (cleanup w)). by repeat split.
Qed.

End NetworkLifeFacts.

(** ** [InteractiveNetwork]: drawing *)

Section NetworkDrawFacts.
Import JS Network Props Painting.
Context (host : Host).

Lemma set_drawn_same (w : World) : set_drawn (drawn w) w = w.
Proof. by destruct w. Qed.





(** The alpha read out of four values of [pointColor]: the default, a
    colour with its alpha after a comma and a space, the same colour without
    the space, and a colour name. *)
Example pointColorAlpha_values :
  pointColorAlpha "rgba(133, 141, 148, 0)" == 0
  /\ pointColorAlpha "rgba(133, 141, 148, 0.5)" == 0.5
  /\ pointColorAlpha "rgba(133,141,148,0.5)" == 0
  /\ pointColorAlpha "white" == 1.
Proof. repeat split. Qed.

Lemma updateNetwork_shell (w : World) :
  exists d, updateNetwork w = set_drawn d w.
Proof.
  unfold updateNetwork.
  destruct (canvasRef w); [|exists (drawn w); by rewrite set_drawn_same].
  destruct (ctxRef w); [|exists (drawn w); by rewrite set_drawn_same].
  destruct (drawEach (drawLine _) _ _ _) as [acc ok]. destruct ok; eauto.
Qed.



End NetworkDrawFacts.

(** ** [InteractiveNetwork]: the search under a proper [Math.random] *)

Section NetworkSearchFacts.
Import JS Network Props.
Context (host : Host).

Local Arguments while : simpl never.

Lemma unit_interval_stream (g g' : RNG) :
  draws g' = draws g -> unit_interval g -> unit_interval g'.
Proof. intros E H k. rewrite E. apply H. Qed.

Lemma search_valid_redraw_p2 (n : nat) (g0 : RNG) (t : SearchState)
    (a i : nat) :
  search_valid n g0 t ->
  search_valid n g0
    {| p1Index := p1Index t; p2Index := (randomIndex n (gen t)).1;
       attempts := a; innerAttempts := i;
       gen := (randomIndex n (gen t)).2; pairsDrawn := pairsDrawn t |}.
Proof.
  intros [Hd Hr]. split; [exact Hd|]. intros Hg Hn. cbn [p1Index p2Index].
  split; [by apply Hr|].
  apply randomIndex_range; [|done]. by apply (unit_interval_stream g0).
Qed.

Lemma distinct1_valid (n : nat) (g0 : RNG) (s s' : SearchState) :
  search_valid n g0 s ->
  while (S maxAttempts) distinct1_cond (distinct1_body n) s = Some s' ->
  search_valid n g0 s'.
Proof.
  intros Hs H.
  apply (while_invariant (search_valid n g0)) in H; [done| |done].
  intros t c Ht _ [= <-]. by apply search_valid_redraw_p2.
Qed.

Lemma distinct2_valid (n : nat) (g0 : RNG) (s s' : SearchState) :
  search_valid n g0 s ->
  while (S maxAttempts) distinct2_cond (distinct2_body n) s = Some s' ->
  search_valid n g0 s'.
Proof.
  intros Hs H.
  apply (while_invariant (search_valid n g0)) in H; [done| |done].
  intros t c Ht _ [= <-]. by apply search_valid_redraw_p2.
Qed.

Lemma search_valid_fresh_pair (n : nat) (g0 g : RNG) (a i p : nat) :
  draws g = draws g0 ->
  search_valid n g0
    {| p1Index := (randomIndex n g).1;
       p2Index := (randomIndex n (randomIndex n g).2).1;
       attempts := a; innerAttempts := i;
       gen := (randomIndex n (randomIndex n g).2).2; pairsDrawn := p |}.
Proof.
  intros Hd. split; [exact Hd|]. intros Hg Hn. cbn [p1Index p2Index].
  split; apply randomIndex_range; try done;
    by apply (unit_interval_stream g0).
Qed.

Lemma search_valid_counters (n : nat) (g0 : RNG) (t : SearchState)
    (a i : nat) :
  search_valid n g0 t ->
  search_valid n g0
    {| p1Index := p1Index t; p2Index := p2Index t; attempts := a;
       innerAttempts := i; gen := gen t; pairsDrawn := pairsDrawn t |}.
Proof. by intros [Hd Hr]. Qed.

Lemma retry_valid (cd : Q) (points : list Point) (g0 : RNG)
    (s s' : SearchState) :
  search_valid (length points) g0 s ->
  while (S maxAttempts) (retry_cond host cd points) (retry_body points) s
  = Some s' ->
  search_valid (length points) g0 s'.
Proof.
  intros Hs H.
  apply (while_invariant (search_valid (length points) g0)) in H;
    [done| |done].
  intros t c [Hd Hr] _. unfold retry_body.
  destruct (randomIndex (length points) (gen t)) as [i1 g1] eqn:E1.
  destruct (randomIndex (length points) g1) as [i2 g2] eqn:E2.
  pose proof (search_valid_fresh_pair (length points) g0 (gen t)
                (attempts t) 0 (S (pairsDrawn t)) Hd) as Hf.
  rewrite E1 in Hf. cbn [fst snd] in Hf. rewrite E2 in Hf. cbn [fst snd] in Hf.
  destruct (while _ distinct2_cond _ _) as [s2|] eqn:H2; [|done].
  apply (distinct2_valid _ g0) in H2; [|exact Hf].
  destruct (p1Index s2 =? p2Index s2)%Z; intros [= <-];
    by apply search_valid_counters.
Qed.

Lemma search_valid_result (cd : Q) (points : list Point) (g : RNG)
    (s : SearchState) (reached : bool) :
  search host cd points g = Some (s, reached) ->
  search_valid (length points) g s.
Proof.
  unfold search.
  destruct (randomIndex (length points) g) as [i1 g1] eqn:E1.
  destruct (randomIndex (length points) g1) as [i2 g2] eqn:E2.
  pose proof (search_valid_fresh_pair (length points) g g 0 0 1 eq_refl) as Hf.
  rewrite E1 in Hf. cbn [fst snd] in Hf. rewrite E2 in Hf. cbn [fst snd] in Hf.
  destruct (while _ distinct1_cond _ _) as [s1|] eqn:H1; [|done].
  apply (distinct1_valid _ g) in H1; [|exact Hf].
  destruct (p1Index s1 =? p2Index s1)%Z; [by intros [= <- _]|].
  destruct (while _ (retry_cond _ _ _) _ _) as [s2|] eqn:H2; [|done].
  intros [= <- _]. eapply retry_valid; [|exact H2].
  by apply search_valid_counters.
Qed.

(** X5. With [Math.random] in [0, 1) and at least one point, the pair of
    indices the search of [spawnRandomLine] ends with always denotes two
    points of the cloud, so that the distance tested at line 506 is a number,
    never [Infinity]; the search leaves the generator further on in the same
    stream. *)
Theorem search_ends_on_existing_points (cd : Q) (points : list Point)
    (g : RNG) :
  unit_interval g -> (0 < length points)%nat ->
  exists (s : SearchState) (reached : bool) (a b : Point),
    search host cd points g = Some (s, reached)
    /\ index points (p1Index s) = Some a
    /\ index points (p2Index s) = Some b
    /\ getDistance host (index points (p1Index s)) (index points (p2Index s))
       = Fin (Math_sqrt host
                ((pt_x a - pt_x b) * (pt_x a - pt_x b)
                 + (pt_y a - pt_y b) * (pt_y a - pt_y b)))
    /\ draws (gen s) = draws g /\ (cursor g <= cursor (gen s))%nat.
Proof.
  intros Hg Hn.
  destruct (search_bounded host cd points g)
    as (s & reached & Hs & _ & _ & Hc).
  destruct (search_valid_result cd points g s reached Hs) as [Hd Hr].
  destruct (Hr Hg Hn) as [H1 H2].
  destruct (index_in_range points _ H1) as [a Ha].
  destruct (index_in_range points _ H2) as [b Hb].
  exists s, reached, a, b. rewrite Ha, Hb.
  repeat split; try done. lia.
Qed.

End NetworkSearchFacts.

(** ** [InteractiveNetwork]: what every run keeps *)

Section NetworkRunFacts.
Import JS Network Props.
Context (host : Host).

Local Arguments while : simpl never.

Lemma mount_shell (w : World) :
  mount w = w
  \/ exists c pts g,
       mount w
       = set_spawnInterval true
           (set_ticker true
              (set_resizeListener true
                 (set_random g
                    (set_pointsRef pts
                       (set_canvasRef c
                          (set_isInitialized true (set_ctxRef true w)))))))
       /\ draws g = draws (random w)
       /\ (length pts = numPoints (settings w) \/ pts = pointsRef w).
Proof.
  unfold mount. destruct (isInitialized w); [by left|].
  destruct (canvasRef w) as [canvas|]; [|by left]. right.
  destruct (resizeCanvas_shell (set_isInitialized true (set_ctxRef true w)))
    as (c & -> & _).
  match goal with |- context [createPoints ?w1] =>
    destruct (createPoints_shell w1) as (pts & g & -> & Hd & Hl) end.
  by exists c, pts, g.
Qed.

Lemma handleResize_shell (w : World) :
  exists c pts g,
    handleResize w
    = set_random g
        (set_pointsRef pts
           (set_activeExplosionsRef []
              (set_activeLinesRef [] (set_canvasRef c w))))
    /\ draws g = draws (random w)
    /\ (length pts = numPoints (settings w) \/ pts = pointsRef w).
Proof.
  unfold handleResize. destruct (resizeCanvas_shell w) as (c & -> & _).
  match goal with |- context [createPoints ?w1] =>
    destruct (createPoints_shell w1) as (pts & g & -> & Hd & Hl) end.
  by exists c, pts, g.
Qed.

(** The world after line 508, in full. *)
Lemma createLine_shell (cd : Q) (points : list Point) (s : SearchState)
    (w : World) :
  qualifies host cd points s = true ->
  exists (a b : Point),
    index points (p1Index s) = Some a /\ index points (p2Index s) = Some b
    /\ createLine points s w
       = set_activeLinesRef (activeLinesRef w ++ [length (lineObjects w)])
           (set_tweens
              (tweens w
               ++ [{| target := HeadOf (length (lineObjects w)); elapsed := 0;
                      duration := lineAnimationDuration (settings w) |}])
              (set_lineObjects
                 (lineObjects w
                  ++ [{| p1 := a; p2 := b; headProgress := 0;
                         tailStartProgress := 0; isVisible := true;
                         color :=
                           index (lineColors (settings w))
                             (randomIndex (length (lineColors (settings w)))
                                (random w)).1 |}])
                 (set_random
                    (randomIndex (length (lineColors (settings w)))
                       (random w)).2 w))).
Proof.
  intros (a & b & Ha & Hb & _)%qualifies_defined.
  exists a, b. split; [done|]. split; [done|].
  unfold createLine. rewrite Ha, Hb. reflexivity.
Qed.

(** What [spawnRandomLine] returns, with the search it ran. *)
Lemma spawnRandomLine_shell (w : World) :
  spawnRandomLine host w = Some w
  \/ exists (s : SearchState) (reached : bool),
       search host (connectDistance (settings w)) (pointsRef w) (random w)
       = Some (s, reached)
       /\ (2 <= length (pointsRef w))%nat
       /\ spawnRandomLine host w
          = Some (if reached
                     && qualifies host (connectDistance (settings w))
                          (pointsRef w) s
                  then createLine (pointsRef w) s (set_random (gen s) w)
                  else set_random (gen s) w).
Proof.
  unfold spawnRandomLine. destruct (canvasRef w); [|by left].
  destruct (length (pointsRef w) <? 2)%nat eqn:Hp; [by left|].
  apply Nat.ltb_ge in Hp.
  destruct (maxActiveLines (settings w) <=? length (activeLinesRef w))%nat;
    [by left|]. simpl. right.
  destruct (search_bounded host (connectDistance (settings w)) (pointsRef w)
              (random w)) as (s & reached & Hs & _).
  rewrite Hs. exists s, reached. split; [done|]. split; [done|].
  destruct reached; [|done]. simpl. by destruct (qualifies _ _ _ s).
Qed.

(** X6. A network with fewer than two points never gets a comet or an
    explosion: whatever happens, every event is handled, no line and no
    explosion is ever constructed, no tween is ever started and the cloud
    keeps fewer than two points. *)
Theorem no_comet_without_two_points (es : list Event) (w : World) :
  barren w ->
  exists w', run host es w = Some w' /\ barren w'.
Proof.
  revert w. induction es as [|e es IH]; intros w Hb; simpl; [eauto|].
  assert (exists w1, handle host e w = Some w1 /\ barren w1)
    as (w1 & -> & Hb1); [|by apply IH].
  destruct Hb as (Hn & Hp & Hl & He & Hal & Hae & Ht).
  destruct e; simpl.
  - eexists. split; [reflexivity|].
    destruct (mount_shell w) as [->|(c & pts & g & -> & _ & Hpts)];
      [by repeat split|].
    unfold barren. cbn. repeat split; try done.
    destruct Hpts as [-> | ->]; done.
  - eexists. split; [reflexivity|].
    destruct (isInitialized w); by repeat split.
  - eexists. split; [reflexivity|].
    destruct (resizeListener w); [|by repeat split].
    destruct (handleResize_shell w) as (c & pts & g & -> & _ & Hpts).
    unfold barren. cbn. repeat split; try done.
    destruct Hpts as [-> | ->]; done.
  - eexists. split; [reflexivity|].
    destruct (ticker w); [|by repeat split].
    destruct (updateNetwork_shell w) as (d & ->). by repeat split.
  - exists w. split; [|by repeat split].
    destruct (spawnInterval w); [|done].
    unfold spawnRandomLine. destruct (canvasRef w); [|done].
    apply Nat.ltb_lt in Hp. by rewrite Hp.
  - eexists. split; [reflexivity|].
    unfold advance. rewrite Ht. by repeat split.
Qed.

(** *** Heads, tails and the clock *)

Lemma in_step_start (tailLength : Q) (a b : Point) (c : option string) :
  0 <= tailLength ->
  in_step tailLength
    {| p1 := a; p2 := b; headProgress := 0; tailStartProgress := 0;
       isVisible := true; color := c |}.
Proof.
  intros H. unfold in_step. cbn. split; [lra|]. split; [lra|].
  unfold Math_max. destruct (Qlt_le_dec 0 (0 - tailLength)); [lra|done].
Qed.

Lemma ratio_range (time duration : Q) :
  0 <= time ->
  let finished := leb duration time in
  let ratio := if finished then 1 else time / duration in
  0 <= ratio /\ ratio <= 1.
Proof.
  intros Ht. cbv zeta. destruct (leb duration time) eqn:E; [lra|].
  assert (time < duration) as Hlt.
  { destruct (Qlt_le_dec time duration); [done|].
    apply leb_true in q. congruence. }
  split.
  - apply Qle_shift_div_l; lra.
  - apply Qle_shift_div_r; lra.
Qed.

Lemma renderTween_steady (dt : Q) (t : Tween) (w : World) :
  0 <= dt -> 0 <= elapsed t ->
  Forall (in_step (cometTailLength (settings w))) (lineObjects w) ->
  let w' := (renderTween host dt t w).1 in
  Forall (in_step (cometTailLength (settings w))) (lineObjects w')
  /\ (forall t', (renderTween host dt t w).2 = Some t' -> 0 <= elapsed t')
  /\ (Forall (fun t => 0 <= elapsed t) (tweens w) ->
      Forall (fun t => 0 <= elapsed t) (tweens w')).
Proof.
  intros Hdt He HF. cbv zeta.
  pose proof (ratio_range (elapsed t + dt) (duration t) ltac:(lra)) as Hr.
  cbv zeta in Hr. destruct Hr as [Hr0 Hr1]. unfold renderTween.
  destruct (target t) as [this|this].
  - destruct (lineObjects w !! this) as [l|] eqn:Hl; [|by repeat split].
    assert (this < length (lineObjects w))%nat as Hlt
      by (eapply lookup_lt_Some; eassumption).
    unfold line_onUpdate. cbn [lineObjects set_lineObjects settings].
    rewrite list_lookup_insert_eq by done.
    cbn [headProgress p1 p2 isVisible color]. rewrite list_insert_insert_eq.
    destruct (leb (duration t) (elapsed t + dt)).
    + unfold line_onComplete. cbn [lineObjects set_lineObjects settings].
      rewrite list_lookup_insert_eq by done. rewrite list_insert_insert_eq.
      cbn. split; [|split; [done|]].
      * apply Forall_insert; [done|]. unfold in_step. cbn. by repeat split.
      * intros HT. apply Forall_app. split; [done|].
        constructor; [cbn; lra|done].
    + cbn. split; [|split].
      * apply Forall_insert; [done|]. unfold in_step. cbn. by repeat split.
      * intros t' [= <-]. cbn. lra.
      * done.
  - destruct (explosionObjects w !! this); [|by repeat split].
    destruct (leb (duration t) (elapsed t + dt)); cbn.
    + by repeat split.
    + split; [done|]. split; [|done]. intros t' [= <-]. cbn. lra.
Qed.

Lemma advance_from_steady (dt : Q) (ts : list Tween) :
  0 <= dt ->
  forall (kept : list Tween) (w : World),
    Forall (fun t => 0 <= elapsed t) ts ->
    Forall (fun t => 0 <= elapsed t) kept ->
    Forall (fun t => 0 <= elapsed t) (tweens w) ->
    Forall (in_step (cometTailLength (settings w))) (lineObjects w) ->
    steady (advance_from host dt ts kept w).
Proof.
  intros Hdt. induction ts as [|t ts IH]; intros kept w Hts Hk Hw HF; simpl.
  - split; [done|]. cbn. by apply Forall_app.
  - apply Forall_cons in Hts as [Ht Hts].
    pose proof (renderTween_steady dt t w Hdt Ht HF) as (H1 & H2 & H3).
    pose proof (renderTween_shell host dt t w) as (Hs & _).
    destruct (renderTween host dt t w) as [w1 r]. simpl in *.
    apply IH; try done.
    + apply Forall_app. split; [done|].
      destruct r as [t'|]; [|done]. constructor; [by apply H2|done].
    + by apply H3.
    + by rewrite Hs.
Qed.

Lemma handle_settings (e : Event) (w w' : World) :
  handle host e w = Some w' -> settings w' = settings w.
Proof.
  destruct e; simpl.
  - intros [= <-].
    by destruct (mount_shell w) as [->|(c & pts & g & -> & _)].
  - intros [= <-]. by destruct (isInitialized w).
  - intros [= <-]. destruct (resizeListener w); [|done].
    by destruct (handleResize_shell w) as (c & pts & g & -> & _).
  - intros [= <-]. destruct (ticker w); [|done].
    by destruct (updateNetwork_shell w) as (d & ->).
  - destruct (spawnInterval w); [|by intros [= <-]].
    destruct (spawnRandomLine_shell w) as [->|(s & r & _ & _ & ->)];
      [by intros [= <-]|].
    intros [= <-]. destruct (r && qualifies host _ _ s) eqn:Hq; [|done].
    apply andb_true_iff in Hq as [_ Hq].
    by destruct (createLine_shell _ _ _ (set_random (gen s) w) Hq)
      as (a & b & _ & _ & ->).
  - intros [= <-]. unfold advance.
    by destruct (advance_from_shell host dt (tweens w) [] (set_tweens [] w))
      as (-> & _).
Qed.

Lemma handle_steady (e : Event) (w w' : World) :
  0 <= cometTailLength (settings w) ->
  forward e -> steady w -> handle host e w = Some w' -> steady w'.
Proof.
  intros Hlen Hf [HL HT]. destruct e; simpl.
  - intros [= <-].
    by destruct (mount_shell w) as [->|(c & pts & g & -> & _)].
  - intros [= <-]. by destruct (isInitialized w).
  - intros [= <-]. destruct (resizeListener w); [|done].
    by destruct (handleResize_shell w) as (c & pts & g & -> & _).
  - intros [= <-]. destruct (ticker w); [|done].
    by destruct (updateNetwork_shell w) as (d & ->).
  - destruct (spawnInterval w); [|by intros [= <-]].
    destruct (spawnRandomLine_shell w) as [->|(s & r & _ & _ & ->)];
      [by intros [= <-]|].
    intros [= <-]. destruct (r && qualifies host _ _ s) eqn:Hq; [|done].
    apply andb_true_iff in Hq as [_ Hq].
    destruct (createLine_shell _ _ _ (set_random (gen s) w) Hq)
      as (a & b & _ & _ & ->).
    split; cbn.
    + apply Forall_app. split; [done|].
      constructor; [by apply in_step_start|done].
    + apply Forall_app. split; [done|]. constructor; [cbn; lra|done].
  - intros [= <-]. unfold advance. by apply advance_from_steady.
Qed.

(** X7. With a tail length that is not negative and a clock that does not
    run backwards, every line of every world a steady world can become has
    its head between 0 and 1 and its tail start at
    [max(0, headProgress - cometTailLength)], which lies between 0 and the
    head. *)
Theorem tails_follow_heads (es : list Event) (w w' : World) :
  0 <= cometTailLength (settings w) ->
  steady w ->
  Forall forward es ->
  run host es w = Some w' ->
  steady w'
  /\ Forall (fun l =>
               0 <= tailStartProgress l
               /\ tailStartProgress l <= headProgress l
               /\ headProgress l <= 1
               /\ tailStartProgress l
                  = Math_max 0 (headProgress l - cometTailLength (settings w)))
       (lineObjects w').
Proof.
  intros Hlen Hs Hes Hrun.
  assert (steady w' /\ settings w' = settings w) as [Hs' Hset].
  { revert w Hlen Hs Hrun.
    induction Hes as [|e es He _ IH]; intros w Hlen Hs; simpl;
      [by intros [= <-]|].
    destruct (handle host e w) as [w1|] eqn:H1; [|done].
    pose proof (handle_settings e w w1 H1) as E.
    intros Hrun. destruct (IH w1) as [? ?]; try done.
    - by rewrite E.
    - by apply (handle_steady e w).
    - split; [done|congruence]. }
  split; [done|]. destruct Hs' as [HL _]. rewrite Hset in HL.
  eapply Forall_impl; [exact HL|]. intros l (H0 & H1 & ->).
  destruct (Math_max_spec 0 (headProgress l - cometTailLength (settings w)))
    as [[? ->]|[? ->]]; repeat split; lra.
Qed.

End NetworkRunFacts.

(** ** [InteractiveNetwork]: colours, and the life of a comet *)

Section NetworkColourFacts.
Import JS Network Props Painting.
Context (host : Host).

Local Arguments while : simpl never.








(** *** Completion of the two kinds of tweens *)

Lemma advance_single (dt : Q) (t : Tween) (w : World) :
  tweens w = [t] ->
  advance host dt w
  = set_tweens
      (option_list (renderTween host dt t (set_tweens [] w)).2
       ++ tweens (renderTween host dt t (set_tweens [] w)).1)
      (renderTween host dt t (set_tweens [] w)).1.
Proof.
  intros H. unfold advance. rewrite H. cbn [advance_from].
  by destruct (renderTween host dt t (set_tweens [] w)).
Qed.

Lemma head_completion (dt : Q) (t : Tween) (this : nat) (l : AnimatedLine)
    (w : World) :
  target t = HeadOf this ->
  lineObjects w !! this = Some l ->
  duration t <= elapsed t + dt ->
  let w' := (renderTween host dt t w).1 in
  (renderTween host dt t w).2 = None
  /\ activeLinesRef w'
     = List.filter (fun line => negb (Nat.eqb line this)) (activeLinesRef w)
  /\ explosionObjects w'
     = explosionObjects w
       ++ [{| ex_x := pt_x (p2 l); ex_y := pt_y (p2 l); ex_color := color l;
              ex_radius := pointRadius (settings w); ex_opacity := 0.8 |}]
  /\ activeExplosionsRef w'
     = activeExplosionsRef w ++ [length (explosionObjects w)]
  /\ tweens w'
     = tweens w
       ++ [{| target := BurstOf (length (explosionObjects w)); elapsed := 0;
              duration := explosionDuration (settings w) |}].
Proof.
  intros Ht Hl Hd. unfold renderTween. rewrite Ht, Hl.
  apply leb_true in Hd. rewrite Hd.
  assert (this < length (lineObjects w))%nat as Hlt
    by (eapply lookup_lt_Some; eassumption).
  unfold line_onUpdate. cbn [lineObjects set_lineObjects settings].
  rewrite list_lookup_insert_eq by done.
  cbn [headProgress p1 p2 isVisible color].
  rewrite list_insert_insert_eq.
  unfold line_onComplete. cbn [lineObjects set_lineObjects settings].
  rewrite list_lookup_insert_eq by done.
  rewrite list_insert_insert_eq.
  cbn [fst snd new_ExplosionEffect]. by repeat split.
Qed.

Lemma burst_completion (dt : Q) (t : Tween) (this : nat)
    (e : ExplosionEffect) (w : World) :
  target t = BurstOf this ->
  explosionObjects w !! this = Some e ->
  duration t <= elapsed t + dt ->
  let w' := (renderTween host dt t w).1 in
  (renderTween host dt t w).2 = None
  /\ activeExplosionsRef w'
     = List.filter (fun exp => negb (Nat.eqb exp this)) (activeExplosionsRef w)
  /\ activeLinesRef w' = activeLinesRef w
  /\ tweens w' = tweens w.
Proof.
  intros Ht He Hd. unfold renderTween. rewrite Ht, He.
  apply leb_true in Hd. rewrite Hd. by repeat split.
Qed.

(** X9. The life of a comet, for positive durations and on a scheduler that
    runs nothing else. When a call of [spawnRandomLine] has constructed a
    line, the line is the one active line; once the scheduler has advanced
    by [lineAnimationDuration] or more, no line is active and exactly one
    explosion is, at [p2] of the line and in its colour; once it has
    advanced by [explosionDuration] or more again, both collections and the
    scheduler are empty. *)
Theorem comet_lives_and_leaves (w w1 : World) (dt dt' : Q) :
  0 < lineAnimationDuration (settings w) ->
  0 < explosionDuration (settings w) ->
  tweens w = [] -> activeLinesRef w = [] -> activeExplosionsRef w = [] ->
  spawnRandomLine host w = Some w1 ->
  lineObjects w1 <> lineObjects w ->
  lineAnimationDuration (settings w) <= dt ->
  explosionDuration (settings w) <= dt' ->
  exists l : AnimatedLine,
    let w2 := advance host dt w1 in
    let w3 := advance host dt' w2 in
    lineObjects w1 = lineObjects w ++ [l]
    /\ activeLinesRef w1 = [length (lineObjects w)]
    /\ activeLinesRef w2 = []
    /\ activeExplosionsRef w2 = [length (explosionObjects w)]
    /\ explosionObjects w2
       = explosionObjects w
         ++ [{| ex_x := pt_x (p2 l); ex_y := pt_y (p2 l);
                ex_color := color l;
                ex_radius := pointRadius (settings w); ex_opacity := 0.8 |}]
    /\ activeLinesRef w3 = [] /\ activeExplosionsRef w3 = []
    /\ tweens w3 = [].
Proof.
  intros _ _ Ht Hal Hae Hsp Hne Hd Hd'.
  destruct (spawnRandomLine_shell host w) as [E|(s & r & _ & _ & E)];
    rewrite E in Hsp; injection Hsp as <-; [done|].
  destruct (r && qualifies host _ _ s) eqn:Hq; [|done].
  apply andb_true_iff in Hq as [_ Hq]. clear E Hne.
  destruct (createLine_spec host _ _ _ (set_random (gen s) w) Hq)
    as (a & b & l & _ & _ & _ & _ & _ & _ & _ & _ & Hlo & Hact & Htw & Hex
        & Heo & _).
  assert (settings (createLine (pointsRef w) s (set_random (gen s) w))
          = settings w) as Hset.
  { destruct (createLine_shell host _ _ _ (set_random (gen s) w) Hq)
      as (a' & b' & _ & _ & ->). reflexivity. }
  remember (createLine (pointsRef w) s (set_random (gen s) w)) as w1 eqn:Ew1.
  clear Ew1.
  cbn [lineObjects activeLinesRef tweens activeExplosionsRef explosionObjects
       set_random settings] in Hlo, Hact, Htw, Hex, Heo.
  rewrite Hal in Hact. rewrite Ht in Htw. rewrite Hae in Hex.
  cbn [app] in Hact, Htw.
  exists l. cbv zeta.
  (* the first advance *)
  rewrite (advance_single dt _ w1 Htw).
  set (t1 := {| target := HeadOf (length (lineObjects w)); elapsed := 0;
                duration := lineAnimationDuration (settings w) |}) in *.
  assert (lineObjects (set_tweens [] w1) !! length (lineObjects w) = Some l)
    as Hl.
  { cbn [lineObjects set_tweens]. rewrite Hlo.
    by rewrite list_lookup_middle. }
  destruct (head_completion dt t1 _ l (set_tweens [] w1) eq_refl Hl)
    as (Hr & Hal2 & Heo2 & Hex2 & Htw2); [cbn; lra|].
  pose proof (renderTween_shell host dt t1 (set_tweens [] w1)) as (Hs2 & _).
  cbv zeta in Hs2.
  remember (renderTween host dt t1 (set_tweens [] w1)) as rt eqn:Ert.
  clear Ert.
  cbn [activeLinesRef explosionObjects activeExplosionsRef tweens settings
       set_tweens] in Hal2, Heo2, Hex2, Htw2, Hs2.
  rewrite Hact in Hal2. rewrite Heo, Hset in Heo2. rewrite Hex, Heo in Hex2.
  rewrite Heo, Hset in Htw2. cbn in Hal2. rewrite Nat.eqb_refl in Hal2.
  cbn in Hal2, Htw2. rewrite Hr.
  change (option_list None ++ tweens rt.1) with (tweens rt.1).
  set (w2 := set_tweens (tweens rt.1) rt.1).
  assert (tweens w2
          = [{| target := BurstOf (length (explosionObjects w)); elapsed := 0;
                duration := explosionDuration (settings w) |}]) as Htw3
    by (subst w2; cbn [tweens set_tweens]; exact Htw2).
  (* the second advance *)
  rewrite (advance_single dt' _ w2 Htw3).
  set (t2 := {| target := BurstOf (length (explosionObjects w)); elapsed := 0;
                duration := explosionDuration (settings w) |}) in *.
  assert (exists e,
            explosionObjects (set_tweens [] w2) !! length (explosionObjects w)
            = Some e) as [e He].
  { subst w2. cbn [explosionObjects set_tweens]. rewrite Heo2.
    eexists. by rewrite list_lookup_middle. }
  destruct (burst_completion dt' t2 _ e (set_tweens [] w2) eq_refl He)
    as (Hr3 & Hex3 & Hal3 & Htw4); [cbn; lra|].
  remember (renderTween host dt' t2 (set_tweens [] w2)) as rt' eqn:Ert'.
  clear Ert'. subst w2. cbn [activeLinesRef explosionObjects activeExplosionsRef tweens
                 set_tweens] in Hex3, Hal3, Htw4 |- *.
  rewrite Hr3.
  change (option_list None ++ tweens rt'.1) with (tweens rt'.1).
  cbn [activeLinesRef explosionObjects activeExplosionsRef tweens
       set_tweens].
  rewrite Htw4, Hal3, Hal2, Hex3, Hex2. cbn. rewrite Nat.eqb_refl.
  by repeat split.
Qed.

End NetworkColourFacts.

(** ** The hook [useFallingLetters]: wrapping, parameters, mounting *)

Section LetterHookFacts.
Import JS Dom Gsap FallingLetters Props LetterProps.

Lemma textContent_wrapText (text : string) :
  textContent (wrapText text) = parsedText text.
Proof.
  unfold textContent.
  induction text as [|c text IH]; simpl; [done|].
  rewrite IH. unfold wrapChar, parsedChar.
  destruct (Ascii.eqb c " ") eqn:E.
  { apply Ascii.eqb_eq in E. by subst c. }
  destruct (Ascii.eqb c "000"); [done|].
  by destruct (Ascii.eqb c "013").
Qed.

Lemma parsedText_plain (text : string) :
  parsedText text = text
  \/ Exists rewritten (list_ascii_of_string text).
Proof.
  induction text as [|c text IH]; simpl; [by left|].
  destruct (Ascii.eqb c "000") eqn:E0.
  { right. left. left. by apply Ascii.eqb_eq. }
  destruct (Ascii.eqb c "013") eqn:E13.
  { right. left. right. by apply Ascii.eqb_eq. }
  destruct IH as [->|IH]; [by left|right; by right].
Qed.

(** X10. What wrapping does to the text a reader sees. The title is either
    left as it was, or it has exactly one [.letter] span per character of
    its text, and its text content is the text the HTML parser has made of
    those characters: carriage returns have become line feeds and U+0000 is
    gone. So the text content is the same after step 1 of the effect as
    before it, unless the text holds one of these two characters. *)
Theorem wrapping_keeps_the_text (title : list node) :
  let title' := (decompose title).1 in
  (title' = title
   \/ (textContent title' = parsedText (textContent title)
       /\ length (querySelectorAll sel_letter title')
          = String.length (textContent title)))
  /\ (textContent title' = textContent title
      \/ Exists rewritten (list_ascii_of_string (textContent title))).
Proof.
  cbv zeta.
  destruct (querySelectorAll sel_letter title) as [|l ls] eqn:Hq.
  - rewrite (decompose_fresh title Hq). cbn [fst].
    rewrite textContent_wrapText. split.
    + right. split; [done|].
      unfold querySelectorAll. rewrite select_letter_wrapText.
      by rewrite length_map, length_seq.
    + apply parsedText_plain.
  - rewrite decompose_wrapped by (by rewrite Hq).
    split; by left.
Qed.

Lemma makeLetterParams_within (o : Options) (letters : list path) :
  0 <= maxHorizontalDrift o -> 0 <= maxRotation o ->
  forall g : RNG,
    unit_interval g ->
    Forall (within_options o) (makeLetterParams o letters g).1
    /\ draws (makeLetterParams o letters g).2 = draws g.
Proof.
  intros Hd Hr.
  induction letters as [|l ls IH]; intros g Hg; [by split|].
  simpl.
  specialize (IH (mkRNG (draws g) (S (S (S (S (cursor g))))))).
  destruct (makeLetterParams o ls _) as [rest g'].
  destruct IH as [Hall Hdr]; [intros k; apply Hg|].
  cbn [fst snd] in *. split; [|exact Hdr].
  constructor; [|exact Hall].
  destruct (Hg (cursor g)) as [? ?].
  destruct (Hg (S (cursor g))) as [? ?].
  destruct (Hg (S (S (cursor g)))) as [? ?].
  destruct (Hg (S (S (S (cursor g))))) as [? ?].
  unfold within_options. cbn [randomY randomX randomRotation randomDelayFactor].
  repeat split; nra.
Qed.

(** What the effect does to a title that has letters. *)
Lemma effect_with_letters (o : Options) (w : World)
    (title : list node) (container : nat) :
  titleRef w = Some title -> containerRef w = Some container ->
  (decompose title).2 <> [] ->
  let letters := (decompose title).2 in
  let made := makeLetterParams o letters (random w) in
  effect o w
  = {| titleRef := Some (decompose title).1;
       containerRef := Some container;
       lettersRef := letters;
       scrollTriggerRef := Some (length (triggers w));
       entranceTimelineRef := Some (S (length (tweens w)));
       tweens :=
         (tweens w ++ [(gsap_set letters
            {| v_y := Some 100; v_x := None; v_rotation := None;
               v_opacity := Some 0; v_duration := None; v_stagger := None;
               v_delay := None; v_ease := None; v_overwrite := false |},
            false)])
         ++ [(gsap_to letters
            {| v_y := Some 0; v_x := None; v_rotation := None;
               v_opacity := Some 1; v_duration := Some 1.2;
               v_stagger := Some (staggerDelay o);
               v_delay := Some (entranceDelay o);
               v_ease := Some "power3.out"%string; v_overwrite := false |},
            false)];
       triggers :=
         triggers w
         ++ [{| st_trigger := container; st_start := "top top";
                st_end := "+=100px"; st_scrub := scrub o;
                st_letterParams := made.1; st_killed := false |}];
       random := made.2 |}.
Proof.
  intros Ht Hc Hne. cbv zeta. unfold effect. rewrite Ht, Hc.
  destruct (decompose title) as [title1 letters] eqn:Hd. cbn [fst snd] in *.
  destruct letters as [|l ls]; [done|].
  cbn [length Nat.eqb].
  cbn [lettersRef set_lettersRef set_title call_gsap set_tweens
       set_entranceTimelineRef random tweens triggers gsap_to_handle
       containerRef].
  destruct (makeLetterParams o (l :: ls) (random w)) as [params g].
  unfold set_triggers, set_scrollTriggerRef, set_random,
    set_entranceTimelineRef, call_gsap, set_tweens, set_lettersRef, set_title.
  cbn [titleRef containerRef lettersRef scrollTriggerRef entranceTimelineRef
       tweens triggers random fst snd].
  rewrite Hc. unfold gsap_to_handle. cbn [tweens].
  rewrite length_app, Nat.add_1_r. reflexivity.
Qed.

(** Without letters, or without one of the two handles, the effect creates
    no trigger. *)
Lemma effect_trigger_inv (o : Options) (w : World) (k : nat) :
  scrollTriggerRef w = None ->
  scrollTriggerRef (effect o w) = Some k ->
  exists title container,
    titleRef w = Some title /\ containerRef w = Some container
    /\ (decompose title).2 <> [] /\ k = length (triggers w).
Proof.
  intros Hnone Hk.
  destruct (titleRef w) as [title|] eqn:Ht;
    [|unfold effect in Hk; rewrite Ht in Hk; congruence].
  destruct (containerRef w) as [container|] eqn:Hc;
    [|unfold effect in Hk; rewrite Ht, Hc in Hk; congruence].
  destruct (decompose title).2 as [|l ls] eqn:Hl.
  - unfold effect in Hk. rewrite Ht, Hc in Hk.
    destruct (decompose title) as [title1 letters]. cbn in Hl. subst letters.
    cbn in Hk. congruence.
  - assert ((decompose title).2 <> []) as Hne by (by rewrite Hl).
    rewrite (effect_with_letters o w title container Ht Hc Hne) in Hk.
    cbn in Hk. exists title, container. repeat split; try done.
    congruence.
Qed.

(** X11. When the effect registers a scroll trigger, the trigger is live and
    holds one set of parameters per animated letter, each within the ranges
    the options give: the fall distance in [fallDistance, fallDistance + 200),
    the drift and the rotation within half of their maxima on either side,
    the delay factor in [0, 0.6). The effect has drawn four random numbers
    per letter. *)
Theorem mount_registers_live_trigger (o : Options) (w : World) (k : nat) :
  unit_interval (random w) ->
  0 <= maxHorizontalDrift o -> 0 <= maxRotation o ->
  scrollTriggerRef w = None ->
  scrollTriggerRef (effect o w) = Some k ->
  exists inst : ScrollTriggerInstance,
    triggers (effect o w) !! k = Some inst
    /\ st_killed inst = false
    /\ length (st_letterParams inst) = length (lettersRef (effect o w))
    /\ Forall (within_options o) (st_letterParams inst)
    /\ cursor (random (effect o w))
       = (cursor (random w) + 4 * length (lettersRef (effect o w)))%nat.
Proof.
  intros Hg Hd Hr Hnone Hk.
  destruct (effect_trigger_inv o w k Hnone Hk)
    as (title & container & Ht & Hc & Hne & ->).
  rewrite (effect_with_letters o w title container Ht Hc Hne).
  cbn [triggers lettersRef random].
  rewrite list_lookup_middle by done.
  eexists. split; [reflexivity|]. cbn [st_killed st_letterParams].
  destruct (makeLetterParams_length o (decompose title).2 (random w))
    as [Hlen Hcur].
  destruct (makeLetterParams_within o (decompose title).2 Hd Hr (random w) Hg)
    as [Hall _].
  repeat split; assumption.
Qed.

(** X12. The fall progress of a letter as a function of the scroll progress:
    it does not decrease when the scroll progress grows, it is zero exactly
    as long as the scroll progress has not passed 0.3 times the delay factor
    of the letter, and over the whole range of the trigger (progress up to
    1) it never exceeds 5/12, so the opacity sent by the handler never falls
    below 7/12. *)
Theorem fall_progress_shape (p p' : Q) (params : LetterParams) :
  0 <= randomDelayFactor params -> p <= p' -> p' <= 1 ->
  letterFallProgress p params <= letterFallProgress p' params
  /\ (letterFallProgress p params == 0
      <-> p <= randomDelayFactor params * 0.3)
  /\ letterFallProgress p' params <= 5 # 12
  /\ (forall o : Q,
        v_opacity (fallVars p' params) = Some o -> 7 # 12 <= o).
Proof.
  intros Hd Hp Hp'.
  assert (forall q : Q,
            exists v, v * 2.4 == q - randomDelayFactor params * 0.3
              /\ letterFallProgress q params = Math_min 1 (Math_max 0 v))
    as Hv.
  { intros q. exists ((q - randomDelayFactor params * 0.3) / 2.4).
    split; [field|reflexivity]. }
  destruct (Hv p) as (v & Ev & ->). destruct (Hv p') as (v' & Ev' & Hf').
  assert (Math_min 1 (Math_max 0 v) <= Math_min 1 (Math_max 0 v')
          /\ (Math_min 1 (Math_max 0 v) == 0
              <-> p <= randomDelayFactor params * 0.3)
          /\ Math_min 1 (Math_max 0 v') <= 5 # 12) as (H1 & H2 & H3).
  { destruct (Math_max_spec 0 v) as [[? ->]|[? ->]];
      destruct (Math_max_spec 0 v') as [[? ->]|[? ->]];
      repeat match goal with
             | |- context [Math_min ?a ?b] =>
                 destruct (Math_min_spec a b) as [[? ->]|[? ->]]
             end;
      (split; [lra|split; [split; intros ?; lra|lra]]). }
  split; [by rewrite Hf'|]. split; [exact H2|]. split; [by rewrite Hf'|].
  intros o [= <-]. rewrite Hf'. lra.
Qed.

(** X13. After the cleanup of a mounted hook the scroll trigger is dead: no
    scroll event delivered to it calls [gsap] or changes anything else. The
    entrance tween has been killed, the array of letters is empty, and the
    wrapped title stays in the document. *)
Theorem cleanup_silences_the_hook (o : Options) (w : World) (k : nat) :
  scrollTriggerRef w = None ->
  scrollTriggerRef (effect o w) = Some k ->
  let w1 := effect o w in
  let w2 := cleanup w1 in
  (forall e : ScrollEvent, deliver k e w2 = Some w2)
  /\ lettersRef w2 = []
  /\ titleRef w2 = titleRef w1
  /\ (exists (h : nat) (c : GsapCall),
        entranceTimelineRef w1 = Some h
        /\ tweens w1 !! h = Some (c, false)
        /\ tweens w2 !! h = Some (c, true))
  /\ length (tweens w2) = length (tweens w1).
Proof.
  intros Hnone Hk.
  destruct (effect_trigger_inv o w k Hnone Hk)
    as (title & container & Ht & Hc & Hne & ->).
  cbv zeta.
  rewrite (effect_with_letters o w title container Ht Hc Hne).
  unfold cleanup.
  cbn [scrollTriggerRef entranceTimelineRef set_triggers set_tweens
       set_lettersRef triggers tweens titleRef lettersRef containerRef random].
  split; [|split; [done|split; [done|split]]].
  - intros e. unfold deliver.
    cbn [triggers set_lettersRef set_tweens set_triggers].
    rewrite list_lookup_alter_eq, list_lookup_middle by done. reflexivity.
  - eexists _, _. split; [reflexivity|].
    rewrite list_lookup_alter_eq.
    rewrite list_lookup_middle by (rewrite length_app; cbn; lia).
    split; reflexivity.
  - by rewrite length_alter.
Qed.

(** X14. Mounting again after a cleanup finds the title already wrapped: the
    title and the letters selected for animation are those of the first
    mount. The parameters are drawn again, four numbers per letter, and a
    second trigger is registered next to the dead one. *)
Theorem remount_keeps_letters_redraws_parameters (o : Options) (w : World)
    (title : list node) (container : nat) :
  titleRef w = Some title -> containerRef w = Some container ->
  lettersRef (effect o w) <> [] ->
  let w1 := effect o w in
  let w3 := effect o (cleanup w1) in
  titleRef w3 = titleRef w1
  /\ lettersRef w3 = lettersRef w1
  /\ cursor (random w3)
     = (cursor (random w) + 8 * length (lettersRef w1))%nat
  /\ scrollTriggerRef w3 = Some (S (length (triggers w)))
  /\ (st_killed <$> triggers w3 !! length (triggers w)) = Some true
  /\ (st_killed <$> triggers w3 !! S (length (triggers w))) = Some false.
Proof.
  intros Ht Hc Hne. cbv zeta.
  assert ((decompose title).2 <> []) as Hne'.
  { intros Hnil. apply Hne. unfold effect. rewrite Ht, Hc.
    destruct (decompose title) as [title1 letters]. cbn in Hnil.
    subst letters. reflexivity. }
  clear Hne.
  rewrite (effect_with_letters o w title container Ht Hc Hne').
  pose proof (decompose_idempotent title) as Hid.
  match goal with |- context [effect o (cleanup ?w1)] =>
    set (w2 := cleanup w1)
  end.
  assert (titleRef w2 = Some (decompose title).1) as Ht2 by reflexivity.
  assert (containerRef w2 = Some container) as Hc2 by reflexivity.
  assert ((decompose (decompose title).1).2 <> []) as Hne2
    by (by rewrite Hid).
  rewrite (effect_with_letters o w2 (decompose title).1 container Ht2 Hc2 Hne2).
  rewrite Hid.
  cbn [titleRef lettersRef random scrollTriggerRef triggers].
  destruct (makeLetterParams_length o (decompose title).2 (random w2))
    as [_ Hcur2].
  destruct (makeLetterParams_length o (decompose title).2 (random w))
    as [_ Hcur].
  assert (random w2 = (makeLetterParams o (decompose title).2 (random w)).2)
    as Hr2 by reflexivity.
  assert (triggers w2
          = alter kill_trigger (length (triggers w))
              (triggers w
               ++ [{| st_trigger := container; st_start := "top top";
                      st_end := "+=100px"; st_scrub := scrub o;
                      st_letterParams :=
                        (makeLetterParams o (decompose title).2 (random w)).1;
                      st_killed := false |}])) as Htr2 by reflexivity.
  assert (length (triggers w2) = S (length (triggers w))) as Hlen2.
  { rewrite Htr2, length_alter, length_app. cbn. lia. }
  split; [done|]. split; [done|]. split; [rewrite Hcur2, Hr2, Hcur; lia|].
  split; [by rewrite Hlen2|]. split.
  - rewrite lookup_app_l by lia. rewrite Htr2.
    rewrite list_lookup_alter_eq, list_lookup_middle by done. reflexivity.
  - rewrite <- Hlen2. rewrite list_lookup_middle by done. reflexivity.
Qed.

End LetterHookFacts.

(** ** The canvas of the component [Hero]: explosions, stars, comets *)

Section HeroCanvasFacts.
Import JS Dom Gsap Hero HeroCanvas Props.

Lemma life_after_succ (n : nat) :
  life_after (S n) == life_after n - 0.04.
Proof.
  unfold life_after. rewrite Nat2Z.inj_succ. unfold Z.succ.
  rewrite inject_Z_plus. change (inject_Z 1) with 1. lra.
Qed.

Lemma life_after_positive (n : nat) : (n < 25)%nat -> 0 < life_after n.
Proof.
  intros H. assert (inject_Z (Z.of_nat n) <= 24) as Hq.
  { change 24 with (inject_Z 24). rewrite <- Zle_Qle. lia. }
  unfold life_after. lra.
Qed.

Lemma life_after_spent (n : nat) : (25 <= n)%nat -> life_after n <= 0.
Proof.
  intros H. assert (25 <= inject_Z (Z.of_nat n)) as Hq.
  { change 25 with (inject_Z 25). rewrite <- Zle_Qle. lia. }
  unfold life_after. lra.
Qed.

Lemma newParticles_spec (n : nat) :
  forall g : RNG,
    length (newParticles n g).1 = n
    /\ Forall (fun p => life p = 1 /\ p_x p = None /\ p_y p = None)
         (newParticles n g).1
    /\ draws (newParticles n g).2 = draws g
    /\ cursor (newParticles n g).2 = (cursor g + 3 * n)%nat.
Proof.
  induction n as [|n IH]; intros g; [repeat split; [constructor|simpl; lia]|].
  simpl.
  specialize (IH (mkRNG (draws g) (S (S (S (cursor g)))))).
  destruct (newParticles n _) as [ps g'].
  simpl in *. destruct IH as (Hl & Hall & Hd & Hc).
  split; [by rewrite Hl|]. split; [by constructor|]. split; [done|].
  rewrite Hc. lia.
Qed.

(** One update of the particles of an explosion whose particles all have
    the same [life] and no position. *)
Lemma update_same_age (a : Q) (e : Explosion) :
  Forall (fun p => life p == a /\ p_x p = None /\ p_y p = None)
    (particles e) ->
  Forall (fun p => life p == a - 0.04 /\ p_x p = None /\ p_y p = None)
    (particles (update e))
  /\ length (particles (update e))
     = (if ltb 0 (a - 0.04) then length (particles e) else 0%nat).
Proof.
  unfold update. cbn [particles].
  induction (particles e) as [|p ps IH]; intros Hall.
  - split; [constructor|by destruct (ltb 0 (a - 0.04))].
  - inversion Hall as [|? ? (Hlife & Hx & Hy) Hrest]; subst.
    destruct (IH Hrest) as [IH1 IH2]. cbn [map List.filter].
    assert (ltb 0 (life (moveParticle p)) = ltb 0 (a - 0.04)) as Hsame.
    { cbn [moveParticle life]. unfold ltb.
      destruct (Qlt_le_dec 0 (life p - 0.04)), (Qlt_le_dec 0 (a - 0.04));
        try done; lra. }
    rewrite Hsame. destruct (ltb 0 (a - 0.04)) eqn:E.
    + split; [|cbn [length]; by rewrite IH2].
      constructor; [|exact IH1].
      cbn [moveParticle life p_x p_y]. rewrite Hx, Hy.
      split; [lra|done].
    + split; [exact IH1|exact IH2].
Qed.

(** X15. An explosion of the hero canvas lives for exactly twenty-five
    updates, whatever [Math.random] returned when it was made: it keeps its
    eight particles for the first twenty-four and has none from the
    twenty-fifth on. All its particles have the same [life], 1 minus 0.04
    per update, and none of them ever has a position that is a number: the
    constructor sets no [x] and [y], so every [fillRect] of [draw] gets
    coordinates that are not numbers. *)
Theorem explosion_lasts_twenty_five_updates
    (x y : Q) (color : string) (g : RNG) (n : nat) :
  let e := Nat.iter n update (new_Explosion x y color g).1 in
  length (particles e) = (if (n <? 25)%nat then 8 else 0)%nat
  /\ Forall (fun p => life p == life_after n) (particles e)
  /\ Forall (fun c => exists a s, c = fillRect color a None None s s) (draw e).
Proof.
  cbv zeta. unfold new_Explosion.
  destruct (newParticles_spec 8 g) as (Hlen & Hall & _).
  destruct (newParticles 8 g) as [ps g']. cbn [fst snd] in *.
  set (e0 := {| e_x := x; e_y := y; e_color := color; particles := ps |}).
  assert (Forall (fun p => life p == life_after n
                           /\ p_x p = None /\ p_y p = None)
            (particles (Nat.iter n update e0))
          /\ length (particles (Nat.iter n update e0))
             = (if (n <? 25)%nat then 8 else 0)%nat
          /\ e_color (Nat.iter n update e0) = color) as (Hage & Hn & Hcol).
  { induction n as [|n IH].
    - change (Nat.iter 0 update e0) with e0. split; [|by split].
      eapply Forall_impl; [exact Hall|].
      intros p (Hl & Hx & Hy). rewrite Hl. split; [|done].
      unfold life_after. change (inject_Z (Z.of_nat 0)) with 0. lra.
    - destruct IH as (IH1 & IH2 & IH3).
      change (Nat.iter (S n) update e0) with (update (Nat.iter n update e0)).
      destruct (update_same_age (life_after n) _ IH1) as [H1 H2].
      split; [|split; [|exact IH3]].
      + eapply Forall_impl; [exact H1|].
        intros p (Hl & Hx & Hy). split; [|done].
        rewrite Hl. symmetry. apply life_after_succ.
      + rewrite H2, IH2.
        destruct (S n <? 25)%nat eqn:E.
        * apply Nat.ltb_lt in E.
          assert (ltb 0 (life_after n - 0.04) = true) as ->.
          { apply ltb_true. rewrite <- life_after_succ.
            by apply life_after_positive. }
          assert ((n <? 25)%nat = true) as -> by (apply Nat.ltb_lt; lia).
          done.
        * apply Nat.ltb_ge in E.
          assert (ltb 0 (life_after n - 0.04) = false) as ->; [|done].
          pose proof (life_after_spent (S n) E) as Hs.
          rewrite life_after_succ in Hs.
          unfold ltb. destruct (Qlt_le_dec 0 (life_after n - 0.04)); [lra|done]. }
  split; [exact Hn|]. split.
  - eapply Forall_impl; [exact Hage|]. by intros p (Hl & _).
  - unfold draw. rewrite Hcol. apply Forall_map.
    eapply Forall_impl; [exact Hage|].
    intros p (_ & Hx & Hy). cbn. rewrite Hx, Hy. by eexists _, _.
Qed.

Lemma hero_onUpdate_from_spec (prog : Q) (ls : list path) :
  forall (i : nat) (w : ScrollWorld),
    exists calls : list GsapCall,
      tweens (Hero.onUpdate_from prog i ls w) = tweens w ++ calls
      /\ length calls = length ls
      /\ innerHeight (Hero.onUpdate_from prog i ls w) = innerHeight w
      /\ letters (Hero.onUpdate_from prog i ls w) = letters w
      /\ draws (random (Hero.onUpdate_from prog i ls w)) = draws (random w)
      /\ cursor (random (Hero.onUpdate_from prog i ls w))
         = (cursor (random w) + length ls)%nat
      /\ forall (k : nat) (l : path),
           ls !! k = Some l ->
           calls !! k
           = Some (gsap_to [l]
               {| v_y := Some (prog * (innerHeight w * 1.5 + yOffset (i + k)));
                  v_x := Some ((draws (random w) (cursor (random w) + k)%nat
                                - 0.5) * 300 * prog);
                  v_rotation := Some (rotSign (i + k) * 45 * prog);
                  v_opacity := Some (1 - prog);
                  v_duration := Some 0.1; v_stagger := None; v_delay := None;
                  v_ease := None; v_overwrite := true |}).
Proof.
  induction ls as [|l ls IH]; intros i w.
  - exists []. cbn. rewrite app_nil_r. repeat split; try done; lia.
  - cbn [Hero.onUpdate_from].
    set (w1 := updateLetter prog l i w).
    assert (tweens w1
            = tweens w ++ [gsap_to [l]
                {| v_y := Some (prog * (innerHeight w * 1.5 + yOffset i));
                   v_x := Some ((draws (random w) (cursor (random w)) - 0.5)
                                * 300 * prog);
                   v_rotation := Some (rotSign i * 45 * prog);
                   v_opacity := Some (1 - prog);
                   v_duration := Some 0.1; v_stagger := None;
                   v_delay := None; v_ease := None; v_overwrite := true |}])
      as Ht1 by reflexivity.
    assert (innerHeight w1 = innerHeight w) as Hh1 by reflexivity.
    assert (letters w1 = letters w) as Hl1 by reflexivity.
    assert (draws (random w1) = draws (random w)) as Hd1 by reflexivity.
    assert (cursor (random w1) = S (cursor (random w))) as Hc1 by reflexivity.
    destruct (IH (S i) w1) as (calls & Ht & Hl & Hh & Hls & Hd & Hc & Hk).
    clearbody w1.
    eexists (_ :: calls). rewrite Ht, Ht1, <- app_assoc. cbn [app].
    split; [reflexivity|]. split; [cbn; by rewrite Hl|].
    split; [by rewrite Hh|]. split; [by rewrite Hls|].
    split; [by rewrite Hd|]. split; [rewrite Hc, Hc1; cbn; lia|].
    intros [|k] l' Hl'.
    + cbn in Hl'. injection Hl' as <-. cbn [lookup list_lookup].
      rewrite !Nat.add_0_r. reflexivity.
    + cbn in Hl'.
      match goal with |- (?c :: calls) !! S k = _ =>
        change ((c :: calls) !! S k) with (calls !! k)
      end.
      rewrite (Hk k l' Hl'), Hh1, Hd1, Hc1.
      replace (S i + k)%nat with (i + S k)%nat by lia.
      replace (S (cursor (random w)) + k)%nat
        with (cursor (random w) + S k)%nat by lia.
      reflexivity.
Qed.

(** X16. One run of the scroll handler of [Hero] sends exactly one [gsap.to]
    per letter, in the order of the letters, and takes one random number per
    letter. Of what it sends for a letter, only the horizontal offset
    depends on [Math.random]: the vertical offset, the rotation and the
    opacity are functions of the progress, the window height and the index
    of the letter. The horizontal offset lies within 150 pixels times the
    progress on either side. *)
Theorem hero_scroll_update_shape (prog : Q) (w : ScrollWorld) :
  unit_interval (random w) -> 0 <= prog ->
  exists calls : list GsapCall,
    tweens (Hero.onUpdate prog w) = tweens w ++ calls
    /\ length calls = length (letters w)
    /\ cursor (random (Hero.onUpdate prog w))
       = (cursor (random w) + length (letters w))%nat
    /\ forall (k : nat) (l : path),
         letters w !! k = Some l ->
         exists xDist : Q,
           calls !! k
           = Some (gsap_to [l]
               {| v_y := Some (prog * (innerHeight w * 1.5 + yOffset k));
                  v_x := Some xDist;
                  v_rotation := Some (rotSign k * 45 * prog);
                  v_opacity := Some (1 - prog);
                  v_duration := Some 0.1; v_stagger := None; v_delay := None;
                  v_ease := None; v_overwrite := true |})
           /\ - (150 * prog) <= xDist /\ xDist <= 150 * prog.
Proof.
  intros Hg Hp. unfold Hero.onUpdate.
  destruct (hero_onUpdate_from_spec prog (letters w) 0 w)
    as (calls & Ht & Hl & _ & _ & _ & Hc & Hk).
  exists calls. split; [exact Ht|]. split; [exact Hl|]. split; [exact Hc|].
  intros k l Hkl. eexists. split; [exact (Hk k l Hkl)|].
  destruct (Hg (cursor (random w) + k)%nat) as [H0 H1].
  split; nra.
Qed.

(** One update of a star keeps its fade step up to sign and keeps its alpha
    within one step of the interval from 0.1 to 1. *)
Lemma Star_update_invariant (f : Q) (s : Star) :
  0 < f ->
  ((fade s == f /\ 0.1 - f < alpha s /\ alpha s < 1)
   \/ (fade s == - f /\ 0.1 < alpha s /\ alpha s < 1 + f)) ->
  (fade (Star_update s) == f
   /\ 0.1 - f < alpha (Star_update s) /\ alpha (Star_update s) < 1)
  \/ (fade (Star_update s) == - f
      /\ 0.1 < alpha (Star_update s) /\ alpha (Star_update s) < 1 + f).
Proof.
  intros Hf H. unfold Star_update. cbn [fade alpha].
  unfold leb.
  destruct (Qlt_le_dec (alpha s + fade s) 1) as [Hlt|Hge];
    destruct (Qlt_le_dec 0.1 (alpha s + fade s)) as [Hlo|Hhi];
    cbn [orb];
    destruct H as [(Hfd & Ha & Hb)|(Hfd & Ha & Hb)];
    try (left; split; [lra|split; lra]);
    try (right; split; [lra|split; lra]).
Qed.

(** X17. A star never fades out and never changes place: on every frame its
    alpha lies between 0.085 and 1.015 (within one fade step of the interval
    from 0.1 to 1 in which it turns round), its fade step keeps the size it
    was given, between 0.005 and 0.015, and its position and size are those
    of its construction. *)
Theorem star_twinkles_within_bounds (width height : Q) (g : RNG) (n : nat) :
  unit_interval g ->
  let s0 := (Star_reset width height g).1 in
  let s := Nat.iter n Star_update s0 in
  (0.085 < alpha s /\ alpha s < 1.015)
  /\ (0.005 <= fade s0 /\ fade s0 < 0.015)
  /\ (fade s == fade s0 \/ fade s == - fade s0)
  /\ s_x s = s_x s0 /\ s_y s = s_y s0 /\ s_size s = s_size s0.
Proof.
  intros Hg. cbv zeta. unfold Star_reset. cbv [Math_random]. cbn [fst].
  set (s0 := {| s_x := _ |}).
  destruct (Hg (S (S (S (cursor g))))) as [Ha0 Ha1].
  destruct (Hg (S (S (S (S (cursor g)))))) as [Hf0 Hf1].
  cbn [draws cursor] in s0.
  assert (0.005 <= fade s0 /\ fade s0 < 0.015) as Hfade
    by (subst s0; cbn [fade]; split; lra).
  assert (((fade (Nat.iter n Star_update s0) == fade s0
            /\ 0.1 - fade s0 < alpha (Nat.iter n Star_update s0)
            /\ alpha (Nat.iter n Star_update s0) < 1)
           \/ (fade (Nat.iter n Star_update s0) == - fade s0
               /\ 0.1 < alpha (Nat.iter n Star_update s0)
               /\ alpha (Nat.iter n Star_update s0) < 1 + fade s0))
          /\ s_x (Nat.iter n Star_update s0) = s_x s0
          /\ s_y (Nat.iter n Star_update s0) = s_y s0
          /\ s_size (Nat.iter n Star_update s0) = s_size s0)
    as (Hinv & Hx & Hy & Hs).
  { induction n as [|n IH].
    - change (Nat.iter 0 Star_update s0) with s0. split; [|done]. left.
      split; [reflexivity|]. subst s0. cbn [alpha fade] in *. split; lra.
    - destruct IH as (IH & IHx & IHy & IHs).
      change (Nat.iter (S n) Star_update s0)
        with (Star_update (Nat.iter n Star_update s0)).
      split; [apply Star_update_invariant; [lra|exact IH]|].
      cbn [Star_update s_x s_y s_size]. done. }
  split; [|split; [exact Hfade|split; [|done]]].
  - destruct Hinv as [(_ & ? & ?)|(_ & ? & ?)]; split; lra.
  - destruct Hinv as [(? & _)|(? & _)]; [by left|by right].
Qed.

Lemma Comet_reset_spec (trig : Trig) (width height : Q) (g : RNG) :
  opacity (Comet_reset trig width height g).1 = 0
  /\ state (Comet_reset trig width height g).1 = state_in
  /\ c_y (Comet_reset trig width height g).1
     = draws g (S (cursor g)) * - height
  /\ cursor (Comet_reset trig width height g).2 = (cursor g + 6)%nat
  /\ draws (Comet_reset trig width height g).2 = draws g.
Proof.
  unfold Comet_reset. cbv [Math_random randomIndex]. cbn.
  repeat split. lia.
Qed.

(** X18. The opacity of a comet follows its state through every update:
    below 1 while the comet fades in, between 1 and 1.05 once it flies. A
    comet whose new position is on the canvas moves there, keeps or raises
    its opacity, pushes no explosion and takes no random number. A comet
    whose new position is off the canvas, below the bottom edge or beyond
    the right or the left edge, starts again with opacity 0; it pushes one
    explosion if that position is within the band from 100 pixels above the
    bottom edge to 10 pixels below it, and none otherwise. The explosion
    sits at that position and has eight particles. *)
Theorem comet_update_fades_in_and_bursts_in_band
    (trig : Trig) (width height : Q) (c : Comet) (g : RNG) :
  faded_in c ->
  let r := Comet_update trig width height c g in
  let c' := r.1.1 in
  let pushed := r.1.2 in
  let x := c_x c + Math_cos trig (angle c) * speed c in
  let y := c_y c + Math_sin trig (angle c) * speed c in
  faded_in c'
  /\ ((~ off_canvas width height x y
       /\ pushed = [] /\ r.2 = g
       /\ c_x c' = x /\ c_y c' = y /\ opacity c <= opacity c')
      \/ (off_canvas width height x y
          /\ opacity c' = 0 /\ state c' = state_in
          /\ ((~ (height - 100 < y /\ y < height + 10)
               /\ pushed = [] /\ cursor r.2 = (cursor g + 6)%nat)
              \/ exists e : Explosion,
                   pushed = [e]
                   /\ in_band height e
                   /\ e_x e = x /\ e_y e = y
                   /\ length (particles e) = 8%nat
                   /\ cursor r.2 = (cursor g + 30)%nat))).
Proof.
  intros Hc. cbv zeta. unfold Comet_update.
  set (x := c_x c + Math_cos trig (angle c) * speed c).
  set (y := c_y c + Math_sin trig (angle c) * speed c).
  destruct (ltb height y || ltb width x || ltb x 0) eqn:Hout.
  - assert (off_canvas width height x y) as Hoff.
    { apply orb_true_iff in Hout as [Hout|Hout];
        [apply orb_true_iff in Hout as [Hout|Hout]|];
        apply ltb_true in Hout; unfold off_canvas; auto. }
    destruct (ltb (height - 100) y && ltb y (height + 10)) eqn:Hband.
    + unfold new_Explosion.
      destruct (newParticles_spec 8 g) as (Hlen & _ & Hd & Hcur).
      destruct (newParticles 8 g) as [ps g1]. cbn [fst snd] in *.
      destruct (Comet_reset_spec trig width height g1)
        as (Ho & Hs & _ & Hcur' & _).
      apply andb_true_iff in Hband as [Hb1 Hb2].
      apply ltb_true in Hb1. apply ltb_true in Hb2.
      destruct (state c);
        destruct (Comet_reset trig width height g1) as [c' g2];
        cbn [fst snd] in *;
        (split; [unfold faded_in; rewrite Hs, Ho; lra|]);
        right; (split; [exact Hoff|]); (split; [exact Ho|]);
        (split; [exact Hs|]); right; eexists; (split; [reflexivity|]);
        (split; [by split|]); cbn [e_x e_y particles];
        repeat split; try done; lia.
    + assert (~ (height - 100 < y /\ y < height + 10)) as Hnb.
      { intros [H1 H2]. apply ltb_true in H1. apply ltb_true in H2.
        rewrite H1, H2 in Hband. discriminate Hband. }
      destruct (Comet_reset_spec trig width height g)
        as (Ho & Hs & _ & Hcur' & _).
      destruct (state c);
        destruct (Comet_reset trig width height g) as [c' g2];
        cbn [fst snd] in *;
        (split; [unfold faded_in; rewrite Hs, Ho; lra|]);
        right; (split; [exact Hoff|]); (split; [exact Ho|]);
        (split; [exact Hs|]); left; (split; [exact Hnb|]); by split.
  - assert (~ off_canvas width height x y) as Hon.
    { apply orb_false_iff in Hout as [Hout H3].
      apply orb_false_iff in Hout as [H1 H2].
      intros [H|[H|H]]; apply ltb_true in H; congruence. }
    unfold faded_in in Hc |- *.
    destruct (state c) eqn:Hs; cbn [fst snd opacity state c_x c_y].
    + unfold leb. destruct (Qlt_le_dec (opacity c + 0.05) 1).
      * split; [lra|]. left. split; [exact Hon|]. repeat split; lra.
      * split; [lra|]. left. split; [exact Hon|]. repeat split; lra.
    + split; [lra|]. left. split; [exact Hon|]. repeat split; lra.
Qed.

End HeroCanvasFacts.

(** ** [InteractiveNetwork]: comets stay on the canvas *)

Section NetworkFrameFacts.
Import JS Network Props Framing.
Context (host : Host).

Local Arguments while : simpl never.

Lemma drawEach_all {A : Type} (d : A -> option (list DrawCall))
    (Q : DrawCall -> Prop) (G : A -> Prop) (objects : list A)
    (refs : list nat) :
  (forall o calls, G o -> d o = Some calls -> Forall Q calls) ->
  Forall (fun r => forall o, objects !! r = Some o -> G o) refs ->
  forall acc : list DrawCall,
    exists more,
      (drawEach d objects refs acc).1 = acc ++ more /\ Forall Q more.
Proof.
  intros Hd. induction refs as [|r refs IH]; intros Hrefs acc; simpl.
  - exists []. by rewrite app_nil_r.
  - apply Forall_cons in Hrefs as [Hr Hrefs].
    destruct (objects !! r) as [o|] eqn:Ho; [|by apply IH].
    destruct (d o) as [calls|] eqn:Hc.
    + destruct (IH Hrefs (acc ++ calls)) as (more & -> & Hm).
      exists (calls ++ more). rewrite app_assoc. split; [done|].
      apply Forall_app. split; [|done]. eapply Hd; [|eassumption]. by apply Hr.
    + exists []. by rewrite app_nil_r.
Qed.

(** A point between two points of the canvas is on the canvas. *)
Lemma between_on_canvas (canvas : Canvas) (x1 y1 x2 y2 t : Q) :
  on_canvas canvas x1 y1 -> on_canvas canvas x2 y2 ->
  0 <= t -> t <= 1 ->
  on_canvas canvas (x1 + (x2 - x1) * t) (y1 + (y2 - y1) * t).
Proof.
  unfold on_canvas. intros ((? & ?) & (? & ?)) ((? & ?) & (? & ?)) ? ?.
  repeat split; nra.
Qed.

Lemma drawLine_on_canvas (canvas : Canvas) (st : Settings)
    (l : AnimatedLine) (calls : list DrawCall) :
  line_on_canvas canvas l ->
  0 <= tailStartProgress l -> tailStartProgress l <= headProgress l ->
  headProgress l <= 1 ->
  drawLine st l = Some calls -> Forall (call_on_canvas canvas) calls.
Proof.
  intros [H1 H2] Ht Hth Hh. unfold drawLine.
  destruct (negb (isVisible l)); [by intros [= <-]|].
  destruct (leb 1 (headProgress l) && _); [by intros [= <-]|].
  destruct (ltb _ _ && ltb _ _ && ltb _ _); [by intros [= <-]|].
  destruct (color l); [|done]. intros [= <-].
  assert (on_canvas canvas
            (pt_x (p1 l) + (pt_x (p2 l) - pt_x (p1 l)) * headProgress l)
            (pt_y (p1 l) + (pt_y (p2 l) - pt_y (p1 l)) * headProgress l))
    as Hhead by (apply between_on_canvas; try done; lra).
  assert (on_canvas canvas
            (pt_x (p1 l) + (pt_x (p2 l) - pt_x (p1 l)) * tailStartProgress l)
            (pt_y (p1 l) + (pt_y (p2 l) - pt_y (p1 l)) * tailStartProgress l))
    as Htail by (apply between_on_canvas; try done; lra).
  constructor; [by split|]. constructor; [done|constructor].
Qed.

Lemma drawStaticPoints_on_canvas (canvas : Canvas) (st : Settings)
    (points : list Point) :
  Forall (fun p => on_canvas canvas (pt_x p) (pt_y p)) points ->
  Forall (call_on_canvas canvas) (drawStaticPoints st points).
Proof.
  intros H. unfold drawStaticPoints. destruct (Qeq_bool _ 0); [done|].
  apply Forall_map. eapply Forall_impl; [exact H|]. by intros p Hp.
Qed.

(** A tween never activates a line and never moves the points of one. *)
Lemma renderTween_lines (dt : Q) (t : Tween) (w : World) :
  let w' := (renderTween host dt t w).1 in
  activeLinesRef w' ⊆ activeLinesRef w
  /\ (activeLinesRef w = [] -> activeLinesRef w' = [])
  /\ forall r l', lineObjects w' !! r = Some l' ->
       exists l, lineObjects w !! r = Some l
                 /\ p1 l' = p1 l /\ p2 l' = p2 l.
Proof.
  cbv zeta. unfold renderTween. destruct (target t) as [this|this].
  - destruct (lineObjects w !! this) as [l|] eqn:Hl;
      [|split; [done|split; [done|intros r l' ?; by exists l']]].
    assert (this < length (lineObjects w))%nat as Hlt
      by (eapply lookup_lt_Some; eassumption).
    unfold line_onUpdate. cbn [lineObjects set_lineObjects settings].
    rewrite list_lookup_insert_eq by done.
    cbn [headProgress p1 p2 isVisible color]. rewrite list_insert_insert_eq.
    assert (forall l0 r l',
              p1 l0 = p1 l -> p2 l0 = p2 l ->
              <[this := l0]> (lineObjects w) !! r = Some l' ->
              exists l1, lineObjects w !! r = Some l1
                         /\ p1 l' = p1 l1 /\ p2 l' = p2 l1) as Hins.
    { intros l0 r l' Hp1 Hp2 Hr. destruct (decide (r = this)) as [->|Hne].
      - rewrite list_lookup_insert_eq in Hr by done.
        injection Hr as <-. by exists l.
      - rewrite list_lookup_insert_ne in Hr by done. by exists l'. }
    destruct (leb _ _).
    + unfold line_onComplete. cbn [lineObjects set_lineObjects settings].
      rewrite list_lookup_insert_eq by done. rewrite list_insert_insert_eq.
      cbn. split; [|split].
      * intros r Hr. apply list_elem_of_In, filter_In in Hr.
        destruct Hr as [Hr _]. by apply list_elem_of_In.
      * by intros ->.
      * intros r l'. by apply Hins.
    + cbn. split; [done|]. split; [done|]. intros r l'. by apply Hins.
  - destruct (explosionObjects w !! this);
      [|split; [done|split; [done|intros r l' ?; by exists l']]].
    destruct (leb _ _); cbn;
      (split; [done|split; [done|intros r l' ?; by exists l']]).
Qed.

Lemma advance_from_lines (dt : Q) (ts : list Tween) :
  forall (kept : list Tween) (w : World),
    let w' := advance_from host dt ts kept w in
    activeLinesRef w' ⊆ activeLinesRef w
    /\ (activeLinesRef w = [] -> activeLinesRef w' = [])
    /\ forall r l', lineObjects w' !! r = Some l' ->
         exists l, lineObjects w !! r = Some l
                   /\ p1 l' = p1 l /\ p2 l' = p2 l.
Proof.
  induction ts as [|t ts IH]; intros kept w; simpl.
  - split; [done|]. split; [done|]. intros r l' ?. by exists l'.
  - pose proof (renderTween_lines dt t w) as (H1 & H2 & H3).
    destruct (renderTween host dt t w) as [w1 r1]. simpl in *.
    destruct (IH (kept ++ option_list r1) w1) as (I1 & I2 & I3).
    split; [by etrans|]. split; [by intros ?; apply I2, H2|].
    intros r l' Hr. destruct (I3 r l' Hr) as (l1 & Hl1 & -> & ->).
    destruct (H3 r l1 Hl1) as (l & Hl & -> & ->). by exists l.
Qed.

(** The points [createPoints] makes lie on the canvas. *)
Lemma createPoints_on_canvas (w : World) (canvas : Canvas) :
  canvasRef w = Some canvas ->
  unit_interval (random w) ->
  0 <= width canvas -> 0 <= height canvas ->
  Forall (fun p => on_canvas canvas (pt_x p) (pt_y p))
    (pointsRef (createPoints w))
  /\ canvasRef (createPoints w) = Some canvas
  /\ unit_interval (random (createPoints w))
  /\ activeLinesRef (createPoints w) = activeLinesRef w
  /\ lineObjects (createPoints w) = lineObjects w
  /\ isInitialized (createPoints w) = isInitialized w
  /\ resizeListener (createPoints w) = resizeListener w
  /\ spawnInterval (createPoints w) = spawnInterval w.
Proof.
  intros Hc Hg Hw Hh. unfold createPoints. rewrite Hc.
  destruct (pushPoints_spec canvas (numPoints (settings w)) 0
              (set_pointsRef [] w))
    as (new & g & -> & _ & _ & _ & Hd & _ & Hin).
  cbn in Hd, Hin |- *. split; [|split; [done|split; [|done]]].
  - eapply Forall_impl; [by apply Hin|].
    intros p (? & ? & ? & ?). by repeat split.
  - by apply (unit_interval_stream (random w)).
Qed.

(** The canvas after [resizeCanvas] has the size of its parent, rounded
    down. *)
Lemma resizeCanvas_size (w : World) (canvas : Canvas) :
  canvasRef w = Some canvas ->
  match parentElement canvas with
  | Some (offsetWidth, offsetHeight) => 0 <= offsetWidth /\ 0 <= offsetHeight
  | None => True
  end ->
  0 <= width canvas -> 0 <= height canvas ->
  exists canvas',
    resizeCanvas w = set_canvasRef (Some canvas') w
    /\ parentElement canvas' = parentElement canvas
    /\ 0 <= width canvas' /\ 0 <= height canvas'
    /\ (parentElement canvas = None -> canvas' = canvas).
Proof.
  intros Hc Hp Hw Hh. unfold resizeCanvas. rewrite Hc.
  destruct (parentElement canvas) as [[ow oh]|] eqn:Hpe.
  - eexists. split; [reflexivity|]. cbn. split; [done|].
    destruct Hp as [Hp1 Hp2].
    apply Qfloor_resp_le in Hp1, Hp2. rewrite Zle_Qle in Hp1, Hp2.
    split; [exact Hp1|]. split; [exact Hp2|done].
  - exists canvas. split; [|by repeat split].
    destruct w; cbn in *. by subst.
Qed.

Lemma handle_framed (e : Event) (w w' : World) :
  framed w -> handle host e w = Some w' -> framed w'.
Proof.
  intros Hfr. pose proof Hfr as (Hg & Hoff & Hcv). destruct e; simpl.
  - (* the effect *)
    intros [= <-]. unfold mount.
    destruct (isInitialized w) eqn:Hi; [exact Hfr|].
    destruct (canvasRef w) as [canvas|] eqn:Hc; [|exact Hfr].
    destruct Hcv as ((Hw & Hh) & Hp & Hpts & Hact).
    destruct (Hoff eq_refl) as (Hnil & _ & _).
    destruct (resizeCanvas_size (set_isInitialized true (set_ctxRef true w))
                canvas Hc Hp Hw Hh) as (canvas' & -> & Hpe & Hw' & Hh' & _).
    match goal with |- context [createPoints ?w1] =>
      destruct (createPoints_on_canvas w1 canvas' eq_refl Hg Hw' Hh')
        as (Hin & Hc' & Hg' & Ha' & Hl' & Hi' & _);
      set (w2 := createPoints w1) in *
    end.
    clearbody w2. cbn in Ha', Hl', Hi'.
    split; [exact Hg'|]. split; [cbn; by rewrite Hi'|].
    cbn [canvasRef set_spawnInterval set_ticker set_resizeListener
         pointsRef activeLinesRef lineObjects].
    rewrite Hc', Hpe, Ha', Hnil. by repeat split.
  - (* the cleanup *)
    intros [= <-]. destruct (isInitialized w) eqn:Hi; [|exact Hfr].
    split; [done|]. split; [done|]. cbn.
    destruct (canvasRef w) as [canvas|]; [|done].
    destruct Hcv as (? & ? & ? & _).
    split; [done|]. split; [done|]. split; [done|constructor].
  - (* a resize *)
    intros [= <-]. destruct (resizeListener w) eqn:Hr; [|exact Hfr].
    assert (isInitialized w = true) as Hi.
    { destruct (isInitialized w); [done|].
      destruct (Hoff eq_refl) as (_ & ? & _). congruence. }
    unfold handleResize.
    destruct (canvasRef w) as [canvas|] eqn:Hc.
    + destruct Hcv as ((Hw & Hh) & Hp & Hpts & Hact).
      destruct (resizeCanvas_size w canvas Hc Hp Hw Hh)
        as (canvas' & -> & Hpe & Hw' & Hh' & _).
      match goal with |- context [createPoints ?w1] =>
        destruct (createPoints_on_canvas w1 canvas' eq_refl Hg Hw' Hh')
          as (Hin & Hc' & Hg' & Ha' & Hl' & Hi' & _);
        set (w2 := createPoints w1) in *
      end.
      clearbody w2. cbn in Ha', Hl', Hi'.
      split; [exact Hg'|]. split; [rewrite Hi', Hi; done|].
      rewrite Hc', Hpe, Ha'. by repeat split.
    + unfold resizeCanvas, createPoints. rewrite Hc. cbn. rewrite Hc.
      split; [done|]. split; [cbn; by rewrite Hi|]. cbn. by rewrite Hc.
  - (* a frame *)
    intros [= <-]. destruct (ticker w); [|exact Hfr].
    destruct (updateNetwork_shell w) as (d & ->). exact Hfr.
  - (* the spawn timer *)
    destruct (spawnInterval w) eqn:Hsp; [|intros [= <-]; exact Hfr].
    assert (isInitialized w = true) as Hi.
    { destruct (isInitialized w); [done|].
      destruct (Hoff eq_refl) as (_ & _ & ?). congruence. }
    destruct (spawnRandomLine_shell host w) as [->|(s & r & Hs & Hn & ->)];
      [intros [= <-]; exact Hfr|].
    intros [= <-].
    destruct (search_valid_result host _ _ _ _ _ Hs) as [Hd _].
    assert (unit_interval (gen s)) as Hgs
      by (by apply (unit_interval_stream (random w))).
    destruct (r && qualifies host _ _ s) eqn:Hq.
    + apply andb_true_iff in Hq as [_ Hq].
      destruct (createLine_shell host _ _ _ (set_random (gen s) w) Hq)
        as (a & b & Ha & Hb & ->).
      split; [cbn; by apply (unit_interval_stream (gen s))|].
      split; [cbn; rewrite Hi; done|].
      cbn [canvasRef pointsRef activeLinesRef lineObjects set_activeLinesRef
           set_tweens set_lineObjects set_random].
      destruct (canvasRef w) as [canvas|]; [|done].
      destruct Hcv as (Hsz & Hp & Hpts & Hact).
      split; [done|]. split; [done|]. split; [done|].
      assert (forall c0,
                line_on_canvas canvas
                  {| p1 := a; p2 := b; headProgress := 0;
                     tailStartProgress := 0; isVisible := true;
                     color := c0 |}) as Hnew.
      { intros c0. rewrite Forall_forall in Hpts. split; cbn.
        - apply Hpts. eapply index_elem_of; eassumption.
        - apply Hpts. eapply index_elem_of; eassumption. }
      assert (forall r0 l,
                (forall l0, lineObjects w !! r0 = Some l0 ->
                            line_on_canvas canvas l0) ->
                (lineObjects w
                 ++ [{| p1 := a; p2 := b; headProgress := 0;
                        tailStartProgress := 0; isVisible := true;
                        color :=
                          index (lineColors (settings w))
                            (randomIndex (length (lineColors (settings w)))
                               (gen s)).1 |}]) !! r0 = Some l ->
                line_on_canvas canvas l) as Hlook.
      { intros r0 l Hr0 Hl.
        apply lookup_app_Some in Hl as [Hl|[_ Hl]]; [by apply Hr0|].
        apply list_lookup_singleton_Some in Hl as [_ <-]. apply Hnew. }
      apply Forall_app. split.
      * eapply Forall_impl; [exact Hact|]. intros r0 Hr0 l Hl.
        by apply (Hlook r0).
      * constructor; [|done]. intros l Hl.
        apply (Hlook (length (lineObjects w)) l); [|exact Hl].
        intros l0 Hl0. apply lookup_lt_Some in Hl0. lia.
    + split; [exact Hgs|exact (proj2 Hfr)].
  - (* the scheduler *)
    intros [= <-]. unfold advance.
    pose proof (advance_from_shell host dt (tweens w) [] (set_tweens [] w))
      as (_ & Hc & _ & Hp & Hi & Hr & _ & Hs & _ & Hrnd & _).
    pose proof (advance_from_lines dt (tweens w) [] (set_tweens [] w))
      as (Hsub & Hnil & Hl).
    cbn in Hc, Hp, Hi, Hr, Hs, Hrnd, Hsub, Hnil, Hl.
    split; [by rewrite Hrnd|]. split.
    + rewrite Hi, Hr, Hs. intros Hf. destruct (Hoff Hf) as (? & ? & ?).
      split; [by apply Hnil|done].
    + rewrite Hc, Hp. destruct (canvasRef w) as [canvas|]; [|done].
      destruct Hcv as (? & ? & ? & Hact).
      split; [done|]. split; [done|]. split; [done|].
      apply Forall_forall. intros r Hr' l' Hl'.
      destruct (Hl r l' Hl') as (l & Hl0 & Hp1 & Hp2).
      rewrite Forall_forall in Hact.
      pose proof (Hact r (Hsub r Hr') l Hl0) as [? ?].
      unfold line_on_canvas. by rewrite Hp1, Hp2.
Qed.

Lemma run_framed_steady (es : list Event) :
  forall w w' : World,
    0 <= cometTailLength (settings w) ->
    framed w -> steady w -> Forall forward es ->
    run host es w = Some w' ->
    framed w' /\ steady w' /\ settings w' = settings w.
Proof.
  induction es as [|e es IH]; intros w w' Hlen Hfr Hst Hfw; simpl.
  - by intros [= <-].
  - apply Forall_cons in Hfw as [He Hfw].
    destruct (handle host e w) as [w1|] eqn:Hh; [|done]. intros Hrun.
    pose proof (handle_settings host e w w1 Hh) as Hs.
    destruct (IH w1 w') as (? & ? & Hs'); try done.
    + by rewrite Hs.
    + by eapply handle_framed.
    + by eapply handle_steady.
    + split; [done|]. split; [done|congruence].
Qed.

(** X19. Comets never leave the canvas. Take a set-up whose generator is a
    proper one, whose canvas and parent have sizes that are not negative and
    whose points and active lines lie on the canvas, with a tail length that
    is not negative and a clock that does not run backwards. Whatever
    happens then, resizes and new runs of the effect included, every static
    point, every tail and every head that a frame paints lies on the canvas
    as it is at that frame. *)
Theorem comets_are_painted_on_the_canvas (es : list Event) (w w' : World)
    (canvas : Canvas) :
  0 <= cometTailLength (settings w) ->
  framed w -> steady w -> Forall forward es ->
  run host es w = Some w' ->
  canvasRef w' = Some canvas ->
  framed w'
  /\ exists block : list DrawCall,
       drawn (updateNetwork w') = drawn w' ++ block
       /\ Forall (call_on_canvas canvas) block.
Proof.
  intros Hlen Hfr Hst Hfw Hrun Hc.
  destruct (run_framed_steady es w w' Hlen Hfr Hst Hfw Hrun)
    as (Hfr' & [Hsteps _] & Hs).
  split; [exact Hfr'|].
  destruct Hfr' as (_ & _ & Hcv). rewrite Hc in Hcv.
  destruct Hcv as (_ & _ & Hpts & Hact).
  unfold updateNetwork. rewrite Hc.
  destruct (ctxRef w'); [|exists []; by rewrite app_nil_r].
  assert (Forall (fun r => forall l, lineObjects w' !! r = Some l ->
                    line_on_canvas canvas l
                    /\ 0 <= tailStartProgress l
                    /\ tailStartProgress l <= headProgress l
                    /\ headProgress l <= 1) (activeLinesRef w')) as Hlines.
  { eapply Forall_impl; [exact Hact|]. intros r Hr l Hl.
    split; [by apply Hr|].
    rewrite Forall_forall in Hsteps.
    destruct (Hsteps l) as (H0 & H1 & Ht);
      [eapply list_elem_of_lookup_2; eassumption|].
    rewrite Hs in Ht. rewrite Ht.
    destruct (Math_max_spec 0 (headProgress l - cometTailLength (settings w)))
      as [[? ->]|[? ->]]; repeat split; lra. }
  destruct (drawEach_all (drawLine (settings w')) (call_on_canvas canvas)
              (fun l => line_on_canvas canvas l
                        /\ 0 <= tailStartProgress l
                        /\ tailStartProgress l <= headProgress l
                        /\ headProgress l <= 1)
              (lineObjects w') (activeLinesRef w'))
    with (acc := (drawn w' ++ [clearRect (width canvas) (height canvas)])
                 ++ drawStaticPoints (settings w') (pointsRef w'))
    as (comets & Hcomets & Hin); [|exact Hlines|].
  { intros l calls (Hl & H0 & H1 & H2). by apply drawLine_on_canvas. }
  destruct (drawEach (drawLine (settings w')) _ _ _) as [acc ok].
  cbn [fst] in Hcomets. subst acc.
  pose proof (drawStaticPoints_on_canvas canvas (settings w') (pointsRef w')
                Hpts) as Hstatic.
  destruct ok.
  - destruct (drawEach_all drawExplosion (call_on_canvas canvas)
                (fun _ => True) (explosionObjects w')
                (activeExplosionsRef w'))
      with (acc := ((drawn w'
                     ++ [clearRect (width canvas) (height canvas)])
                    ++ drawStaticPoints (settings w') (pointsRef w'))
                   ++ comets)
      as (bursts & Hbursts & Hb).
    { intros e calls _. unfold drawExplosion.
      destruct (leb _ _ || leb _ _); [by intros [= <-]|].
      destruct (ex_color e); [|done]. intros [= <-]. by repeat constructor. }
    { apply Forall_forall. done. }
    cbn [drawn set_drawn]. rewrite Hbursts.
    exists (clearRect (width canvas) (height canvas)
            :: drawStaticPoints (settings w') (pointsRef w')
            ++ comets ++ bursts).
    split; [by rewrite <- !app_assoc|].
    constructor; [done|]. by rewrite !Forall_app.
  - cbn [drawn set_drawn].
    exists (clearRect (width canvas) (height canvas)
            :: drawStaticPoints (settings w') (pointsRef w') ++ comets).
    split; [by rewrite <- !app_assoc|].
    constructor; [done|]. by rewrite !Forall_app.
Qed.

End NetworkFrameFacts.

(** ** The further properties at work on the examples *)

Section FurtherWitnesses.
Import JS Dom Gsap Examples MoreExamples.

Lemma constant_unit_interval (r : Q) :
  0 <= r -> r < 1 -> Props.unit_interval (constant r).
Proof. intros H0 H1 k. by split. Qed.

Lemma mountDraws_unit_interval (c : nat) :
  Props.unit_interval (mkRNG mountDraws c).
Proof.
  intros k. cbn [draws]. unfold mountDraws.
  do 7 (destruct k as [|k]; [split; [discriminate|reflexivity]|]).
  split; [discriminate|reflexivity].
Qed.

Lemma lateDraws_unit_interval (c : nat) :
  Props.unit_interval (mkRNG lateDraws c).
Proof.
  intros k. cbn [draws]. unfold lateDraws.
  destruct (k <? 100)%nat, (Nat.even k), (k =? 100)%nat;
    (split; [discriminate|reflexivity]).
Qed.

(** [createPoints] on the canvas of [unmounted], 300 by 150. *)
Lemma createPoints_fills_canvas_witness :
  (Network.canvasRef Examples.unmounted
   = Some {| Network.width := 300; Network.height := 150;
             Network.parentElement := Some (1000, 600) |}
   /\ Props.unit_interval (Network.random Examples.unmounted))
  /\ length (Network.pointsRef (Network.createPoints Examples.unmounted))
     = 2%nat
  /\ map Network.pt_id
       (Network.pointsRef (Network.createPoints Examples.unmounted))
     = [0; 1]%nat.
Proof.
  pose proof (mountDraws_unit_interval 0) as Hg.
  split; [split; [reflexivity|exact Hg]|].
  destruct (createPoints_fills_canvas Examples.unmounted
              {| Network.width := 300; Network.height := 150;
                 Network.parentElement := Some (1000, 600) |}
              eq_refl Hg ltac:(done) ltac:(done)) as (Hl & Hid & _).
  split; [exact Hl|exact Hid].
Defined.

(** [flying] after its cleanup: frames, spawn ticks, resizes and the
    scheduler leave the canvas empty. *)
Lemma quiet_after_cleanup_witness :
  Forall (fun e => e <> Network.Mount) busy
  /\ exists w',
       Network.run exampleHost busy (Network.cleanup flying) = Some w'
       /\ Network.drawn w' = []
       /\ length (Network.lineObjects w') = 1%nat.
Proof.
  assert (Forall (fun e => e <> Network.Mount) busy) as H
    by (repeat constructor; discriminate).
  split; [exact H|].
  destruct (quiet_after_cleanup exampleHost flying busy H)
    as (w' & Hrun & _ & Hd & _ & _ & Hl).
  exists w'. split; [exact Hrun|]. split; [exact Hd|exact Hl].
Defined.

(** The search among the three points of [lateWorld]. *)
Lemma search_ends_on_existing_points_witness :
  (Props.unit_interval (mkRNG lateDraws 0)
   /\ (0 < length (Network.pointsRef lateWorld))%nat)
  /\ exists (s : Network.SearchState) (reached : bool) (a b : Network.Point),
       Network.search exampleHost 500 (Network.pointsRef lateWorld)
         (mkRNG lateDraws 0) = Some (s, reached)
       /\ index (Network.pointsRef lateWorld) (Network.p1Index s) = Some a
       /\ index (Network.pointsRef lateWorld) (Network.p2Index s) = Some b.
Proof.
  pose proof (lateDraws_unit_interval 0) as Hg.
  assert (0 < length (Network.pointsRef lateWorld))%nat as Hn
    by (vm_compute; lia).
  split; [split; [exact Hg|exact Hn]|].
  destruct (search_ends_on_existing_points exampleHost 500
              (Network.pointsRef lateWorld) (mkRNG lateDraws 0) Hg Hn)
    as (s & reached & a & b & Hs & Ha & Hb & _).
  exists s, reached, a, b. split; [exact Hs|]. split; [exact Ha|exact Hb].
Defined.

(** A network with a single point goes through effect, spawn ticks, frames
    and time without a single line. *)
Lemma no_comet_without_two_points_witness :
  Props.barren lonely
  /\ exists w',
       Network.run exampleHost
         [Network.Mount; Network.SpawnRepeat; Network.Tick;
          Network.Advance 1; Network.SpawnRepeat] lonely = Some w'
       /\ Network.lineObjects w' = [] /\ Network.tweens w' = [].
Proof.
  assert (Props.barren lonely) as H.
  { unfold Props.barren. cbn. repeat split; lia. }
  split; [exact H|].
  destruct (no_comet_without_two_points exampleHost
              [Network.Mount; Network.SpawnRepeat; Network.Tick;
               Network.Advance 1; Network.SpawnRepeat] lonely H)
    as (w' & Hrun & _ & _ & Hl & _ & _ & _ & Ht).
  exists w'. split; [exact Hrun|]. split; [exact Hl|exact Ht].
Defined.

(** The line of [flying] after one second of flight and a frame. *)
Lemma tails_follow_heads_witness :
  (0 <= Network.cometTailLength (Network.settings flying)
   /\ Props.steady flying
   /\ Forall Props.forward [Network.Advance 1; Network.Tick])
  /\ exists w',
       Network.run exampleHost [Network.Advance 1; Network.Tick] flying
       = Some w'
       /\ Forall (fun l =>
                    0 <= Network.tailStartProgress l
                    /\ Network.tailStartProgress l <= Network.headProgress l
                    /\ Network.headProgress l <= 1)
            (Network.lineObjects w').
Proof.
  assert (0 <= Network.cometTailLength (Network.settings flying)) as H0
    by done.
  assert (Props.steady flying) as H1.
  { split; repeat constructor; done. }
  assert (Forall Props.forward [Network.Advance 1; Network.Tick]) as H2.
  { repeat constructor. done. }
  split; [split; [exact H0|split; [exact H1|exact H2]]|].
  eexists. split; [reflexivity|].
  destruct (tails_follow_heads exampleHost
              [Network.Advance 1; Network.Tick] flying _ H0 H1 H2 eq_refl)
    as [_ Hall].
  eapply Forall_impl; [exact Hall|].
  intros l (Ha & Hb & Hc & _). split; [exact Ha|]. split; [exact Hb|exact Hc].
Defined.


(** The first comet of [ready]: three seconds of flight, then a second for
    its explosion. *)
Lemma comet_lives_and_leaves_witness :
  (0 < Network.lineAnimationDuration (Network.settings ready)
   /\ 0 < Network.explosionDuration (Network.settings ready)
   /\ Network.tweens ready = [] /\ Network.activeLinesRef ready = []
   /\ Network.activeExplosionsRef ready = []
   /\ Network.lineAnimationDuration (Network.settings ready) <= 3
   /\ Network.explosionDuration (Network.settings ready) <= 1)
  /\ exists w1,
       Network.spawnRandomLine exampleHost ready = Some w1
       /\ Network.lineObjects w1 <> Network.lineObjects ready
       /\ Network.activeLinesRef w1 = [0%nat]
       /\ Network.activeLinesRef (Network.advance exampleHost 3 w1) = []
       /\ Network.activeExplosionsRef (Network.advance exampleHost 3 w1)
          = [0%nat]
       /\ Network.tweens
            (Network.advance exampleHost 1
               (Network.advance exampleHost 3 w1)) = [].
Proof.
  assert (Network.lineAnimationDuration (Network.settings ready) <= 3) as Hd
    by done.
  assert (Network.explosionDuration (Network.settings ready) <= 1) as Hd'
    by done.
  assert (0 < Network.lineAnimationDuration (Network.settings ready)) as Hp
    by reflexivity.
  assert (0 < Network.explosionDuration (Network.settings ready)) as Hp'
    by reflexivity.
  split; [repeat split; done|].
  eexists. split; [reflexivity|].
  match goal with |- ?P /\ _ => assert P as Hne by discriminate end.
  split; [exact Hne|].
  destruct (comet_lives_and_leaves exampleHost ready _ 3 1 Hp Hp'
              eq_refl eq_refl eq_refl eq_refl Hne Hd Hd')
    as (l & _ & Ha1 & Ha2 & He2 & _ & _ & _ & Ht3).
  split; [exact Ha1|]. split; [exact Ha2|]. split; [exact He2|exact Ht3].
Defined.

(** The effect with the default options on a title of two letters. *)
Lemma mount_registers_live_trigger_witness :
  (Props.unit_interval (FallingLetters.random twoLetters)
   /\ 0 <= FallingLetters.maxHorizontalDrift FallingLetters.defaultOptions
   /\ 0 <= FallingLetters.maxRotation FallingLetters.defaultOptions
   /\ FallingLetters.scrollTriggerRef twoLetters = None
   /\ FallingLetters.scrollTriggerRef
        (FallingLetters.effect FallingLetters.defaultOptions twoLetters)
      = Some 0%nat)
  /\ exists inst,
       FallingLetters.triggers
         (FallingLetters.effect FallingLetters.defaultOptions twoLetters)
       !! 0%nat = Some inst
       /\ FallingLetters.st_killed inst = false
       /\ Forall (LetterProps.within_options FallingLetters.defaultOptions)
            (FallingLetters.st_letterParams inst).
Proof.
  assert (Props.unit_interval (FallingLetters.random twoLetters)) as Hg
    by (by apply constant_unit_interval).
  assert (0 <= FallingLetters.maxHorizontalDrift FallingLetters.defaultOptions)
    as Hd by done.
  assert (0 <= FallingLetters.maxRotation FallingLetters.defaultOptions)
    as Hr by done.
  split; [repeat split; done|].
  destruct (mount_registers_live_trigger FallingLetters.defaultOptions
              twoLetters 0 Hg Hd Hr eq_refl eq_refl)
    as (inst & Hi & Hk & _ & Hall & _).
  exists inst. split; [exact Hi|]. split; [exact Hk|exact Hall].
Defined.

(** A letter with delay factor 0.6 between progress 0.1 and the end of the
    trigger. *)
Lemma fall_progress_shape_witness :
  (0 <= FallingLetters.randomDelayFactor lateLetter /\ 0.1 <= 1 /\ 1 <= 1)
  /\ FallingLetters.letterFallProgress 0.1 lateLetter
     <= FallingLetters.letterFallProgress 1 lateLetter
  /\ FallingLetters.letterFallProgress 1 lateLetter <= 5 # 12.
Proof.
  assert (0 <= FallingLetters.randomDelayFactor lateLetter) as H0 by done.
  assert (0.1 <= 1) as H1 by done.
  assert (1 <= 1) as H2 by done.
  split; [split; [exact H0|split; [exact H1|exact H2]]|].
  destruct (fall_progress_shape 0.1 1 lateLetter H0 H1 H2)
    as (Hm & _ & Hb & _).
  split; [exact Hm|exact Hb].
Defined.

(** The hook on a title of two letters, mounted and cleaned up: a scroll
    update at progress 0.5 changes nothing. *)
Lemma cleanup_silences_the_hook_witness :
  (FallingLetters.scrollTriggerRef twoLetters = None
   /\ FallingLetters.scrollTriggerRef
        (FallingLetters.effect FallingLetters.defaultOptions twoLetters)
      = Some 0%nat)
  /\ FallingLetters.deliver 0 (FallingLetters.Update 0.5)
       (FallingLetters.cleanup
          (FallingLetters.effect FallingLetters.defaultOptions twoLetters))
     = Some (FallingLetters.cleanup
               (FallingLetters.effect FallingLetters.defaultOptions twoLetters))
  /\ FallingLetters.lettersRef
       (FallingLetters.cleanup
          (FallingLetters.effect FallingLetters.defaultOptions twoLetters))
     = [].
Proof.
  split; [split; reflexivity|].
  destruct (cleanup_silences_the_hook FallingLetters.defaultOptions
              twoLetters 0 eq_refl eq_refl) as (Hq & Hl & _).
  split; [exact (Hq (FallingLetters.Update 0.5))|exact Hl].
Defined.

(** The same hook mounted a second time. *)
Lemma remount_keeps_letters_redraws_parameters_witness :
  (FallingLetters.titleRef twoLetters
   = Some [Element ["letter"] [Text "A"]; Element ["letter"] [Text "B"]]
   /\ FallingLetters.containerRef twoLetters = Some 0%nat
   /\ FallingLetters.lettersRef
        (FallingLetters.effect FallingLetters.defaultOptions twoLetters)
      <> [])
  /\ FallingLetters.lettersRef
       (FallingLetters.effect FallingLetters.defaultOptions
          (FallingLetters.cleanup
             (FallingLetters.effect FallingLetters.defaultOptions twoLetters)))
     = FallingLetters.lettersRef
         (FallingLetters.effect FallingLetters.defaultOptions twoLetters)
  /\ FallingLetters.scrollTriggerRef
       (FallingLetters.effect FallingLetters.defaultOptions
          (FallingLetters.cleanup
             (FallingLetters.effect FallingLetters.defaultOptions twoLetters)))
     = Some 1%nat.
Proof.
  assert (FallingLetters.lettersRef
            (FallingLetters.effect FallingLetters.defaultOptions twoLetters)
          <> []) as Hne by discriminate.
  split; [split; [reflexivity|split; [reflexivity|exact Hne]]|].
  destruct (remount_keeps_letters_redraws_parameters
              FallingLetters.defaultOptions twoLetters
              [Element ["letter"] [Text "A"]; Element ["letter"] [Text "B"]]
              0 eq_refl eq_refl Hne) as (_ & Hl & _ & Hs & _).
  split; [exact Hl|exact Hs].
Defined.

(** The scroll handler of [Hero] at progress 0.5 with one letter. *)
Lemma hero_scroll_update_shape_witness :
  (Props.unit_interval (Hero.random oneLetterScroll) /\ 0 <= 0.5)
  /\ exists calls,
       Hero.tweens (Hero.onUpdate 0.5 oneLetterScroll)
       = Hero.tweens oneLetterScroll ++ calls
       /\ length calls = 1%nat.
Proof.
  assert (Props.unit_interval (Hero.random oneLetterScroll)) as Hg.
  { intros k. cbn. destruct (Nat.eqb k 0); split; done. }
  assert (0 <= 0.5) as Hp by done.
  split; [split; [exact Hg|exact Hp]|].
  destruct (hero_scroll_update_shape 0.5 oneLetterScroll Hg Hp)
    as (calls & Ht & Hl & _).
  exists calls. split; [exact Ht|exact Hl].
Defined.

(** A star on a canvas of 800 by 600, three frames old. *)
Lemma star_twinkles_within_bounds_witness :
  Props.unit_interval (constant 0.5)
  /\ 0.085 < HeroCanvas.alpha
               (Nat.iter 3 HeroCanvas.Star_update
                  (HeroCanvas.Star_reset 800 600 (constant 0.5)).1)
  /\ HeroCanvas.alpha
       (Nat.iter 3 HeroCanvas.Star_update
          (HeroCanvas.Star_reset 800 600 (constant 0.5)).1) < 1.015.
Proof.
  assert (Props.unit_interval (constant 0.5)) as Hg
    by (by apply constant_unit_interval).
  split; [exact Hg|].
  exact (proj1 (star_twinkles_within_bounds 800 600 (constant 0.5) 3 Hg)).
Defined.

(** The comet [landing] crosses the bottom edge and bursts. *)
Lemma comet_update_fades_in_and_bursts_in_band_witness :
  HeroCanvas.faded_in landing
  /\ HeroCanvas.faded_in
       (HeroCanvas.Comet_update exampleTrig 800 600 landing
          (constant 0.5)).1.1
  /\ length
       (HeroCanvas.Comet_update exampleTrig 800 600 landing
          (constant 0.5)).1.2 = 1%nat.
Proof.
  assert (HeroCanvas.faded_in landing) as H by (split; done).
  split; [exact H|].
  destruct (comet_update_fades_in_and_bursts_in_band exampleTrig 800 600
              landing (constant 0.5) H) as (Hf & _).
  split; [exact Hf|reflexivity].
Defined.

Lemma stageDraws_unit_interval (c : nat) :
  Props.unit_interval (mkRNG stageDraws c).
Proof.
  intros k. cbn [draws]. unfold stageDraws.
  do 7 (destruct k as [|k]; [split; [discriminate|reflexivity]|]).
  split; [discriminate|reflexivity].
Qed.

(** [stage] through a resize, a spawn and a second of flight: the next
    frame paints the two points, the tail and the head of the comet, all of
    them on the canvas of 1000 by 600. *)
Lemma comets_are_painted_on_the_canvas_witness :
  (0 <= Network.cometTailLength (Network.settings stage)
   /\ Framing.framed stage /\ Props.steady stage
   /\ Forall Props.forward staging
   /\ Network.run exampleHost staging stage = Some staged
   /\ Network.canvasRef staged
      = Some {| Network.width := 1000; Network.height := 600;
                Network.parentElement := Some (1000, 600) |})
  /\ Network.drawn (Network.updateNetwork staged)
     = Network.drawn staged ++ stagedFrame
  /\ Forall
       (Framing.call_on_canvas
          {| Network.width := 1000; Network.height := 600;
             Network.parentElement := Some (1000, 600) |}) stagedFrame
  /\ map Props.is_point stagedFrame = [false; true; true; false; false]
  /\ map Props.is_comet stagedFrame = [false; false; false; true; true].
Proof.
  assert (0 <= Network.cometTailLength (Network.settings stage)) as H0
    by done.
  assert (Framing.framed stage) as H1.
  { split; [apply stageDraws_unit_interval|]. split; [done|].
    cbn. split; [done|]. split; [done|]. split; constructor. }
  assert (Props.steady stage) as H2 by (split; constructor).
  assert (Forall Props.forward staging) as H3.
  { repeat constructor. done. }
  assert (Network.run exampleHost staging stage = Some staged) as H4
    by (vm_compute; reflexivity).
  assert (Network.canvasRef staged
          = Some {| Network.width := 1000; Network.height := 600;
                    Network.parentElement := Some (1000, 600) |}) as H5
    by (vm_compute; reflexivity).
  assert (Network.drawn (Network.updateNetwork staged)
          = Network.drawn staged ++ stagedFrame) as H6
    by (vm_compute; reflexivity).
  split; [repeat (split; [assumption|]); assumption|].
  split; [exact H6|].
  destruct (comets_are_painted_on_the_canvas exampleHost staging stage
              staged _ H0 H1 H2 H3 H4 H5) as (_ & block & Hb & Hall).
  rewrite H6 in Hb. apply app_inv_head in Hb. rewrite Hb.
  split; [exact Hall|]. rewrite <- Hb. split; reflexivity.
Defined.

End FurtherWitnesses.
